(** * stdpipe.photometry: source extraction and photometric calibration

    A shallow embedding of [src/stdpipe/photometry.py].

    - NumPy [float64] values are Rocq's primitive binary64 floats, so that
      comparisons ([flux > 0] is false on NaN), products and quotients are
      the IEEE operations the program runs.  Functions of the C library that
      the primitive floats do not have ([log10], [log], [exp], [hypot],
      rounding, powers, medians and means) are fields of the record [Libm].
    - One-dimensional arrays are lists, two-dimensional arrays are lists of
      rows.  Boolean-mask indexing [a[m]] is [mask_select], the in-place
      masked assignment [a[m] = v] is [mask_assign], fancy indexing
      [a[idx]] is [take] and raises [IndexError] out of range.
    - The collaborators (the [sep] engine, the dilation, the WCS transform,
      the HTM cross-match, the statsmodels solvers, the SExtractor process)
      are records of functions; every theorem holds for all of them.
    - Python exceptions are the [Raise] results of the [outcome] monad.
    - [verbose] only drives [print] calls and is left out. *)

From Stdlib Require Import Floats String ZArith Bool Lia Sorted Permutation List.
Import ListNotations.

(** ** Python exceptions and the error monad *)

Inductive exn : Type :=
| NameError (name : string)
| ZeroDivisionError
| IndexError
| ValueError
| TypeError.

Inductive outcome (A : Type) : Type :=
| Ok (a : A)
| Raise (e : exn).
Arguments Ok {A} a.
Arguments Raise {A} e.

Definition bind {A B : Type} (c : outcome A) (k : A -> outcome B) : outcome B :=
  match c with
  | Ok a => k a
  | Raise e => Raise e
  end.

Declare Scope py_scope.
Delimit Scope py_scope with py.
Notation "x <- c ;; k" := (bind c (fun x => k))
  (at level 61, c at next level, right associativity) : py_scope.
Notation "' p <- c ;; k" := (bind c (fun x => let p := x in k))
  (at level 61, p pattern, c at next level, right associativity) : py_scope.

(** ** NumPy arrays *)

Definition farray2 := list (list float).   (* 2-D float array, by rows *)
Definition barray2 := list (list bool).    (* 2-D boolean array *)
Definition iarray2 := list (list Z).       (* 2-D integer array *)

(** A Python [int] as a [float64], as a comparison or an arithmetic
    operation with a [float64] array converts it: the nearest binary64,
    ties to even.  The conversion is exact up to 2^53 in absolute value; an
    integer beyond the range of binary64 gives an infinity. *)
Definition Z2F (z : Z) : float := SF2Prim (binary_normalize prec emax z 0 false).

(** Python truth value of a float: [bool(t)] is [t != 0.0]. *)
Definition truthy (t : float) : bool := negb (t =? 0)%float.

Definition zeros_like {A : Type} (a : list A) : list float := map (fun _ => 0%float) a.
Definition ones_like {A : Type} (a : list A) : list float := map (fun _ => 1%float) a.

Fixpoint map2 {A B C : Type} (f : A -> B -> C) (a : list A) (b : list B) : list C :=
  match a, b with
  | x :: a', y :: b' => f x y :: map2 f a' b'
  | _, _ => []
  end.

(** [a[m]] for a boolean mask [m]. *)
Fixpoint mask_select {A : Type} (m : list bool) (a : list A) : list A :=
  match m, a with
  | b :: m', x :: a' => if b then x :: mask_select m' a' else mask_select m' a'
  | _, _ => []
  end.

(** [a[m] = vals] for a boolean mask [m]: the entries of [vals] are written,
    in order, at the positions where [m] is true. *)
Fixpoint mask_assign {A : Type} (m : list bool) (a vals : list A) : list A :=
  match m, a with
  | b :: m', x :: a' =>
      if b then
        match vals with
        | v :: vals' => v :: mask_assign m' a' vals'
        | [] => x :: a'
        end
      else x :: mask_assign m' a' vals
  | _, _ => a
  end.

(** [np.sum(m)] of a boolean array. *)
Definition count_true (m : list bool) : nat := length (filter (fun b => b) m).

(** Fancy indexing [a[idx]] with an integer index array. *)
Fixpoint take {A : Type} (a : list A) (idx : list nat) : outcome (list A) :=
  match idx with
  | [] => Ok []
  | i :: idx' =>
      match nth_error a i with
      | Some v => bind (take a idx') (fun r => Ok (v :: r))
      | None => Raise IndexError
      end
  end.

(** A masked array: [None] is a masked entry. *)
Definition masked := list (option float).

(** [a.filled(fill_value=np.nan)]. *)
Definition filled_nan (a : masked) : list float :=
  map (fun o => match o with Some v => v | None => nan end) a.

(** Elementwise [|] of two boolean images. *)
Definition mask_or (a b : barray2) : barray2 := map2 (map2 orb) a b.

(** Broadcasting of two 1-D operands: equal lengths combine elementwise, a
    length-1 operand is stretched, anything else is a [ValueError]. *)
Definition broadcast2 (f : float -> float -> float) (a b : list float)
  : outcome (list float) :=
  if Nat.eqb (length a) (length b) then Ok (map2 f a b)
  else match a, b with
       | [u], _ => Ok (map (f u) b)
       | _, [v] => Ok (map (fun x => f x v) a)
       | _, _ => Raise ValueError
       end.

(** [np.sum] along a short axis: NumPy starts from the first entry and adds
    the others from left to right.  (This is the order of the additions for
    rows of up to 8 entries, that is for [spatial_order] up to 2; on longer
    contiguous rows NumPy adds in blocks of 8.) *)
Definition np_sum (l : list float) : float :=
  match l with
  | [] => 0%float
  | a :: t => fold_left PrimFloat.add t a
  end.

Fixpoint mapM {A B : Type} (f : A -> outcome B) (l : list A) : outcome (list B) :=
  match l with
  | [] => Ok []
  | a :: l' => bind (f a) (fun b => bind (mapM f l') (fun r => Ok (b :: r)))
  end.

(** [np.vstack(cols).T]: the rows of the matrix whose columns are [cols].
    [np.vstack] raises [ValueError] on an empty list and on columns of
    different lengths. *)
Definition vstack_T (cols : list (list float)) : outcome (list (list float)) :=
  match cols with
  | [] => Raise ValueError
  | c0 :: _ =>
      if forallb (fun c => Nat.eqb (length c) (length c0)) cols
      then Ok (map (fun i => map (fun c => nth i c nan) cols) (seq 0 (length c0)))
      else Raise ValueError
  end.

(** [np.sum(X*params, axis=1)]: every row of [X] times the coefficient
    vector (broadcast), summed along the row. *)
Definition rows_dot (X : list (list float)) (params : list float)
  : outcome (list float) :=
  mapM (fun row => bind (broadcast2 PrimFloat.mul row params)
                        (fun t => Ok (np_sum t))) X.

(** ** The C library and NumPy reductions *)

Record Libm : Type := {
  log10 : float -> float;
  log : float -> float;
  exp : float -> float;
  hypot : float -> float -> float;
  pow : float -> Z -> float;          (* [x**n] for a Python int [n] *)
  round : float -> float;             (* [np.round] *)
  floor : float -> Z;
  ceil : float -> Z;
  median : list float -> float;       (* [np.median] *)
  mean : list float -> float;         (* [np.mean] *)
  total : list (list float) -> float  (* [np.sum] of a 2-D array *)
}.

(** ** Collaborators *)

Definition kwargs := list (string * string).

(** A background object: [bg.back()] and [bg.rms()] for [sep.Background],
    [bg.background] and [bg.background_rms] for [photutils.Background2D]. *)
Record BackgroundObj : Type := { back : farray2; rms : farray2 }.

(** A row of the structured array that [sep.extract] returns. *)
Record SepObject : Type := {
  o_x : float; o_y : float;
  o_a : float; o_b : float; o_theta : float;
  o_errx2 : float; o_erry2 : float;
  o_flag : Z; o_npix : Z; o_tnpix : Z
}.

(** The [sep] module.  [sum_circle] and [flux_radius] work aperture by
    aperture, so they are given for one position and mapped over the
    position arrays; [extract] returns the objects and the segmentation map
    (used only where the call asks for it). *)
Record Sep : Type := {
  Background : farray2 -> option barray2 -> Z -> Z -> kwargs -> BackgroundObj;
  extract : farray2 -> farray2 -> float -> Z -> barray2 -> option farray2 ->
            kwargs -> list SepObject * iarray2;
  flux_radius : farray2 -> float -> float -> float -> float -> barray2 ->
                float * Z;
  sum_circle : farray2 -> float -> float -> float -> farray2 -> float ->
               barray2 -> option (float * float) -> float * float * Z
}.

Record Photutils : Type := {
  Background2D : farray2 -> Z -> option barray2 -> kwargs -> BackgroundObj
}.

(** The module-level [dilate] (cv2 or FFT based, chosen at import). *)
Record Morphology : Type := {
  dilate : barray2 -> farray2 -> barray2
}.

(** A FITS header and a WCS object; the latter is its pixel-to-sky map
    [all_pix2world(x, y, origin)] at one position. *)
Definition header_t := list (string * string).
Definition wcs_t := float -> float -> Z -> float * float.

Record Astropy : Type := {
  WCS : header_t -> wcs_t
}.

(** [htm.HTM(10).match(ra1, dec1, ra2, dec2, sr, maxmatch=0)]: the matched
    triples (index in the first list, index in the second, separation). *)
Record Htm : Type := {
  htm_match : list float -> list float -> list float -> list float -> float ->
              list (nat * nat * float)
}.

(** The statsmodels solvers: [RLM(y, X).fit().params] and
    [WLS(y, X, weights=w).fit().params]. *)
Record Statsmodels : Type := {
  RLM : list float -> list (list float) -> list float;
  WLS : list float -> list (list float) -> list float -> list float
}.

(** One row of the catalogue that SExtractor writes. *)
Record SexRow : Type := {
  MAG_APER : float; MAGERR_APER : float; FLUX_APER : float; FLUXERR_APER : float;
  X_IMAGE : float; Y_IMAGE : float; ERRX2_IMAGE : float; ERRY2_IMAGE : float;
  A_IMAGE : float; B_IMAGE : float; THETA_IMAGE : float;
  FLUX_RADIUS : float; FWHM_IMAGE : float;
  FLAGS : Z; IMAFLAGS_ISO : Z; BACKGROUND : float;
  EXTRA : string -> float          (* the columns asked for by [extra_params] *)
}.

(** What one run of the SExtractor binary is given: the files written to
    the working directory and the options of the command line. *)
Record SexRun : Type := {
  run_binname : string;
  run_image : farray2;
  run_header : option header_t;
  run_flags : barray2;                 (* flags.fits *)
  DETECT_MINAREA : Z;
  GAIN : float;
  DETECT_THRESH : float;
  PHOT_APERTURES : float;
  FILTER : option farray2;             (* kernel.txt, [None] for FILTER N *)
  CHECKIMAGE_TYPE : list string;
  PARAMETERS : list string;            (* cfg.param *)
  run_extra_opts : list (string * string)
}.

(** The operating system: [os.path.isfile], [os.system] on the SExtractor
    command line, and [fits.getdata] on what the run wrote (the read of a
    file that the run did not write raises, and this is left out: the files
    are read as written). *)
Record System : Type := {
  isfile : string -> bool;
  os_system : SexRun -> Z;
  getdata_catalog : SexRun -> list SexRow;
  getdata_checkimage : SexRun -> string -> farray2
}.

Record Env : Type := {
  libm : Libm;
  sep : Sep;
  photutils : Photutils;
  morph : Morphology;
  astropy : Astropy;
  htm : Htm;
  sm : Statsmodels;
  os : System
}.

(** ** get_background *)

(** The names bound at module level by [photometry.py]. *)
Definition module_globals : list string :=
  ["absolute_import"; "division"; "print_function"; "unicode_literals";
   "os"; "posixpath"; "shutil"; "tempfile"; "np"; "WCS"; "fits"; "mad_std";
   "Table"; "warnings"; "FITSFixedWarning"; "sep"; "photutils"; "sm"; "htm";
   "cv2"; "fftconvolve"; "dilate"; "convolve"; "make_kernel";
   "get_objects_sep"; "get_objects_sextractor"; "make_series"; "match";
   "get_background"]%string.

Inductive pyobj : Type :=
| PyArray2 (a : farray2)
| PyMask (m : option barray2)
| PyStr (s : string)
| PyInt (z : Z)
| PyBool (b : bool)
| PyKwargs (k : kwargs)
| PyBackground (bg : BackgroundObj)
| PyModuleLevel (name : string).

Definition namespace := list (string * pyobj).

Fixpoint lookup (n : string) (ns : namespace) : option pyobj :=
  match ns with
  | [] => None
  | (k, v) :: ns' => if String.eqb k n then Some v else lookup n ns'
  end.

(** Name resolution inside a function body: the local variables, then the
    module's globals, otherwise [NameError]. *)
Definition load_name (locals : namespace) (n : string) : outcome pyobj :=
  match lookup n locals with
  | Some v => Ok v
  | None =>
      if existsb (String.eqb n) module_globals then Ok (PyModuleLevel n)
      else Raise (NameError n)
  end.

(** What [get_background] returns: one map, or the pair of maps. *)
Inductive bg_result : Type :=
| BgOne (b : pyobj)
| BgPair (b r : pyobj).

Module GetBackground.
Section Body.
Variable E : Env.
Variables (image : farray2) (mask : option barray2) (method : string)
          (size : Z) (get_rms : bool) (kw : kwargs).

Definition params : namespace :=
  [("image", PyArray2 image); ("mask", PyMask mask); ("method", PyStr method);
   ("size", PyInt size); ("get_rms", PyBool get_rms);
   ("kwargs", PyKwargs kw)]%string.

(** The local variables after the [if method == 'sep'] statement. *)
Definition locals : namespace :=
  if String.eqb method "sep" then
    let bg := Background (sep E) image mask size size kw in
    [("back", PyArray2 (back bg)); ("backrms", PyArray2 (rms bg));
     ("bg", PyBackground bg)]%string ++ params
  else
    let bg := Background2D (photutils E) image size mask kw in
    [("back", PyArray2 (back bg)); ("backrms", PyArray2 (rms bg));
     ("bg", PyBackground bg)]%string ++ params.

Definition get_background : outcome bg_result :=
  if get_rms then
    (b <- load_name locals "back" ;;
     r <- load_name locals "back_rms" ;;
     Ok (BgPair b r))%py
  else
    (b <- load_name locals "back" ;;
     Ok (BgOne b))%py.

End Body.
End GetBackground.

(** ** The measurement table *)

Module Tbl.

(** One row of the [astropy.table.Table] the extraction returns; the
    fields are its columns. *)
Record row : Type := {
  x : float; y : float; xerr : float; yerr : float;
  flux : float; fluxerr : float; mag : float; magerr : float;
  flags : Z; ra : float; dec : float; bg : float; fwhm : float;
  a : float; b : float; theta : float
}.

(** The table: its rows, [meta['aper']], [meta['bkgann']] and the columns
    added after construction (name and values, in the order given). *)
Record t : Type := {
  rows : list row;
  meta_aper : float;
  meta_bkgann : option (float * float);
  extra_columns : list (string * list float)
}.

(** [Table({...})]: row [i] takes entry [i] of every column; the number
    of rows is the length of the columns. *)
Definition of_columns (cx cy cxerr cyerr cflux cfluxerr cmag cmagerr : list float)
    (cflags : list Z) (cra cdec cbg cfwhm ca cb ctheta : list float) : list row :=
  map (fun i =>
         {| x := nth i cx nan; y := nth i cy nan;
            xerr := nth i cxerr nan; yerr := nth i cyerr nan;
            flux := nth i cflux nan; fluxerr := nth i cfluxerr nan;
            mag := nth i cmag nan; magerr := nth i cmagerr nan;
            flags := nth i cflags 0%Z;
            ra := nth i cra nan; dec := nth i cdec nan;
            bg := nth i cbg nan; fwhm := nth i cfwhm nan;
            a := nth i ca nan; b := nth i cb nan; theta := nth i ctheta nan |})
      (seq 0 (length cflux)).

(** [obj.sort('flux', reverse=True)]: a stable ascending argsort on the
    flux column, taken in reverse order.  (The keys it is applied to are
    never NaN: the quality cut has removed them.) *)
Fixpoint insert_asc (r : row) (l : list row) : list row :=
  match l with
  | [] => [r]
  | h :: l' => if (flux r <=? flux h)%float then r :: l else h :: insert_asc r l'
  end.

Definition argsort_asc (l : list row) : list row := fold_right insert_asc [] l.

Definition sort_flux_reverse (l : list row) : list row := rev (argsort_asc l).

(** Ascending order of the flux column, from one row to the next. *)
Definition asc (r1 r2 : row) : Prop := (flux r1 <=? flux r2)%float = true.

(** Non-increasing order of the flux column, from one row to the next. *)
Definition desc (r1 r2 : row) : Prop := (flux r2 <=? flux r1)%float = true.

Definition flux_positive (r : row) : Prop := (0 <? flux r)%float = true.

(** The quality cut at signal-to-noise [sn] holds for a row. *)
Definition quality (sn : float) (r : row) : Prop :=
  (0 <? flux r)%float = true /\ (magerr r <? 1 / sn)%float = true.

End Tbl.

(** A set pixel of the mask [m] has its centre inside the circle of radius
    [r] around [(cx, cy)] (pixel [(i, j)] is row [i], column [j], and has
    its centre at [x = j], [y = i]). *)
Definition aperture_overlaps (m : barray2) (cx cy r : float) : bool :=
  existsb (fun i =>
    existsb (fun j =>
      nth j (nth i m []) false
      && (let dx := (Z2F (Z.of_nat j) - cx)%float in
          let dy := (Z2F (Z.of_nat i) - cy)%float in
          (dx * dx + dy * dy <? r * r)%float))
    (seq 0 (length (hd [] m))))
  (seq 0 (length m)).

(** The shape of a two-dimensional array: the lengths of its rows. *)
Definition shape_of {A : Type} (m : list (list A)) : list nat := map (@length A) m.

(** The flag bit [sep.APER_HASMASKED] (0x0020) of the aperture photometry. *)
Definition APER_HASMASKED : Z := 32.

(** The contract of [sep.sum_circle] on masked pixels: an aperture that
    covers the centre of a pixel set in the mask it is given comes back with
    the bit [APER_HASMASKED] in its flag. *)
Definition aperture_contract (S : Sep) : Prop :=
  forall (img : farray2) (px py r : float) (err : farray2) (gain : float)
         (m : barray2) (bkgann : option (float * float)),
    aperture_overlaps m px py r = true ->
    Z.testbit (snd (sum_circle S img px py r err gain m bkgann)) 5 = true.

(** ** make_kernel *)

Definition Zrange (lo hi : Z) : list Z :=
  map (fun k => (lo + Z.of_nat k)%Z) (seq 0 (Z.to_nat (hi - lo))).

(** [x, y = np.mgrid[lo:hi, lo:hi]; np.exp(-hypot(x, y)**2/2/r0**2)], for
    [lo <= hi] (as with every [r0 > 0]; with [hi < lo], which a negative
    [r0] gives, [np.mgrid] raises [ValueError], and this is left out). *)
Definition make_kernel (L : Libm) (r0 ext : float) : farray2 :=
  let lo := floor L (- ext * r0)%float in
  let hi := ceil L (ext * r0 + 1)%float in
  map (fun i =>
         map (fun j =>
                let r := hypot L (Z2F i) (Z2F j) in
                exp L (- (pow L r 2) / 2 / pow L r0 2)%float)
             (Zrange lo hi))
      (Zrange lo hi).

(** Python's [max(a, b)]: [a] unless [b > a]. *)
Definition py_max (a b : float) : float := if (a <? b)%float then b else a.

Definition np_pi : float := 0x1.921fb54442d18p+1%float.

(** [1.0/sn] on Python floats. *)
Definition py_inv (sn : float) : outcome float :=
  if (sn =? 0)%float then Raise ZeroDivisionError else Ok (1 / sn)%float.

(** [np.isin(segm, labels)]. *)
Definition isin (segm : iarray2) (labels : list Z) : barray2 :=
  map (map (fun s => existsb (Z.eqb s) labels)) segm.

(** [[_+1 for _,npix in enumerate(npixs) if npix > npix_large]], from index [k]. *)
Fixpoint large_labels (npix_large : Z) (k : Z) (npixs : list Z) : list Z :=
  match npixs with
  | [] => []
  | n :: t =>
      if (npix_large <? n)%Z then (k + 1)%Z :: large_labels npix_large (k + 1) t
      else large_labels npix_large (k + 1) t
  end.

(** [np.ones([10, 10])]. *)
Definition ones_10_10 : farray2 := repeat (repeat 1%float 10) 10.

(** The arguments of [get_objects_sep], with their defaults. *)
Module SepArgs.
Record t : Type := {
  image : farray2;
  header : option header_t;
  mask : option barray2;
  thresh : float;
  aper : float;
  bkgann : option (float * float);
  r0 : float;
  gain : float;
  edge : Z;
  minnthresh : Z;
  minarea : Z;
  relfluxradius : float;
  wcs : option wcs_t;
  use_fwhm : bool;
  use_mask_large : bool;
  subtract_bg : bool;
  npix_large : Z;
  sn : float;
  kw : kwargs
}.

Definition defaults (img : farray2) : t :=
  {| image := img; header := None; mask := None; thresh := 4; aper := 3;
     bkgann := None; r0 := 0.5; gain := 1; edge := 0; minnthresh := 2;
     minarea := 5; relfluxradius := 2; wcs := None; use_fwhm := false;
     use_mask_large := false; subtract_bg := true; npix_large := 100;
     sn := 10; kw := [] |}.
End SepArgs.

(** ** get_objects_sep, read with value semantics

    Every array is a value; the in-place statements ([idx &= ...],
    [mag[flux>0] = ...], [flag |= ...]) give the new value of the variable.
    [GetObjectsSepStore] below reads the same function with the arrays in a
    store. *)

Module GetObjectsSep.
Section Body.
Variable E : Env.
Variable args : SepArgs.t.

Local Abbreviation image := (SepArgs.image args).
Local Abbreviation header := (SepArgs.header args).
Local Abbreviation mask := (SepArgs.mask args).
Local Abbreviation thresh := (SepArgs.thresh args).
Local Abbreviation aper := (SepArgs.aper args).
Local Abbreviation bkgann := (SepArgs.bkgann args).
Local Abbreviation r0 := (SepArgs.r0 args).
Local Abbreviation gain := (SepArgs.gain args).
Local Abbreviation edge := (SepArgs.edge args).
Local Abbreviation minnthresh := (SepArgs.minnthresh args).
Local Abbreviation minarea := (SepArgs.minarea args).
Local Abbreviation relfluxradius := (SepArgs.relfluxradius args).
Local Abbreviation wcs := (SepArgs.wcs args).
Local Abbreviation use_fwhm := (SepArgs.use_fwhm args).
Local Abbreviation use_mask_large := (SepArgs.use_mask_large args).
Local Abbreviation subtract_bg := (SepArgs.subtract_bg args).
Local Abbreviation npix_large := (SepArgs.npix_large args).
Local Abbreviation sn := (SepArgs.sn args).
Local Abbreviation kw := (SepArgs.kw args).
Local Abbreviation L := (libm E).
Local Abbreviation S := (sep E).

Definition kernel : option farray2 :=
  if (0 <? r0)%float then Some (make_kernel L r0 1) else None.

(** [mask] after [if mask is None: mask = np.zeros_like(image, dtype=np.bool)]. *)
Definition mask1 : barray2 :=
  match mask with
  | Some m => m
  | None => map (map (fun _ => false)) image
  end.

Definition mask_bg : barray2 := map (map (fun _ => false)) mask1.

(** [mask_segm] before the [use_mask_large] block. *)
Definition mask_segm0 : barray2 := map (map (fun _ => false)) mask1.

Definition bg : BackgroundObj :=
  Background S image (Some (mask_or mask1 mask_bg)) 64 64 [].

Definition image1 : farray2 :=
  if subtract_bg then map2 (map2 PrimFloat.sub) image (back bg) else image.

(** The argument of [sep.set_extract_pixstack]. *)
Definition pixstack_arg : Z :=
  (Z.of_nat (length image) * Z.of_nat (length (hd [] image)))%Z.

(** The first pass, run only under [use_mask_large]. *)
Definition first_pass : list SepObject * iarray2 :=
  extract S image1 (rms bg) thresh minarea (mask_or mask1 mask_bg) kernel [].

Definition mask_segm : barray2 :=
  if use_mask_large then
    dilate (morph E)
           (isin (snd first_pass)
                 (large_labels npix_large 0 (map o_npix (fst first_pass))))
           ones_10_10
  else mask_segm0.

(** [mask|mask_bg|mask_segm], the mask of the final extraction and of the
    aperture photometry. *)
Definition mask_all : barray2 := mask_or (mask_or mask1 mask_bg) mask_segm.

(** The final extraction.  [kw] is handed on as it is (a [kw] that repeats
    a keyword of the call, which Python refuses with [TypeError], or that
    asks for the segmentation map, is left out). *)
Definition obj0 : list SepObject :=
  fst (extract S image1 (rms bg) thresh minarea mask_all kernel kw).

(** [aper] after the [use_fwhm] block. *)
Definition aper1 : float :=
  if use_fwhm then
    let idx := map (fun o => Z.eqb (o_flag o) 0) obj0 in
    let fwhm := map2 (fun oa ob => (2 * sqrt (hypot L oa ob * log L 2))%float)
                     (mask_select idx (map o_a obj0))
                     (mask_select idx (map o_b obj0)) in
    let rmax := map2 (fun f one => (relfluxradius * f * one)%float)
                     fwhm (ones_like (mask_select idx (map o_x obj0))) in
    let fwhm := map (fun '(ox, oy, r) =>
                       (2 * fst (flux_radius S image1 ox oy r 0.5 mask1))%float)
                    (combine (combine (mask_select idx (map o_x obj0))
                                      (mask_select idx (map o_y obj0))) rmax) in
    let fwhm := median L fwhm in
    py_max (1.5 * fwhm)%float aper
  else aper.

Definition xwin : list float := map o_x obj0.
Definition ywin : list float := map o_y obj0.

Definition shape0 : Z := Z.of_nat (length image).
Definition shape1 : Z := Z.of_nat (length (hd [] image)).

(** The edge filter of line 100. *)
Definition idx_edge : list bool :=
  map2 (fun xw yw =>
          (Z2F edge <? round L xw)%float && (Z2F edge <? round L yw)%float
          && (round L xw <? Z2F (shape1 - edge))%float
          && (round L yw <? Z2F (shape0 - edge))%float)
       xwin ywin.

(** [idx] after [if minnthresh: idx &= (obj0['tnpix'] >= minnthresh)]. *)
Definition idx : list bool :=
  if negb (Z.eqb minnthresh 0) then
    map2 andb idx_edge (map (fun o => (minnthresh <=? o_tnpix o)%Z) obj0)
  else idx_edge.

(** [c[idx]] *)
Definition sel {T : Type} (c : list T) : list T := mask_select idx c.

Definition positions : list (float * float) := combine (sel xwin) (sel ywin).

(** [flux,fluxerr,flag = sep.sum_circle(image1, xwin[idx], ywin[idx], aper, ...)]. *)
Definition phot : list (float * float * Z) :=
  map (fun '(px, py) =>
         sum_circle S image1 px py aper1 (rms bg) gain mask_all bkgann)
      positions.

Definition flux : list float := map (fun p => fst (fst p)) phot.
Definition fluxerr : list float := map (fun p => snd (fst p)) phot.
Definition flag0 : list Z := map snd phot.

Definition bgflux : list float :=
  map (fun '(px, py) =>
         fst (fst (sum_circle S (back bg) px py aper1 (rms bg) gain mask_all None)))
      positions.

Definition bgnorm : list float :=
  map (fun f => (f / np_pi / pow L aper1 2)%float) bgflux.

(** [flux > 0] *)
Definition positive : list bool := map (fun f => (0 <? f)%float) flux.

Definition mag : list float :=
  mask_assign positive (zeros_like flux)
    (map (fun f => (-2.5 * log10 L f)%float) (mask_select positive flux)).

Definition magerr : list float :=
  mask_assign positive (zeros_like flux)
    (map2 (fun fe f => (2.5 / log L 10 * fe / f)%float)
          (mask_select positive fluxerr) (mask_select positive flux)).

Definition fwhm : list float :=
  map2 (fun '(px, py) r => (2 * fst (flux_radius S image1 px py r 0.5 mask1))%float)
       positions
       (map (fun one => (relfluxradius * aper1 * one)%float)
            (ones_like (sel xwin))).

(** [flag] after [flag |= obj0['flag'][idx]]. *)
Definition flag : list Z := map2 Z.lor flag0 (sel (map o_flag obj0)).

(** The quality cut, given the value [lim] of [1.0/sn]. *)
Definition fidx (lim : float) : list bool :=
  map2 andb positive (map (fun me => (me <? lim)%float) magerr).

(** [wcs] after [if wcs is None and header is not None: wcs = WCS(header)]. *)
Definition wcs1 : option wcs_t :=
  match wcs, header with
  | None, Some h => Some (WCS (astropy E) h)
  | _, _ => wcs
  end.

Definition radec : list (float * float) :=
  match wcs1 with
  | Some w => map2 (fun ox oy => w ox oy 0%Z) (sel (map o_x obj0)) (sel (map o_y obj0))
  | None => combine (zeros_like (sel (map o_x obj0))) (zeros_like (sel (map o_y obj0)))
  end.

(** The rows of [Table({...})], before sorting. *)
Definition table_rows (lim : float) : list Tbl.row :=
  let f := fidx lim in
  Tbl.of_columns
    (mask_select f (sel xwin)) (mask_select f (sel ywin))
    (map sqrt (mask_select f (sel (map o_errx2 obj0))))
    (map sqrt (mask_select f (sel (map o_erry2 obj0))))
    (mask_select f flux) (mask_select f fluxerr)
    (mask_select f mag) (mask_select f magerr)
    (map2 Z.lor (mask_select f (sel (map o_flag obj0))) (mask_select f flag))
    (mask_select f (map fst radec)) (mask_select f (map snd radec))
    (mask_select f bgnorm) (mask_select f fwhm)
    (mask_select f (sel (map o_a obj0))) (mask_select f (sel (map o_b obj0)))
    (mask_select f (sel (map o_theta obj0))).

(** *** The same computation, object by object

    What the column program above computes for one object [o] of [obj0]
    that passed the filter [idx]; [table_rows_by_object] proves that the
    rows of the table are these. *)

Definition phot_of (o : SepObject) : float * float * Z :=
  sum_circle S image1 (o_x o) (o_y o) aper1 (rms bg) gain mask_all bkgann.

Definition flux_of (o : SepObject) : float := fst (fst (phot_of o)).
Definition fluxerr_of (o : SepObject) : float := snd (fst (phot_of o)).

Definition mag_of (o : SepObject) : float :=
  if (0 <? flux_of o)%float then (-2.5 * log10 L (flux_of o))%float else 0%float.

Definition magerr_of (o : SepObject) : float :=
  if (0 <? flux_of o)%float
  then (2.5 / log L 10 * fluxerr_of o / flux_of o)%float else 0%float.

Definition keep (lim : float) (o : SepObject) : bool :=
  (0 <? flux_of o)%float && (magerr_of o <? lim)%float.

Definition radec_of (o : SepObject) : float * float :=
  match wcs1 with
  | Some w => w (o_x o) (o_y o) 0%Z
  | None => (0%float, 0%float)
  end.

Definition measurement (o : SepObject) : Tbl.row :=
  {| Tbl.x := o_x o; Tbl.y := o_y o;
     Tbl.xerr := sqrt (o_errx2 o); Tbl.yerr := sqrt (o_erry2 o);
     Tbl.flux := flux_of o; Tbl.fluxerr := fluxerr_of o;
     Tbl.mag := mag_of o; Tbl.magerr := magerr_of o;
     Tbl.flags := Z.lor (o_flag o) (Z.lor (snd (phot_of o)) (o_flag o));
     Tbl.ra := fst (radec_of o); Tbl.dec := snd (radec_of o);
     Tbl.bg := (fst (fst (sum_circle S (back bg) (o_x o) (o_y o) aper1 (rms bg)
                                      gain mask_all None))
                / np_pi / pow L aper1 2)%float;
     Tbl.fwhm := (2 * fst (flux_radius S image1 (o_x o) (o_y o)
                                       (relfluxradius * aper1 * 1) 0.5 mask1))%float;
     Tbl.a := o_a o; Tbl.b := o_b o; Tbl.theta := o_theta o |}.

Definition get_objects_sep : outcome Tbl.t :=
  (lim <- py_inv sn ;;
   Ok {| Tbl.rows := Tbl.sort_flux_reverse (table_rows lim);
         Tbl.meta_aper := aper1;
         Tbl.meta_bkgann := bkgann;
         Tbl.extra_columns := [] |})%py.

End Body.
End GetObjectsSep.

(** ** get_objects_sextractor

    The aperture [aper] is a scalar (the branch [np.isscalar(aper)]); with a
    list of apertures the photometric columns are two-dimensional and lie
    outside the measurement table modelled here.  The working directory and
    its files are the fields of [SexRun]; [catfile], [_workdir] and
    [_tmpdir] only copy or delete files and are left out.  The columns of
    the catalogue are read as binary64 values and compared as such;
    SExtractor writes most of them in single precision, where NumPy compares
    them with [1.0/sn] rounded to single precision, a cut that keeps no row
    that the cut modelled here drops. *)

Module SexArgs.
Record t : Type := {
  image : farray2;
  header : option header_t;
  mask : option barray2;
  thresh : float;
  aper : float;
  r0 : float;
  bkgann : option (float * float);
  gain : float;
  edge : Z;
  minarea : Z;
  wcs : option wcs_t;
  sn : float;
  checkimages : list string;
  extra_params : list string;
  extra_opts : list (string * string)
}.

Definition defaults (img : farray2) : t :=
  {| image := img; header := None; mask := None; thresh := 2; aper := 3;
     r0 := 0.5; bkgann := None; gain := 1; edge := 0; minarea := 5;
     wcs := None; sn := 3; checkimages := []; extra_params := [];
     extra_opts := [] |}.
End SexArgs.

(** What [get_objects_sextractor] returns: [obj] (a table or [None]), or
    the list [[obj, checkimage, ...]] when check images were asked for. *)
Inductive sex_result : Type :=
| SexObj (obj : option Tbl.t)
| SexList (obj : option Tbl.t) (checks : list farray2).

(** The table inside a result, if there is one. *)
Definition sex_table (res : sex_result) : option Tbl.t :=
  match res with
  | SexObj obj => obj
  | SexList obj _ => obj
  end.

Module GetObjectsSextractor.
Section Body.
Variable E : Env.
Variable args : SexArgs.t.

Local Abbreviation image := (SexArgs.image args).
Local Abbreviation header := (SexArgs.header args).
Local Abbreviation mask := (SexArgs.mask args).
Local Abbreviation thresh := (SexArgs.thresh args).
Local Abbreviation aper := (SexArgs.aper args).
Local Abbreviation r0 := (SexArgs.r0 args).
Local Abbreviation gain := (SexArgs.gain args).
Local Abbreviation edge := (SexArgs.edge args).
Local Abbreviation minarea := (SexArgs.minarea args).
Local Abbreviation wcs := (SexArgs.wcs args).
Local Abbreviation sn := (SexArgs.sn args).
Local Abbreviation checkimages := (SexArgs.checkimages args).
Local Abbreviation extra_params := (SexArgs.extra_params args).
Local Abbreviation extra_opts := (SexArgs.extra_opts args).
Local Abbreviation L := (libm E).

(** [posixpath.join(path, exe)] for the directories probed. *)
Definition join (path exe : string) : string := (path ++ "/" ++ exe)%string.

(** The inner loop over the executable names: the first one that exists
    is taken and the loop is left. *)
Fixpoint probe (path : string) (exes : list string) (binname : option string)
  : option string :=
  match exes with
  | [] => binname
  | exe :: exes' =>
      if isfile (os E) (join path exe) then Some (join path exe)
      else probe path exes' binname
  end.

(** The outer loop over the directories (it runs to its end). *)
Definition binname : option string :=
  fold_left (fun b path =>
               probe path ["sex"; "sextractor"; "source-extractor"]%string b)
            ["."; "/usr/bin"; "/usr/local/bin"; "/opt/local/bin"]%string None.

Definition mask1 : barray2 :=
  match mask with
  | Some m => m
  | None => map (map (fun _ => false)) image
  end.

Definition params : list string :=
  ["MAG_APER"; "MAGERR_APER"; "FLUX_APER"; "FLUXERR_APER"; "X_IMAGE";
   "Y_IMAGE"; "ERRX2_IMAGE"; "ERRY2_IMAGE"; "A_IMAGE"; "B_IMAGE";
   "THETA_IMAGE"; "FLUX_RADIUS"; "FWHM_IMAGE"; "FLAGS"; "IMAFLAGS_ISO";
   "BACKGROUND"]%string ++ extra_params.

(** [kernel/np.sum(kernel)], or no filter when [r0] is falsy. *)
Definition filter_kernel : option farray2 :=
  if negb (truthy r0) then None
  else
    let kernel := make_kernel L r0 1 in
    Some (map (map (fun v => (v / total L kernel)%float)) kernel).

Definition run (bin : string) : SexRun :=
  {| run_binname := bin; run_image := image; run_header := header;
     run_flags := mask1; DETECT_MINAREA := minarea; GAIN := gain;
     DETECT_THRESH := thresh; PHOT_APERTURES := (aper * 2)%float;
     FILTER := filter_kernel; CHECKIMAGE_TYPE := checkimages;
     PARAMETERS := params; run_extra_opts := extra_opts |}.

Definition shape0 : Z := Z.of_nat (length image).
Definition shape1 : Z := Z.of_nat (length (hd [] image)).

(** [idx] after the three [idx &= ...] statements, given the catalogue
    [data] and the value [lim] of [1.0/sn]. *)
Definition idx (data : list SexRow) (lim : float) : list bool :=
  let idx := map2 andb (map (fun r => (Z2F edge <? X_IMAGE r)%float) data)
                       (map (fun r => (X_IMAGE r <? Z2F (shape1 - edge))%float) data) in
  let idx := map2 andb idx
               (map2 andb (map (fun r => (Z2F edge <? Y_IMAGE r)%float) data)
                          (map (fun r => (Y_IMAGE r <? Z2F (shape0 - edge))%float) data)) in
  let idx := map2 andb idx (map (fun r => (MAGERR_APER r <? lim)%float) data) in
  map2 andb idx (map (fun r => (0 <? FLUX_APER r)%float) data).

Definition wcs1 : option wcs_t :=
  match wcs, header with
  | None, Some h => Some (WCS (astropy E) h)
  | _, _ => wcs
  end.

Definition radec (data : list SexRow) : list (float * float) :=
  match wcs1 with
  | Some w => map2 (fun px py => w px py 1%Z) (map X_IMAGE data) (map Y_IMAGE data)
  | None => combine (zeros_like (map X_IMAGE data)) (zeros_like (map Y_IMAGE data))
  end.

(** [data['FLAGS']] after [data['FLAGS'][data['IMAFLAGS_ISO'] > 0] |= 256]. *)
Definition flags (data : list SexRow) : list Z :=
  let m := map (fun r => (0 <? IMAFLAGS_ISO r)%Z) data in
  mask_assign m (map FLAGS data)
    (map (fun f => Z.lor f 256) (mask_select m (map FLAGS data))).

(** [Table({...})] on [data = data[idx]]. *)
Definition table_rows (data : list SexRow) : list Tbl.row :=
  Tbl.of_columns
    (map (fun r => (X_IMAGE r - 1)%float) data)
    (map (fun r => (Y_IMAGE r - 1)%float) data)
    (map sqrt (map ERRX2_IMAGE data)) (map sqrt (map ERRY2_IMAGE data))
    (map FLUX_APER data) (map FLUXERR_APER data)
    (map MAG_APER data) (map MAGERR_APER data)
    (flags data)
    (map fst (radec data)) (map snd (radec data))
    (map BACKGROUND data) (map FWHM_IMAGE data)
    (map A_IMAGE data) (map B_IMAGE data) (map THETA_IMAGE data).

(** The body of [if res == 0:]. *)
Definition read_catalog (r : SexRun) : outcome Tbl.t :=
  let data := getdata_catalog (os E) r in
  (lim <- py_inv sn ;;
   let data := mask_select (idx data lim) data in
   Ok {| Tbl.rows := Tbl.sort_flux_reverse (table_rows data);
         Tbl.meta_aper := aper;
         Tbl.meta_bkgann := None;
         Tbl.extra_columns :=
           map (fun p => (p, map (fun row => EXTRA row p) data)) extra_params |})%py.

Definition get_objects_sextractor : outcome sex_result :=
  match binname with
  | None => Ok (SexObj None)
  | Some bin =>
      let r := run bin in
      (obj <- (if Z.eqb (os_system (os E) r) 0
               then (t <- read_catalog r ;; Ok (Some t))
               else Ok None) ;;
       match checkimages with
       | [] => Ok (SexObj obj)
       | _ => Ok (SexList obj (map (getdata_checkimage (os E) r) checkimages))
       end)%py
  end.

(** *** The same computation, catalogue row by catalogue row *)

Definition keep (lim : float) (r : SexRow) : bool :=
  (Z2F edge <? X_IMAGE r)%float && (X_IMAGE r <? Z2F (shape1 - edge))%float
  && ((Z2F edge <? Y_IMAGE r)%float && (Y_IMAGE r <? Z2F (shape0 - edge))%float)
  && (MAGERR_APER r <? lim)%float && (0 <? FLUX_APER r)%float.

Definition radec_of (r : SexRow) : float * float :=
  match wcs1 with
  | Some w => w (X_IMAGE r) (Y_IMAGE r) 1%Z
  | None => (0%float, 0%float)
  end.

Definition measurement (r : SexRow) : Tbl.row :=
  {| Tbl.x := (X_IMAGE r - 1)%float; Tbl.y := (Y_IMAGE r - 1)%float;
     Tbl.xerr := sqrt (ERRX2_IMAGE r); Tbl.yerr := sqrt (ERRY2_IMAGE r);
     Tbl.flux := FLUX_APER r; Tbl.fluxerr := FLUXERR_APER r;
     Tbl.mag := MAG_APER r; Tbl.magerr := MAGERR_APER r;
     Tbl.flags := if (0 <? IMAFLAGS_ISO r)%Z then Z.lor (FLAGS r) 256 else FLAGS r;
     Tbl.ra := fst (radec_of r); Tbl.dec := snd (radec_of r);
     Tbl.bg := BACKGROUND r; Tbl.fwhm := FWHM_IMAGE r;
     Tbl.a := A_IMAGE r; Tbl.b := B_IMAGE r; Tbl.theta := THETA_IMAGE r |}.

End Body.
End GetObjectsSextractor.

(** ** make_series

    [mul] is a scalar or an array: a scalar is the one-entry list, which
    broadcasts the same way.  The mode [sum=True] is used by no caller in
    the module and is left out. *)

(** The pairs [(i, j)] of [for i in range(1, order+1): for j in range(i+1)]. *)
Definition series_terms (order : Z) : list (Z * Z) :=
  flat_map (fun i => map (fun j => (i, j)) (Zrange 0 (i + 1))) (Zrange 1 (order + 1)).

Definition make_series (L : Libm) (mul x y : list float) (order : Z) (zero : bool)
  : outcome (list (list float)) :=
  (res <- (if zero
           then (c <- broadcast2 PrimFloat.mul (ones_like x) mul ;; Ok [c])
           else Ok []) ;;
   terms <- mapM (fun ij =>
                    t <- broadcast2 PrimFloat.mul mul
                           (map (fun v => pow L v (fst ij - snd ij)) x) ;;
                    broadcast2 PrimFloat.mul t (map (fun v => pow L v (snd ij)) y))
                 (series_terms order) ;;
   Ok (res ++ terms))%py.

(** The number of columns that [make_series] gives with [zero=True]. *)
Definition spatial_width (order : Z) : nat :=
  Datatypes.S (length (series_terms order)).

(** ** match *)

Module MatchArgs.
Record t : Type := {
  obj_ra : list float;
  obj_dec : list float;
  obj_mag : list float;
  obj_magerr : list float;
  obj_flags : list Z;
  cat_ra : list float;
  cat_dec : list float;
  cat_mag : masked;
  cat_magerr : option masked;
  cat_color : option masked;
  sr : float;
  obj_x : option (list float);
  obj_y : option (list float);
  spatial_order : Z;
  threshold : float;
  robust : bool
}.
End MatchArgs.

(** The arrays built before the loop (lines 327-371). *)
Module Prep.
Record t : Type := {
  oidx : list nat; cidx : list nat; dist : list float;
  omag : list float; omag_err : list float; oflags : list Z;
  cmag : list float; cmag_err : list float;
  x0 : float; y0 : float; x : list float; y : list float;
  ccolor : list float;
  X : list (list float);          (* the design matrix, by rows *)
  zero : list float; zero_err : list float; weights : list float;
  idx0 : list bool
}.
End Prep.

(** What the loop leaves behind: the last fit [C.params], [zero_model] and
    the mask [idx]. *)
Record fit_state : Type := {
  fit_params : list float;
  fit_zero_model : list float;
  fit_idx : list bool
}.

(** The returned dictionary.  [C_params] is not a key of it: it is the
    coefficient vector that the closure [zero_fn] has captured. *)
Record Bundle : Type := {
  b_oidx : list nat; b_cidx : list nat; b_dist : list float;
  b_omag : list float; b_omag_err : list float;
  b_cmag : list float; b_cmag_err : list float;
  b_color : list float; b_color_term : option float;
  b_zero : list float; b_zero_err : list float; b_zero_model : list float;
  b_zero_fn : option (list float) -> option (list float) -> outcome (list float);
  b_obj_zero : list float;
  b_idx : list bool; b_idx0 : list bool;
  C_params : list float
}.

(** What happens in the loop, in order: an iteration starts with the active
    mask [idx]; a regression is run on the points of [idx] and gives
    [params].  The log is not part of the program's result; the theorems
    about the iterations are stated on it. *)
Inductive event : Type :=
| IterStart (idx : list bool)
| Fit (idx : list bool) (params : list float).

(** The contract of the statsmodels solvers: the fit has one coefficient
    per column of the design matrix it is given. *)
Definition solver_contract (S : Statsmodels) : Prop :=
  forall (ys : list float) (X : list (list float)) (w : list float),
    X <> [] ->
    length (RLM S ys X) = length (hd [] X)
    /\ length (WLS S ys X w) = length (hd [] X).

(** The masks with which the iterations of a log started, in order. *)
Definition starts_of (log : list event) : list (list bool) :=
  flat_map (fun ev => match ev with IterStart idx => [idx] | Fit _ _ => [] end) log.

(** The regressions of a log, in order: the mask and the coefficients. *)
Definition fits_of (log : list event) : list (list bool * list float) :=
  flat_map (fun ev => match ev with IterStart _ => [] | Fit idx C => [(idx, C)] end) log.

(** [m] selects only points that [m0] selects. *)
Definition submask (m m0 : list bool) : Prop :=
  Forall2 (fun b b0 => b = true -> b0 = true) m m0.

Module MatchFn.
Section Body.
Variable E : Env.
Variable args : MatchArgs.t.

Local Abbreviation obj_ra := (MatchArgs.obj_ra args).
Local Abbreviation obj_dec := (MatchArgs.obj_dec args).
Local Abbreviation obj_mag := (MatchArgs.obj_mag args).
Local Abbreviation obj_magerr := (MatchArgs.obj_magerr args).
Local Abbreviation obj_flags := (MatchArgs.obj_flags args).
Local Abbreviation cat_ra := (MatchArgs.cat_ra args).
Local Abbreviation cat_dec := (MatchArgs.cat_dec args).
Local Abbreviation cat_mag := (MatchArgs.cat_mag args).
Local Abbreviation cat_magerr := (MatchArgs.cat_magerr args).
Local Abbreviation cat_color := (MatchArgs.cat_color args).
Local Abbreviation sr := (MatchArgs.sr args).
Local Abbreviation obj_x := (MatchArgs.obj_x args).
Local Abbreviation obj_y := (MatchArgs.obj_y args).
Local Abbreviation spatial_order := (MatchArgs.spatial_order args).
Local Abbreviation threshold := (MatchArgs.threshold args).
Local Abbreviation robust := (MatchArgs.robust args).
Local Abbreviation L := (libm E).

(** [oidx,cidx,dist = h.match(obj_ra, obj_dec, cat_ra, cat_dec, sr, maxmatch=0)]. *)
Definition matches : list (nat * nat * float) :=
  htm_match (htm E) obj_ra obj_dec cat_ra cat_dec sr.

Definition oidx : list nat := map (fun m => fst (fst m)) matches.
Definition cidx : list nat := map (fun m => snd (fst m)) matches.
Definition dist : list float := map snd matches.

(** [idx0], the base mask of line 367, and line 369 when a colour is given. *)
Definition base_mask (omag omag_err cmag cmag_err : list float) (oflags : list Z)
    (ccolor : list float) : list bool :=
  let idx0 :=
    map2 andb
      (map2 andb
         (map2 andb
            (map2 andb (map is_finite omag) (map is_finite omag_err))
            (map is_finite cmag))
         (map is_finite cmag_err))
      (map (fun f => Z.eqb f 0) oflags) in
  match cat_color with
  | Some _ => map2 andb idx0 (map is_finite ccolor)
  | None => idx0
  end.

(** The number of columns of the design matrix: the spatial terms, and
    one more when a colour is given. *)
Definition width : nat :=
  spatial_width spatial_order
  + match cat_color with Some _ => 1 | None => 0 end.

(** [obj_x] and [obj_y], when both are given, have one length. *)
Definition positions_aligned : Prop :=
  match obj_x, obj_y with
  | Some ox, Some oy => length ox = length oy
  | _, _ => True
  end.

(** Lines 327-371. *)
Definition prepare : outcome Prep.t :=
  (omag <- take obj_mag oidx ;;
   omag_err <- take obj_magerr oidx ;;
   oflags <- take obj_flags oidx ;;
   cmag_m <- take cat_mag cidx ;;
   let cmag := filled_nan cmag_m in
   cmag_err <- match cat_magerr with
               | Some e => (m <- take e cidx ;; Ok (filled_nan m))
               | None => Ok (zeros_like cmag)
               end ;;
   centred <- match obj_x, obj_y with
              | Some ox, Some oy =>
                  (xs <- take ox oidx ;;
                   ys <- take oy oidx ;;
                   let x0 := mean L xs in
                   let y0 := mean L ys in
                   Ok (x0, y0, map (fun v => v - x0)%float xs,
                       map (fun v => v - y0)%float ys))
              | _, _ => Ok (0%float, 0%float, zeros_like omag, zeros_like omag)
              end ;;
   let x0 := fst (fst (fst centred)) in
   let y0 := snd (fst (fst centred)) in
   let x := snd (fst centred) in
   let y := snd centred in
   X <- make_series L [1%float] x y spatial_order true ;;
   coloured <- match cat_color with
               | Some c =>
                   (m <- take c cidx ;;
                    let ccolor := filled_nan m in
                    Xc <- make_series L ccolor x y 0 true ;;
                    Ok (ccolor, X ++ Xc))
               | None => Ok (zeros_like cmag, X)
               end ;;
   let ccolor := fst coloured in
   X <- vstack_T (snd coloured) ;;
   let zero := map2 PrimFloat.sub cmag omag in
   let zero_err := map2 (hypot L) omag_err cmag_err in
   let weights := map (fun e => 1 / pow L e 2)%float zero_err in
   Ok {| Prep.oidx := oidx; Prep.cidx := cidx; Prep.dist := dist;
         Prep.omag := omag; Prep.omag_err := omag_err; Prep.oflags := oflags;
         Prep.cmag := cmag; Prep.cmag_err := cmag_err;
         Prep.x0 := x0; Prep.y0 := y0; Prep.x := x; Prep.y := y;
         Prep.ccolor := ccolor; Prep.X := X;
         Prep.zero := zero; Prep.zero_err := zero_err; Prep.weights := weights;
         Prep.idx0 := base_mask omag omag_err cmag cmag_err oflags ccolor |})%py.

Section Loop.
Variable p : Prep.t.

(** [C = sm.RLM(zero[idx], X[idx]).fit()] or
    [C = sm.WLS(zero[idx], X[idx], weights=weights[idx]).fit()]. *)
Definition regress (idx : list bool) : list float :=
  if robust then
    RLM (sm E) (mask_select idx (Prep.zero p)) (mask_select idx (Prep.X p))
  else
    WLS (sm E) (mask_select idx (Prep.zero p)) (mask_select idx (Prep.X p))
        (mask_select idx (Prep.weights p)).

(** [np.abs((zero - zero_model)/zero_err) < threshold], on all points. *)
Definition within (zero_model : list float) : list bool :=
  map2 (fun r e => (abs (r / e) <? threshold)%float)
       (map2 PrimFloat.sub (Prep.zero p) zero_model) (Prep.zero_err p).

(** [idx = idx0.copy(); if threshold: idx[idx0] &= within[idx0]]. *)
Definition next_idx (zero_model : list float) : list bool :=
  let idx := Prep.idx0 p in
  if truthy threshold then
    mask_assign (Prep.idx0 p) idx
      (map2 andb (mask_select (Prep.idx0 p) idx)
                 (mask_select (Prep.idx0 p) (within zero_model)))
  else idx.

(** One iteration of [for iter in range(5)] and, unless the loop is left,
    the [n] that remain. *)
Fixpoint iterate (n : nat) (idx : list bool)
  : list event * outcome (option fit_state) :=
  if Nat.ltb (count_true idx) 3 then ([IterStart idx], Ok None)
  else
    let C := regress idx in
    match rows_dot (Prep.X p) C with
    | Raise e => ([IterStart idx; Fit idx C], Raise e)
    | Ok zero_model =>
        let st := {| fit_params := C; fit_zero_model := zero_model;
                     fit_idx := next_idx zero_model |} in
        if negb (truthy threshold) then ([IterStart idx; Fit idx C], Ok (Some st))
        else
          match n with
          | O => ([IterStart idx; Fit idx C], Ok (Some st))
          | Datatypes.S n' =>
              let rest := iterate n' (fit_idx st) in
              (IterStart idx :: Fit idx C :: fst rest, snd rest)
          end
    end.

(** The closure [zero_fn(xx, yy)] over the coefficients [C]. *)
Definition zero_fn (C : list float) (xx yy : option (list float))
  : outcome (list float) :=
  let xy := match xx, yy with
            | Some xs, Some ys =>
                (map (fun v => v - Prep.x0 p)%float xs,
                 map (fun v => v - Prep.y0 p)%float ys)
            | _, _ => (zeros_like (Prep.omag p), zeros_like (Prep.omag p))
            end in
  (cols <- make_series L [1%float] (fst xy) (snd xy) spatial_order true ;;
   X <- vstack_T cols ;;
   rows_dot X (firstn (length cols) C))%py.

(** [color_term = C.params[len(X):][0]] with [X = make_series(order=spatial_order)]. *)
Definition color_term (C : list float) : outcome (option float) :=
  match cat_color with
  | Some _ =>
      (X <- make_series L [1%float] [1%float] [1%float] spatial_order true ;;
       match skipn (length X) C with
       | v :: _ => Ok (Some v)
       | [] => Raise IndexError
       end)%py
  | None => Ok None
  end.

(** Lines 399-426. *)
Definition export (st : fit_state) : outcome Bundle :=
  (ct <- color_term (fit_params st) ;;
   obj_zero <- zero_fn (fit_params st) obj_x obj_y ;;
   Ok {| b_oidx := Prep.oidx p; b_cidx := Prep.cidx p; b_dist := Prep.dist p;
         b_omag := Prep.omag p; b_omag_err := Prep.omag_err p;
         b_cmag := Prep.cmag p; b_cmag_err := Prep.cmag_err p;
         b_color := Prep.ccolor p; b_color_term := ct;
         b_zero := Prep.zero p; b_zero_err := Prep.zero_err p;
         b_zero_model := fit_zero_model st;
         b_zero_fn := zero_fn (fit_params st);
         b_obj_zero := obj_zero;
         b_idx := fit_idx st; b_idx0 := Prep.idx0 p;
         C_params := fit_params st |})%py.

(** The loop and what follows it. *)
Definition fit : list event * outcome (option Bundle) :=
  let run := iterate 4 (Prep.idx0 p) in
  (fst run,
   (r <- snd run ;;
    match r with
    | None => Ok None
    | Some st => (b <- export st ;; Ok (Some b))
    end)%py).

End Loop.

(** In the words of the specification: a direct (non-iterative) solve of
    the same weighted or robust problem over the base mask [idx0]. *)
Definition direct_solve (p : Prep.t) : list float :=
  let idx0 := Prep.idx0 p in
  if robust then
    RLM (sm E) (mask_select idx0 (Prep.zero p)) (mask_select idx0 (Prep.X p))
  else
    WLS (sm E) (mask_select idx0 (Prep.zero p)) (mask_select idx0 (Prep.X p))
        (mask_select idx0 (Prep.weights p)).

(** The call with its log of iterations. *)
Definition run : list event * outcome (option Bundle) :=
  match prepare with
  | Raise e => ([], Raise e)
  | Ok p => fit p
  end.

(** The active masks at the start of the iterations of the call, in order. *)
Definition iteration_masks : list (list bool) := starts_of (fst run).

(** The regressions of the call, in order. *)
Definition regressions : list (list bool * list float) := fits_of (fst run).

(** [match(...)]: [Ok None] is the failure result, [Ok (Some b)] the bundle. *)
Definition match_ : outcome (option Bundle) := snd run.

End Body.
End MatchFn.

(** ** get_objects_sep, read with the arrays in a store

    The caller's [image] and [mask] are objects of a store, and so is every
    array that the function writes in place: [idx] ([idx &= ...]), [mag] and
    [magerr] ([mag[flux>0] = ...]) and [flag] ([flag |= ...]).  The other
    arrays are never written after their creation and stay values.  The
    store also holds the one global that the function sets, the pixel stack
    of the [sep] engine. *)

Inductive ndarray : Type :=
| NdF2 (a : farray2)
| NdB2 (a : barray2)
| NdF1 (a : list float)
| NdB1 (a : list bool)
| NdI1 (a : list Z).

(** [pixstack] is the engine's global set by [sep.set_extract_pixstack];
    addresses below [next] are the allocated objects. *)
Record world : Type := {
  pixstack : Z;
  next : nat;
  heap : nat -> option ndarray
}.

Definition St (A : Type) : Type := world -> outcome A * world.

Definition ret {A : Type} (v : A) : St A := fun w => (Ok v, w).

Definition bindS {A B : Type} (c : St A) (k : A -> St B) : St B :=
  fun w => match c w with
           | (Ok v, w') => k v w'
           | (Raise e, w') => (Raise e, w')
           end.

Declare Scope st_scope.
Delimit Scope st_scope with st.
Notation "x <- c ;; k" := (bindS c (fun x => k))
  (at level 61, c at next level, right associativity) : st_scope.
Notation "c ;;; k" := (bindS c (fun _ => k))
  (at level 61, right associativity) : st_scope.

Definition lift {A : Type} (c : outcome A) : St A := fun w => (c, w).

(** A new array object. *)
Definition alloc (v : ndarray) : St nat :=
  fun w => (Ok (next w),
            {| pixstack := pixstack w; next := Datatypes.S (next w);
               heap := fun l => if Nat.eqb l (next w) then Some v else heap w l |}).

Definition load (l : nat) : St ndarray :=
  fun w => match heap w l with
           | Some v => (Ok v, w)
           | None => (Raise TypeError, w)
           end.

(** Overwriting the contents of the object at [l]. *)
Definition store (l : nat) (v : ndarray) : St unit :=
  fun w => (Ok tt,
            {| pixstack := pixstack w; next := next w;
               heap := fun l' => if Nat.eqb l' l then Some v else heap w l' |}).

(** [sep.set_extract_pixstack(n)]. *)
Definition set_extract_pixstack (n : Z) : St unit :=
  fun w => (Ok tt, {| pixstack := n; next := next w; heap := heap w |}).

Definition load_F2 (l : nat) : St farray2 :=
  (v <- load l ;; match v with NdF2 a => ret a | _ => lift (Raise TypeError) end)%st.
Definition load_B2 (l : nat) : St barray2 :=
  (v <- load l ;; match v with NdB2 a => ret a | _ => lift (Raise TypeError) end)%st.
Definition load_F1 (l : nat) : St (list float) :=
  (v <- load l ;; match v with NdF1 a => ret a | _ => lift (Raise TypeError) end)%st.
Definition load_B1 (l : nat) : St (list bool) :=
  (v <- load l ;; match v with NdB1 a => ret a | _ => lift (Raise TypeError) end)%st.
Definition load_I1 (l : nat) : St (list Z) :=
  (v <- load l ;; match v with NdI1 a => ret a | _ => lift (Raise TypeError) end)%st.

(** [a &= m] on a boolean array object. *)
Definition iand (l : nat) (m : list bool) : St unit :=
  (cur <- load_B1 l ;; store l (NdB1 (map2 andb cur m)))%st.

(** [a |= f] on an integer array object. *)
Definition ior (l : nat) (f : list Z) : St unit :=
  (cur <- load_I1 l ;; store l (NdI1 (map2 Z.lor cur f)))%st.

(** [a[m] = vals] on a float array object. *)
Definition setitem (l : nat) (m : list bool) (vals : list float) : St unit :=
  (cur <- load_F1 l ;; store l (NdF1 (mask_assign m cur vals)))%st.

(** The world [w'] differs from [w] only above [n]: it has the objects
    below [n] with the contents they have in [w]. *)
Definition extends (n : nat) (w w' : world) : Prop :=
  n <= next w' /\ forall l, l < n -> heap w' l = heap w l.

(** The optional [mask] argument as stored: no reference for [None],
    otherwise the boolean image at the reference. *)
Definition mask_at (w : world) (mask_ref : option nat) (mask : option barray2) : Prop :=
  match mask_ref with
  | Some l => exists m, heap w l = Some (NdB2 m) /\ mask = Some m
  | None => mask = None
  end.

Module GetObjectsSepStore.
Section Body.
Variable E : Env.
(** The arguments other than [image] and [mask], which are references. *)
Variable kwargs_ : SepArgs.t.
Variable image_ref : nat.
Variable mask_ref : option nat.

Local Abbreviation S := (sep E).
Local Abbreviation L := (libm E).

(** The argument record with the arrays read from the store. *)
Definition with_arrays (image : farray2) (mask : option barray2) : SepArgs.t :=
  {| SepArgs.image := image; SepArgs.header := SepArgs.header kwargs_;
     SepArgs.mask := mask; SepArgs.thresh := SepArgs.thresh kwargs_;
     SepArgs.aper := SepArgs.aper kwargs_; SepArgs.bkgann := SepArgs.bkgann kwargs_;
     SepArgs.r0 := SepArgs.r0 kwargs_; SepArgs.gain := SepArgs.gain kwargs_;
     SepArgs.edge := SepArgs.edge kwargs_;
     SepArgs.minnthresh := SepArgs.minnthresh kwargs_;
     SepArgs.minarea := SepArgs.minarea kwargs_;
     SepArgs.relfluxradius := SepArgs.relfluxradius kwargs_;
     SepArgs.wcs := SepArgs.wcs kwargs_; SepArgs.use_fwhm := SepArgs.use_fwhm kwargs_;
     SepArgs.use_mask_large := SepArgs.use_mask_large kwargs_;
     SepArgs.subtract_bg := SepArgs.subtract_bg kwargs_;
     SepArgs.npix_large := SepArgs.npix_large kwargs_;
     SepArgs.sn := SepArgs.sn kwargs_; SepArgs.kw := SepArgs.kw kwargs_ |}.

(** Lines 100-156, after the extraction: [args] carries the arrays read
    from the store; the values computed by lines 40-97, which are written
    nowhere, are those of [GetObjectsSep]. *)
Definition measure (args : SepArgs.t) : St Tbl.t :=
  let obj0 := GetObjectsSep.obj0 E args in
  let aper := GetObjectsSep.aper1 E args in
  let image1 := GetObjectsSep.image1 E args in
  let bg := GetObjectsSep.bg E args in
  let mask := GetObjectsSep.mask1 args in
  let mask_all := GetObjectsSep.mask_all E args in
  let xwin := GetObjectsSep.xwin E args in
  let ywin := GetObjectsSep.ywin E args in
  (idx_ref <- alloc (NdB1 (GetObjectsSep.idx_edge E args)) ;;
   (if negb (Z.eqb (SepArgs.minnthresh args) 0)
    then iand idx_ref (map (fun o => (SepArgs.minnthresh args <=? o_tnpix o)%Z) obj0)
    else ret tt) ;;;
   idx <- load_B1 idx_ref ;;
   let positions := combine (mask_select idx xwin) (mask_select idx ywin) in
   let phot :=
     map (fun '(px, py) =>
            sum_circle S image1 px py aper (rms bg) (SepArgs.gain args) mask_all
                       (SepArgs.bkgann args)) positions in
   let flux := map (fun p => fst (fst p)) phot in
   let fluxerr := map (fun p => snd (fst p)) phot in
   flag_ref <- alloc (NdI1 (map snd phot)) ;;
   let bgflux :=
     map (fun '(px, py) =>
            fst (fst (sum_circle S (back bg) px py aper (rms bg) (SepArgs.gain args)
                                 mask_all None))) positions in
   let bgnorm := map (fun f => (f / np_pi / pow L aper 2)%float) bgflux in
   mag_ref <- alloc (NdF1 (zeros_like flux)) ;;
   magerr_ref <- alloc (NdF1 (zeros_like flux)) ;;
   let positive := map (fun f => (0 <? f)%float) flux in
   setitem mag_ref positive
     (map (fun f => (-2.5 * log10 L f)%float) (mask_select positive flux)) ;;;
   setitem magerr_ref positive
     (map2 (fun fe f => (2.5 / log L 10 * fe / f)%float)
           (mask_select positive fluxerr) (mask_select positive flux)) ;;;
   let fwhm :=
     map2 (fun '(px, py) r =>
             (2 * fst (flux_radius S image1 px py r 0.5 mask))%float)
          positions
          (map (fun one => (SepArgs.relfluxradius args * aper * one)%float)
               (ones_like (mask_select idx xwin))) in
   ior flag_ref (mask_select idx (map o_flag obj0)) ;;;
   magerr <- load_F1 magerr_ref ;;
   lim <- lift (py_inv (SepArgs.sn args)) ;;
   let fidx := map2 andb positive (map (fun me => (me <? lim)%float) magerr) in
   let radec :=
     match GetObjectsSep.wcs1 E args with
     | Some w => map2 (fun ox oy => w ox oy 0%Z)
                      (mask_select idx (map o_x obj0)) (mask_select idx (map o_y obj0))
     | None => combine (zeros_like (mask_select idx (map o_x obj0)))
                       (zeros_like (mask_select idx (map o_y obj0)))
     end in
   mag <- load_F1 mag_ref ;;
   flag <- load_I1 flag_ref ;;
   let rows :=
     Tbl.of_columns
       (mask_select fidx (mask_select idx xwin)) (mask_select fidx (mask_select idx ywin))
       (map sqrt (mask_select fidx (mask_select idx (map o_errx2 obj0))))
       (map sqrt (mask_select fidx (mask_select idx (map o_erry2 obj0))))
       (mask_select fidx flux) (mask_select fidx fluxerr)
       (mask_select fidx mag) (mask_select fidx magerr)
       (map2 Z.lor (mask_select fidx (mask_select idx (map o_flag obj0)))
                   (mask_select fidx flag))
       (mask_select fidx (map fst radec)) (mask_select fidx (map snd radec))
       (mask_select fidx bgnorm) (mask_select fidx fwhm)
       (mask_select fidx (mask_select idx (map o_a obj0)))
       (mask_select fidx (mask_select idx (map o_b obj0)))
       (mask_select fidx (mask_select idx (map o_theta obj0))) in
   ret {| Tbl.rows := Tbl.sort_flux_reverse rows;
          Tbl.meta_aper := aper;
          Tbl.meta_bkgann := SepArgs.bkgann args;
          Tbl.extra_columns := [] |})%st.

(** The function once its two array arguments are read: line 63, then
    the measurement. *)
Definition body (image : farray2) (mask : option barray2) : St Tbl.t :=
  let args := with_arrays image mask in
  (set_extract_pixstack (GetObjectsSep.pixstack_arg args) ;;;
   measure args)%st.

Definition get_objects_sep : St Tbl.t :=
  (image <- load_F2 image_ref ;;
   mask <- match mask_ref with
           | Some l => (m <- load_B2 l ;; ret (Some m))
           | None => ret None
           end ;;
   body image mask)%st.

End Body.
End GetObjectsSepStore.
(** ** The filters of get_objects_sep, object by object

    What lines 100-103 compute for one object of [obj0]: the edge filter
    and, when [minnthresh] is truthy, the filter on [tnpix]. *)

Module SepFilter.
Section Body.
Variable E : Env.
Variable args : SepArgs.t.

Local Abbreviation L := (libm E).
Local Abbreviation edge := (SepArgs.edge args).
Local Abbreviation minnthresh := (SepArgs.minnthresh args).

(** [(np.round(x) > edge) & (np.round(y) > edge)
     & (np.round(x) < image.shape[1]-edge) & (np.round(y) < image.shape[0]-edge)]
    at the position [(px, py)]. *)
Definition inside (px py : float) : bool :=
  (Z2F edge <? round L px)%float && (Z2F edge <? round L py)%float
  && (round L px <? Z2F (GetObjectsSep.shape1 args - edge))%float
  && (round L py <? Z2F (GetObjectsSep.shape0 args - edge))%float.

(** The entry of [idx] for the object [o]. *)
Definition selected (o : SepObject) : bool :=
  if negb (Z.eqb minnthresh 0)
  then inside (o_x o) (o_y o) && (minnthresh <=? o_tnpix o)%Z
  else inside (o_x o) (o_y o).

End Body.
End SepFilter.

(** ** The search for the SExtractor binary, in its two lists *)

Definition sex_dirs : list string :=
  ["."; "/usr/bin"; "/usr/local/bin"; "/opt/local/bin"]%string.

Definition sex_exes : list string :=
  ["sex"; "sextractor"; "source-extractor"]%string.

(** An integer of at most [bits] bits: with 53 bits it is a binary64
    exactly, with 24 bits a binary32 as well, so that a comparison of a
    float with it does not depend on how the integer is converted. *)
Definition exact_in (bits : Z) (z : Z) : Prop := (Z.abs z <= 2 ^ bits)%Z.

(** ** A recorded run, for the concrete instances of the theorems

    A 12 x 12 frame of level 100 with one large object at pixel (0, 0) and
    five small ones.  The collaborators are tabulated on this frame: their
    answers are listed, not computed, except for the box dilation, the flag
    of the masked pixels under an aperture, the weighted mean and the
    arithmetic of [Libm] that primitive floats can do. *)

Module Demo.

Definition fsum (l : list float) : float := fold_left PrimFloat.add l 0%float.

Definition pow_mul (v : float) (n : Z) : float :=
  Z.iter n (fun acc => (acc * v)%float) 1%float.

Definition math : Libm :=
  {| log10 := fun v => if (v =? 100)%float then 2%float
                       else if (v =? 10)%float then 1%float else 0%float;
     log := fun v => if (v =? 10)%float then 0x1.26bb1bbb55516p+1%float
                     else if (v =? 2)%float then 0x1.62e42fefa39efp-1%float
                     else 0%float;
     exp := fun v => 1%float;
     hypot := fun u v => sqrt (u * u + v * v)%float;
     pow := pow_mul;
     round := fun v => v;
     floor := fun _ => 0%Z;
     ceil := fun _ => 0%Z;
     median := fun l => hd nan l;
     mean := fun l => (fsum l / Z2F (Z.of_nat (length l)))%float;
     total := fun a => fsum (map fsum a) |}.

Definition frame : farray2 := repeat (repeat 100%float 12) 12.

Definition source (px py : float) (npix : Z) : SepObject :=
  {| o_x := px; o_y := py; o_a := 1; o_b := 1; o_theta := 0;
     o_errx2 := 0.25; o_erry2 := 0.25; o_flag := 0; o_npix := npix;
     o_tnpix := npix |}.

(** The detections on the frame: (column, row) of the centre pixel and the
    object; the large one comes first, so its segmentation label is 1. *)
Definition candidates : list (nat * nat * SepObject) :=
  [(0, 0, source 0 0 200); (7, 7, source 7 7 12); (9, 3, source 9 3 12);
   (3, 9, source 3 9 12); (10, 10, source 10 10 6); (8, 10, source 8 10 6)].

Definition segmentation : iarray2 :=
  map (fun i => map (fun j => if Nat.eqb i 0 && Nat.eqb j 0 then 1%Z else 0%Z)
                    (seq 0 12)) (seq 0 12).

(** Aperture sums at the centres of the candidates, before the flag of
    the masked pixels. *)
Definition apertures (px py : float) : float * float * Z :=
  if (px =? 0)%float then (1000%float, 10%float, 0%Z)
  else if (px =? 7)%float then (60%float, 3%float, 0%Z)
  else if (px =? 9)%float then (50%float, 2%float, 0%Z)
  else if (px =? 3)%float then (80%float, 4%float, 0%Z)
  else if (px =? 10)%float then (5%float, 4%float, 0%Z)
  else ((-3)%float, 1%float, 0%Z).

Definition engine : Sep :=
  {| Background := fun img _ _ _ _ =>
       {| back := map (map (fun _ => 100%float)) img;
          rms := map (map (fun _ => 1%float)) img |};
     extract := fun _ _ _ _ m _ _ =>
       (map snd (filter (fun c => negb (nth (fst (fst c)) (nth (snd (fst c)) m []) false))
                        candidates),
        segmentation);
     flux_radius := fun _ _ _ _ _ _ => (1.5%float, 0%Z);
     sum_circle := fun _ px py r _ _ m _ =>
       let '(f, fe, fl) := apertures px py in
       (f, fe, if aperture_overlaps m px py r then Z.lor fl APER_HASMASKED else fl) |}.

(** Dilation by a box: a pixel is set when the box anchored at its centre
    covers a set pixel (the anchor of an [h x w] box is [(h/2, w/2)]). *)
Definition box_dilate (m : barray2) (k : farray2) : barray2 :=
  let h := length k in
  let w := length (hd [] k) in
  map (fun i =>
         map (fun j =>
                existsb (fun di =>
                  existsb (fun dj =>
                    Nat.leb (h / 2) (i + di) && Nat.leb (w / 2) (j + dj)
                    && nth (j + dj - w / 2) (nth (i + di - h / 2) m []) false)
                  (seq 0 w))
                (seq 0 h))
             (seq 0 (length (hd [] m))))
      (seq 0 (length m)).

(** The weighted least-squares fit of a constant, the weighted mean: the
    solution when the design matrix is the single column of ones.  With
    more columns the other coefficients are left at 0. *)
Definition wls_constant (ys : list float) (X : list (list float)) (w : list float)
  : list float :=
  match hd [] X with
  | [] => []
  | _ :: others =>
      (fsum (map2 PrimFloat.mul w ys) / fsum w)%float :: zeros_like others
  end.

(** The catalogue of the recorded SExtractor run. *)
Definition sexrow (px py f fe me : float) (fl imaflag : Z) : SexRow :=
  {| MAG_APER := 0; MAGERR_APER := me; FLUX_APER := f; FLUXERR_APER := fe;
     X_IMAGE := px; Y_IMAGE := py; ERRX2_IMAGE := 0.25; ERRY2_IMAGE := 0.25;
     A_IMAGE := 1; B_IMAGE := 1; THETA_IMAGE := 0; FLUX_RADIUS := 1.5;
     FWHM_IMAGE := 3; FLAGS := fl; IMAFLAGS_ISO := imaflag; BACKGROUND := 100;
     EXTRA := fun _ => 0%float |}.

Definition catalog : list SexRow :=
  [sexrow 8 8 60 3 0.0625 0 0; sexrow 10 4 50 2 0.03125 0 1;
   sexrow 4 10 80 4 0.0625 2 0; sexrow 11 11 5 4 0.75 0 0;
   sexrow 9 11 (-3) 1 0.25 0 0].

Definition env : Env :=
  {| libm := math;
     sep := engine;
     photutils := {| Background2D := fun img _ _ _ =>
                       {| back := map (map (fun _ => 100%float)) img;
                          rms := map (map (fun _ => 1%float)) img |} |};
     morph := {| dilate := box_dilate |};
     astropy := {| WCS := fun _ px py _ => (px, py) |};
     htm := {| htm_match := fun ra _ ra' _ _ =>
                 map (fun i => (i, i, 0%float))
                     (seq 0 (Nat.min (length ra) (length ra'))) |};
     sm := {| RLM := fun ys X => wls_constant ys X (ones_like ys);
              WLS := wls_constant |};
     os := {| isfile := fun p => String.eqb p "/usr/bin/sex";
              os_system := fun _ => 0%Z;
              getdata_catalog := fun _ => catalog;
              getdata_checkimage := fun r _ => run_image r |} |}.

(** [get_objects_sep(frame, use_mask_large=True, r0=0)]. *)
Definition sep_args : SepArgs.t :=
  {| SepArgs.image := frame; SepArgs.header := None; SepArgs.mask := None;
     SepArgs.thresh := 4; SepArgs.aper := 3; SepArgs.bkgann := None;
     SepArgs.r0 := 0; SepArgs.gain := 1; SepArgs.edge := 0;
     SepArgs.minnthresh := 2; SepArgs.minarea := 5;
     SepArgs.relfluxradius := 2; SepArgs.wcs := None;
     SepArgs.use_fwhm := false; SepArgs.use_mask_large := true;
     SepArgs.subtract_bg := true; SepArgs.npix_large := 100;
     SepArgs.sn := 10; SepArgs.kw := [] |}.

(** [get_objects_sextractor(frame, r0=0)]. *)
Definition sex_args : SexArgs.t :=
  {| SexArgs.image := frame; SexArgs.header := None; SexArgs.mask := None;
     SexArgs.thresh := 2; SexArgs.aper := 3; SexArgs.r0 := 0;
     SexArgs.bkgann := None; SexArgs.gain := 1; SexArgs.edge := 0;
     SexArgs.minarea := 5; SexArgs.wcs := None; SexArgs.sn := 3;
     SexArgs.checkimages := []; SexArgs.extra_params := [];
     SexArgs.extra_opts := [] |}.

(** The tables of the two recorded runs. *)
Definition no_table : Tbl.t :=
  {| Tbl.rows := []; Tbl.meta_aper := 0; Tbl.meta_bkgann := None;
     Tbl.extra_columns := [] |}.

Definition sep_table : Tbl.t :=
  Eval vm_compute in
    match GetObjectsSep.get_objects_sep env sep_args with
    | Ok t => t
    | Raise _ => no_table
    end.

Definition sex_table : Tbl.t :=
  Eval vm_compute in
    match GetObjectsSextractor.get_objects_sextractor env sex_args with
    | Ok (SexObj (Some t)) => t
    | _ => no_table
    end.

(** A store in which the frame is the only object, at address 0, and the
    engine's pixel stack has its initial value. *)
Definition world0 : world :=
  {| pixstack := 300000; next := 1;
     heap := fun l => if Nat.eqb l 0 then Some (NdF2 frame) else None |}.

(** [match(...)] on eight stars matched one to one: catalogue minus
    instrumental magnitude is 0 for six of them, -4 for the seventh and 20
    for the eighth; all errors are 1; weighted fit of a constant
    ([robust=False], [spatial_order=0]) with [threshold=5]. *)
Definition match_args : MatchArgs.t :=
  {| MatchArgs.obj_ra := repeat 0%float 8; MatchArgs.obj_dec := repeat 0%float 8;
     MatchArgs.obj_mag := repeat 0%float 8;
     MatchArgs.obj_magerr := repeat 1%float 8;
     MatchArgs.obj_flags := repeat 0%Z 8;
     MatchArgs.cat_ra := repeat 0%float 8; MatchArgs.cat_dec := repeat 0%float 8;
     MatchArgs.cat_mag := map Some [0; 0; 0; 0; 0; 0; -4; 20]%float;
     MatchArgs.cat_magerr := None; MatchArgs.cat_color := None;
     MatchArgs.sr := (3 / 3600)%float;
     MatchArgs.obj_x := None; MatchArgs.obj_y := None;
     MatchArgs.spatial_order := 0; MatchArgs.threshold := 5;
     MatchArgs.robust := false |}.

(** The same call with [threshold=0]. *)
Definition match_args_once : MatchArgs.t :=
  {| MatchArgs.obj_ra := repeat 0%float 8; MatchArgs.obj_dec := repeat 0%float 8;
     MatchArgs.obj_mag := repeat 0%float 8;
     MatchArgs.obj_magerr := repeat 1%float 8;
     MatchArgs.obj_flags := repeat 0%Z 8;
     MatchArgs.cat_ra := repeat 0%float 8; MatchArgs.cat_dec := repeat 0%float 8;
     MatchArgs.cat_mag := map Some [0; 0; 0; 0; 0; 0; -4; 20]%float;
     MatchArgs.cat_magerr := None; MatchArgs.cat_color := None;
     MatchArgs.sr := (3 / 3600)%float;
     MatchArgs.obj_x := None; MatchArgs.obj_y := None;
     MatchArgs.spatial_order := 0; MatchArgs.threshold := 0;
     MatchArgs.robust := false |}.




End Demo.

(** * Proofs *)

(** ** IEEE facts about the primitive floats *)

Module FloatFacts.

Lemma prim_one : Prim2SF 1%float = S754_finite false 4503599627370496 (-52).
Proof. reflexivity. Qed.

Lemma prim_zero : Prim2SF 0%float = S754_zero false.
Proof. reflexivity. Qed.

Lemma digits2_shift52 (m : positive) :
  digits2_pos (4503599627370496 * m) = (digits2_pos m + 52)%positive.
Proof. cbn [Pos.mul digits2_pos]. lia. Qed.

Lemma shr_exact52 (m : positive) :
  SpecFloat.iter_pos shr_1 52%positive
    (Build_shr_record (Zpos (4503599627370496 * m)) false false)
  = Build_shr_record (Zpos m) false false.
Proof. reflexivity. Qed.

(** Multiplying by 1.0 rounds back to the same binary64 value. *)
Lemma SF64mul_one_l (s : spec_float) :
  valid_binary s = true -> SF64mul (Prim2SF 1%float) s = s.
Proof.
  rewrite prim_one. destruct s as [sg|sg| |sg m e]; try reflexivity.
  unfold SpecFloat.valid_binary, bounded, canonical_mantissa.
  intros Hv. apply andb_prop in Hv as [Hc Hb].
  apply Z.eqb_eq in Hc.
  unfold SF64mul, SFmul, binary_round_aux.
  unfold shr_fexp at 1. cbn [shr_record_of_loc Zdigits2].
  rewrite digits2_shift52.
  replace (fexp prec emax (Z.pos (digits2_pos m + 52) + (-52 + e)) - (-52 + e))%Z
    with 52%Z.
  2:{ rewrite Pos2Z.inj_add.
      replace (Z.pos (digits2_pos m) + 52 + (-52 + e))%Z
        with (Z.pos (digits2_pos m) + e)%Z by lia.
      lia. }
  cbn [shr]. rewrite shr_exact52.
  cbn [shr_m loc_of_shr_record round_nearest_even].
  unfold shr_fexp. cbn [shr_record_of_loc Zdigits2].
  replace (-52 + e + 52)%Z with e by lia.
  rewrite Hc, Z.sub_diag. cbn [shr shr_m].
  rewrite Hb. reflexivity.
Qed.

Lemma mul_one_l (p : float) : (1 * p)%float = p.
Proof.
  apply Prim2SF_inj. rewrite mul_spec. apply SF64mul_one_l, Prim2SF_valid.
Qed.

(** A float above zero is a positive finite number or plus infinity. *)
Lemma SF_pos_shape (s : spec_float) :
  SFltb (S754_zero false) s = true ->
  s = S754_infinity false \/ exists m e, s = S754_finite false m e.
Proof.
  destruct s as [sg|sg| |sg m e]; cbn; try discriminate.
  - destruct sg; [discriminate|]. now left.
  - destruct sg; [discriminate|]. right. now exists m, e.
Qed.

Lemma SFleb_total_pos (s t : spec_float) :
  SFltb (S754_zero false) s = true -> SFltb (S754_zero false) t = true ->
  SFleb s t = false -> SFleb t s = true.
Proof.
  intros Hs Ht.
  destruct (SF_pos_shape s Hs) as [->|(m & e & ->)];
    destruct (SF_pos_shape t Ht) as [->|(m' & e' & ->)]; cbn; try easy.
  rewrite (Z.compare_antisym e e').
  destruct (e ?= e')%Z eqn:E; cbn; try easy.
  change (PosDef.Pos.compare_cont Eq m m') with (Pos.compare m m').
  change (PosDef.Pos.compare_cont Eq m' m) with (Pos.compare m' m).
  rewrite (Pos.compare_antisym m m').
  destruct (Pos.compare m m'); cbn; easy.
Qed.

(** On floats above zero [<=?] is total. *)
Lemma leb_total_pos (u v : float) :
  (0 <? u)%float = true -> (0 <? v)%float = true ->
  (u <=? v)%float = false -> (v <=? u)%float = true.
Proof.
  rewrite !ltb_spec, !leb_spec, prim_zero. apply SFleb_total_pos.
Qed.

End FloatFacts.

(** ** Lists as NumPy arrays *)

Module ArrayFacts.

Lemma map2_map {A B C D : Type} (f : B -> C -> D) (g : A -> B) (h : A -> C) l :
  map2 f (map g l) (map h l) = map (fun v => f (g v) (h v)) l.
Proof. induction l as [|v l IH]; cbn; [reflexivity|]. now rewrite IH. Qed.

Lemma combine_map {A B C : Type} (g : A -> B) (h : A -> C) l :
  combine (map g l) (map h l) = map (fun v => (g v, h v)) l.
Proof. induction l as [|v l IH]; cbn; [reflexivity|]. now rewrite IH. Qed.

Lemma mask_select_map {A B : Type} (h : A -> B) m l :
  mask_select m (map h l) = map h (mask_select m l).
Proof.
  revert m. induction l as [|v l IH]; intros [|[] m]; cbn; try reflexivity.
  - now rewrite IH.
  - apply IH.
Qed.

(** A mask computed from the array it selects is a filter. *)
Lemma mask_select_filter {A : Type} (k : A -> bool) l :
  mask_select (map k l) l = filter k l.
Proof.
  induction l as [|v l IH]; cbn; [reflexivity|].
  destruct (k v); now rewrite IH.
Qed.

Lemma mask_select_map_filter {A B : Type} (k : A -> bool) (h : A -> B) l :
  mask_select (map k l) (map h l) = map h (filter k l).
Proof. now rewrite mask_select_map, mask_select_filter. Qed.

Lemma mask_select_length_le {A : Type} m (l : list A) :
  length (mask_select m l) <= length l.
Proof.
  revert m. induction l as [|v l IH]; intros [|[] m]; cbn; try lia.
  - specialize (IH m). lia.
  - specialize (IH m). lia.
Qed.

(** [a[m] = f(src[m])] on [a = z(src)], with [m = p(src)]. *)
Lemma mask_assign_map {A B : Type} (p : A -> bool) (z f : A -> B) l :
  mask_assign (map p l) (map z l) (map f (mask_select (map p l) l))
  = map (fun v => if p v then f v else z v) l.
Proof.
  induction l as [|v l IH]; cbn; [reflexivity|].
  destruct (p v); cbn; now rewrite IH.
Qed.

Lemma map_nth_seq {A B : Type} (g : A -> B) (d : A) l :
  map (fun i => g (nth i l d)) (seq 0 (length l)) = map g l.
Proof.
  induction l as [|v l IH]; cbn; [reflexivity|].
  f_equal. rewrite <- seq_shift, map_map. exact IH.
Qed.

Lemma map_seq_ext {A B : Type} (F : list A) (g : A -> B) (k : nat -> B) :
  (forall i d, i < length F -> k i = g (nth i F d)) ->
  map k (seq 0 (length F)) = map g F.
Proof.
  intros H. destruct F as [|v0 F']; [reflexivity|].
  rewrite <- (map_nth_seq g v0 (v0 :: F')).
  apply map_ext_in. intros i Hi. apply in_seq in Hi. apply H. lia.
Qed.

Lemma nth_map_in {A B : Type} (h : A -> B) l i (d : B) (d' : A) :
  i < length l -> nth i (map h l) d = h (nth i l d').
Proof.
  intros Hi. rewrite (nth_indep _ d (h d')) by now rewrite length_map.
  apply map_nth.
Qed.

Lemma count_true_le (m : list bool) : count_true m <= length m.
Proof. unfold count_true. apply filter_length_le. Qed.

End ArrayFacts.

(** ** The measurement table *)

Module TblFacts.

(** A table built from columns that are all computed from one list has the
    rows computed from the entries of that list. *)
Lemma of_columns_map {A : Type} (F : list A)
    (hx hy hxerr hyerr hflux hfluxerr hmag hmagerr : A -> float) (hflags : A -> Z)
    (hra hdec hbg hfwhm ha hb htheta : A -> float) :
  Tbl.of_columns (map hx F) (map hy F) (map hxerr F) (map hyerr F)
    (map hflux F) (map hfluxerr F) (map hmag F) (map hmagerr F) (map hflags F)
    (map hra F) (map hdec F) (map hbg F) (map hfwhm F) (map ha F) (map hb F)
    (map htheta F)
  = map (fun v =>
           {| Tbl.x := hx v; Tbl.y := hy v; Tbl.xerr := hxerr v; Tbl.yerr := hyerr v;
              Tbl.flux := hflux v; Tbl.fluxerr := hfluxerr v;
              Tbl.mag := hmag v; Tbl.magerr := hmagerr v; Tbl.flags := hflags v;
              Tbl.ra := hra v; Tbl.dec := hdec v; Tbl.bg := hbg v;
              Tbl.fwhm := hfwhm v; Tbl.a := ha v; Tbl.b := hb v;
              Tbl.theta := htheta v |}) F.
Proof.
  unfold Tbl.of_columns. rewrite length_map.
  apply ArrayFacts.map_seq_ext. intros i d Hi.
  now rewrite !(ArrayFacts.nth_map_in _ F i _ d) by exact Hi.
Qed.

Lemma insert_asc_In r r' l : In r (Tbl.insert_asc r' l) <-> r = r' \/ In r l.
Proof.
  induction l as [|h l IH]; cbn.
  - intuition congruence.
  - destruct (Tbl.flux r' <=? Tbl.flux h)%float; cbn; rewrite ?IH; intuition congruence.
Qed.

Lemma argsort_asc_In r l : In r (Tbl.argsort_asc l) <-> In r l.
Proof.
  induction l as [|h l IH]; cbn; [tauto|].
  rewrite insert_asc_In, IH. intuition congruence.
Qed.

(** Sorting keeps exactly the rows of the table. *)
Lemma sort_flux_reverse_In r l : In r (Tbl.sort_flux_reverse l) <-> In r l.
Proof.
  unfold Tbl.sort_flux_reverse. rewrite <- in_rev. apply argsort_asc_In.
Qed.

Lemma insert_asc_sorted r l :
  Tbl.flux_positive r -> Forall Tbl.flux_positive l ->
  Sorted Tbl.asc l -> Sorted Tbl.asc (Tbl.insert_asc r l).
Proof.
  intros Hr Hl Hs. induction Hs as [|h l Hs IH Hh]; cbn.
  - repeat constructor.
  - destruct (Tbl.flux r <=? Tbl.flux h)%float eqn:E.
    + constructor; [now constructor|]. constructor. exact E.
    + apply Forall_cons_iff in Hl as [Hph Hpl].
      constructor; [now apply IH|].
      assert (Hhr : Tbl.asc h r).
      { apply FloatFacts.leb_total_pos; assumption. }
      destruct l as [|h' l]; cbn.
      * constructor. exact Hhr.
      * destruct (Tbl.flux r <=? Tbl.flux h')%float; constructor;
          [exact Hhr | now inversion Hh].
Qed.

Lemma argsort_asc_sorted l :
  Forall Tbl.flux_positive l -> Sorted Tbl.asc (Tbl.argsort_asc l).
Proof.
  induction l as [|h l IH]; intros Hl; [constructor|].
  change (Tbl.argsort_asc (h :: l)) with (Tbl.insert_asc h (Tbl.argsort_asc l)).
  apply Forall_cons_iff in Hl as [Hh Hl].
  apply insert_asc_sorted; auto.
  apply Forall_forall. intros r Hr. apply (proj1 (argsort_asc_In r l)) in Hr.
  rewrite Forall_forall in Hl. now apply Hl.
Qed.

Lemma Sorted_snoc {A : Type} (R : A -> A -> Prop) l v :
  Sorted R l -> (forall u, last l v = u -> l <> [] -> R u v) -> Sorted R (l ++ [v]).
Proof.
  induction 1 as [|h l Hs IH Hh]; intros Hlast; cbn.
  - repeat constructor.
  - constructor.
    + apply IH. intros u Hu Hne. apply Hlast; [|discriminate].
      destruct l; [contradiction|]. exact Hu.
    + destruct l as [|h' l]; cbn.
      * constructor. apply Hlast; [reflexivity|discriminate].
      * constructor. now inversion Hh.
Qed.

Lemma Sorted_rev {A : Type} (R : A -> A -> Prop) l :
  Sorted R l -> Sorted (fun u v => R v u) (rev l).
Proof.
  induction 1 as [|h l Hs IH Hh]; cbn; [constructor|].
  apply Sorted_snoc; [exact IH|].
  intros u Hu Hne.
  destruct l as [|h' l]; [now contradiction Hne|].
  cbn [rev] in Hu. rewrite last_last in Hu. subst u.
  now inversion Hh.
Qed.

(** The sorted table is in non-increasing order of flux, provided every
    flux is above zero. *)
Lemma sort_flux_reverse_sorted l :
  Forall Tbl.flux_positive l -> Sorted Tbl.desc (Tbl.sort_flux_reverse l).
Proof.
  intros Hl. unfold Tbl.sort_flux_reverse.
  apply (Sorted_rev Tbl.asc). now apply argsort_asc_sorted.
Qed.

End TblFacts.

(** ** get_objects_sep: the column program computes the rows object by object *)

Module SepFacts.
Section Rows.
Variable E : Env.
Variable args : SepArgs.t.

Local Abbreviation obj0 := (GetObjectsSep.obj0 E args).
Local Abbreviation O := (GetObjectsSep.sel E args (GetObjectsSep.obj0 E args)).

Lemma sel_map {B : Type} (h : SepObject -> B) :
  GetObjectsSep.sel E args (map h obj0) = map h O.
Proof. apply ArrayFacts.mask_select_map. Qed.

Lemma positions_eq :
  GetObjectsSep.positions E args = map (fun o => (o_x o, o_y o)) O.
Proof.
  unfold GetObjectsSep.positions, GetObjectsSep.xwin, GetObjectsSep.ywin.
  rewrite !sel_map. apply ArrayFacts.combine_map.
Qed.

Lemma phot_eq : GetObjectsSep.phot E args = map (GetObjectsSep.phot_of E args) O.
Proof.
  unfold GetObjectsSep.phot. rewrite positions_eq, map_map. reflexivity.
Qed.

Lemma flux_eq : GetObjectsSep.flux E args = map (GetObjectsSep.flux_of E args) O.
Proof. unfold GetObjectsSep.flux. rewrite phot_eq, map_map. reflexivity. Qed.

Lemma fluxerr_eq :
  GetObjectsSep.fluxerr E args = map (GetObjectsSep.fluxerr_of E args) O.
Proof. unfold GetObjectsSep.fluxerr. rewrite phot_eq, map_map. reflexivity. Qed.

Lemma positive_eq :
  GetObjectsSep.positive E args
  = map (fun o => (0 <? GetObjectsSep.flux_of E args o)%float) O.
Proof. unfold GetObjectsSep.positive. rewrite flux_eq, map_map. reflexivity. Qed.

Lemma mag_eq : GetObjectsSep.mag E args = map (GetObjectsSep.mag_of E args) O.
Proof.
  unfold GetObjectsSep.mag, zeros_like.
  rewrite positive_eq, flux_eq, map_map.
  rewrite ArrayFacts.mask_select_map_filter, map_map.
  rewrite <- (ArrayFacts.mask_select_filter _ O).
  rewrite (ArrayFacts.mask_assign_map
             (fun o => (0 <? GetObjectsSep.flux_of E args o)%float)
             (fun _ => 0%float)
             (fun o => (-2.5 * log10 (libm E) (GetObjectsSep.flux_of E args o))%float)).
  reflexivity.
Qed.

Lemma magerr_eq : GetObjectsSep.magerr E args = map (GetObjectsSep.magerr_of E args) O.
Proof.
  unfold GetObjectsSep.magerr, zeros_like.
  rewrite positive_eq, flux_eq, fluxerr_eq, map_map.
  rewrite !ArrayFacts.mask_select_map_filter, ArrayFacts.map2_map.
  rewrite <- (ArrayFacts.mask_select_filter _ O).
  rewrite (ArrayFacts.mask_assign_map
             (fun o => (0 <? GetObjectsSep.flux_of E args o)%float)
             (fun _ => 0%float)
             (fun o => (2.5 / log (libm E) 10 * GetObjectsSep.fluxerr_of E args o
                        / GetObjectsSep.flux_of E args o)%float)).
  reflexivity.
Qed.

Lemma fidx_eq lim :
  GetObjectsSep.fidx E args lim = map (GetObjectsSep.keep E args lim) O.
Proof.
  unfold GetObjectsSep.fidx. rewrite positive_eq, magerr_eq, map_map.
  rewrite ArrayFacts.map2_map. reflexivity.
Qed.

Lemma flag_eq :
  GetObjectsSep.flag E args
  = map (fun o => Z.lor (snd (GetObjectsSep.phot_of E args o)) (o_flag o)) O.
Proof.
  unfold GetObjectsSep.flag, GetObjectsSep.flag0.
  rewrite phot_eq, sel_map, map_map. rewrite ArrayFacts.map2_map. reflexivity.
Qed.

Lemma bgnorm_eq :
  GetObjectsSep.bgnorm E args
  = map (fun o => Tbl.bg (GetObjectsSep.measurement E args o)) O.
Proof.
  unfold GetObjectsSep.bgnorm, GetObjectsSep.bgflux.
  rewrite positions_eq, !map_map. reflexivity.
Qed.

Lemma fwhm_eq :
  GetObjectsSep.fwhm E args
  = map (fun o => Tbl.fwhm (GetObjectsSep.measurement E args o)) O.
Proof.
  unfold GetObjectsSep.fwhm, ones_like, GetObjectsSep.xwin.
  rewrite positions_eq, sel_map, !map_map.
  rewrite ArrayFacts.map2_map. reflexivity.
Qed.

Lemma radec_eq : GetObjectsSep.radec E args = map (GetObjectsSep.radec_of E args) O.
Proof.
  unfold GetObjectsSep.radec, GetObjectsSep.radec_of, zeros_like.
  rewrite !sel_map.
  destruct (GetObjectsSep.wcs1 E args) as [w|].
  - rewrite ArrayFacts.map2_map. reflexivity.
  - rewrite !map_map, ArrayFacts.combine_map. reflexivity.
Qed.

(** The rows of the table are the measurements of the objects that pass
    the filter [idx] and the quality cut, in the order of [obj0]. *)
Lemma table_rows_by_object lim :
  GetObjectsSep.table_rows E args lim
  = map (GetObjectsSep.measurement E args)
        (filter (GetObjectsSep.keep E args lim) O).
Proof.
  unfold GetObjectsSep.table_rows. cbv zeta.
  unfold GetObjectsSep.xwin, GetObjectsSep.ywin.
  rewrite !sel_map, flux_eq, fluxerr_eq, mag_eq, magerr_eq, flag_eq, radec_eq,
    bgnorm_eq, fwhm_eq, fidx_eq, !map_map.
  rewrite !ArrayFacts.mask_select_map_filter, ArrayFacts.map2_map, !map_map.
  rewrite (TblFacts.of_columns_map
             (filter (GetObjectsSep.keep E args lim) O)).
  reflexivity.
Qed.

End Rows.
End SepFacts.

(** ** get_objects_sextractor, catalogue row by catalogue row *)

Module SexFacts.
Section Rows.
Variable E : Env.
Variable args : SexArgs.t.

Lemma idx_eq data lim :
  GetObjectsSextractor.idx args data lim
  = map (GetObjectsSextractor.keep args lim) data.
Proof.
  unfold GetObjectsSextractor.idx. cbv zeta.
  rewrite !ArrayFacts.map2_map. reflexivity.
Qed.

Lemma flags_eq data :
  GetObjectsSextractor.flags data
  = map (fun r => Tbl.flags (GetObjectsSextractor.measurement E args r)) data.
Proof.
  unfold GetObjectsSextractor.flags. cbv zeta.
  rewrite ArrayFacts.mask_select_map_filter, map_map.
  rewrite <- (ArrayFacts.mask_select_filter _ data).
  rewrite (ArrayFacts.mask_assign_map (fun r => (0 <? IMAFLAGS_ISO r)%Z) FLAGS
             (fun r => Z.lor (FLAGS r) 256)).
  reflexivity.
Qed.

Lemma sex_radec_eq data :
  GetObjectsSextractor.radec E args data
  = map (GetObjectsSextractor.radec_of E args) data.
Proof.
  unfold GetObjectsSextractor.radec, GetObjectsSextractor.radec_of, zeros_like.
  destruct (GetObjectsSextractor.wcs1 E args) as [w|].
  - rewrite ArrayFacts.map2_map. reflexivity.
  - rewrite !map_map, ArrayFacts.combine_map. reflexivity.
Qed.

Lemma table_rows_by_row data :
  GetObjectsSextractor.table_rows E args data
  = map (GetObjectsSextractor.measurement E args) data.
Proof.
  unfold GetObjectsSextractor.table_rows.
  rewrite flags_eq, sex_radec_eq, !map_map.
  rewrite (TblFacts.of_columns_map data). reflexivity.
Qed.

End Rows.
End SexFacts.

(** ** The rows that the two extraction functions return *)

Module ExtractFacts.

Lemma In_mask_select {A : Type} (v : A) m l : In v (mask_select m l) -> In v l.
Proof.
  revert m. induction l as [|w l IH]; intros [|[] m]; cbn; try tauto.
  - intros [->|H]; [now left|right; eauto].
  - intros H. right. eauto.
Qed.

Lemma py_inv_Ok sn lim : py_inv sn = Ok lim -> lim = (1 / sn)%float.
Proof. unfold py_inv. destruct (sn =? 0)%float; congruence. Qed.

(** Every row of the table of [get_objects_sep] is the measurement of an
    object of the final extraction that passed the quality cut. *)
Lemma sep_row E a t r :
  GetObjectsSep.get_objects_sep E a = Ok t -> In r (Tbl.rows t) ->
  exists o, In o (GetObjectsSep.obj0 E a)
            /\ GetObjectsSep.keep E a (1 / SepArgs.sn a)%float o = true
            /\ r = GetObjectsSep.measurement E a o.
Proof.
  unfold GetObjectsSep.get_objects_sep, bind.
  destruct (py_inv (SepArgs.sn a)) as [lim|e] eqn:Hlim; [|discriminate].
  apply py_inv_Ok in Hlim. subst lim.
  intros [= <-]. cbn [Tbl.rows]. intros Hr.
  apply -> TblFacts.sort_flux_reverse_In in Hr.
  rewrite SepFacts.table_rows_by_object in Hr.
  apply in_map_iff in Hr as (o & <- & Ho).
  apply filter_In in Ho as [Ho Hk].
  exists o. split; [|split; [exact Hk|reflexivity]].
  revert Ho. apply In_mask_select.
Qed.

Lemma sep_rows_positive E a t :
  GetObjectsSep.get_objects_sep E a = Ok t ->
  exists l, Tbl.rows t = Tbl.sort_flux_reverse l /\ Forall Tbl.flux_positive l.
Proof.
  unfold GetObjectsSep.get_objects_sep, bind.
  destruct (py_inv (SepArgs.sn a)) as [lim|e]; [|discriminate].
  intros [= <-]. cbn [Tbl.rows]. eexists. split; [reflexivity|].
  rewrite SepFacts.table_rows_by_object.
  apply Forall_forall. intros r Hr.
  apply in_map_iff in Hr as (o & <- & Ho).
  apply filter_In in Ho as [_ Hk].
  unfold GetObjectsSep.keep in Hk. apply andb_prop in Hk as [Hk _]. exact Hk.
Qed.

(** Every row of the table of [get_objects_sextractor] is the measurement
    of a catalogue row that passed the cuts. *)
Lemma sex_row E a res t r :
  GetObjectsSextractor.get_objects_sextractor E a = Ok res ->
  sex_table res = Some t -> In r (Tbl.rows t) ->
  exists c, GetObjectsSextractor.keep a (1 / SexArgs.sn a)%float c = true
            /\ r = GetObjectsSextractor.measurement E a c.
Proof.
  unfold GetObjectsSextractor.get_objects_sextractor.
  destruct (GetObjectsSextractor.binname E) as [bin|];
    [|intros [= <-]; discriminate].
  cbv zeta. unfold bind.
  destruct (Z.eqb _ 0).
  - unfold GetObjectsSextractor.read_catalog, bind. cbv zeta.
    destruct (py_inv (SexArgs.sn a)) as [lim|e] eqn:Hlim; [|discriminate].
    apply py_inv_Ok in Hlim. subst lim.
    intros Hres Ht Hr.
    assert (Hrows : Tbl.rows t = Tbl.sort_flux_reverse
              (GetObjectsSextractor.table_rows E a
                 (mask_select
                    (GetObjectsSextractor.idx a
                       (getdata_catalog (os E) (GetObjectsSextractor.run E a bin))
                       (1 / SexArgs.sn a)%float)
                    (getdata_catalog (os E) (GetObjectsSextractor.run E a bin))))).
    { destruct (SexArgs.checkimages a); injection Hres as <-;
        cbn in Ht; injection Ht as <-; reflexivity. }
    rewrite Hrows in Hr. apply -> TblFacts.sort_flux_reverse_In in Hr.
    rewrite SexFacts.table_rows_by_row, SexFacts.idx_eq,
      ArrayFacts.mask_select_filter in Hr.
    apply in_map_iff in Hr as (c & <- & Hc).
    apply filter_In in Hc as [_ Hk]. now exists c.
  - intros Hres Ht. destruct (SexArgs.checkimages a); injection Hres as <-;
      discriminate.
Qed.

Lemma sex_rows_positive E a res t :
  GetObjectsSextractor.get_objects_sextractor E a = Ok res ->
  sex_table res = Some t ->
  exists l, Tbl.rows t = Tbl.sort_flux_reverse l /\ Forall Tbl.flux_positive l.
Proof.
  unfold GetObjectsSextractor.get_objects_sextractor.
  destruct (GetObjectsSextractor.binname E) as [bin|];
    [|intros [= <-]; discriminate].
  cbv zeta. unfold bind.
  destruct (Z.eqb _ 0).
  - unfold GetObjectsSextractor.read_catalog, bind. cbv zeta.
    destruct (py_inv (SexArgs.sn a)) as [lim|e]; [|discriminate].
    intros Hres Ht. eexists. split.
    + destruct (SexArgs.checkimages a); injection Hres as <-;
        cbn in Ht; injection Ht as <-; reflexivity.
    + rewrite SexFacts.table_rows_by_row, SexFacts.idx_eq,
        ArrayFacts.mask_select_filter.
      apply Forall_forall. intros r Hr.
      apply in_map_iff in Hr as (c & <- & Hc).
      apply filter_In in Hc as [_ Hk].
      unfold GetObjectsSextractor.keep in Hk.
      apply andb_prop in Hk as [_ Hk]. exact Hk.
  - intros Hres Ht. destruct (SexArgs.checkimages a); injection Hres as <-;
      discriminate.
Qed.

End ExtractFacts.

(** ** Claims about the extraction *)

(** C1. Every row of the table returned by [get_objects_sep], and every row
    of the table returned by [get_objects_sextractor], has a flux strictly
    above 0 and a magnitude error strictly below [1/sn]: no measurement with
    [flux <= 0] or [magerr >= 1/sn] is returned. *)
Theorem C1_quality_cut (E : Env) :
  (forall (a : SepArgs.t) (t : Tbl.t),
      GetObjectsSep.get_objects_sep E a = Ok t ->
      Forall (Tbl.quality (SepArgs.sn a)) (Tbl.rows t))
  /\ (forall (a : SexArgs.t) (res : sex_result) (t : Tbl.t),
         GetObjectsSextractor.get_objects_sextractor E a = Ok res ->
         sex_table res = Some t ->
         Forall (Tbl.quality (SexArgs.sn a)) (Tbl.rows t)).
Proof.
  split.
  - intros a t Ht. apply Forall_forall. intros r Hr.
    destruct (ExtractFacts.sep_row E a t r Ht Hr) as (o & _ & Hk & ->).
    unfold GetObjectsSep.keep in Hk. apply andb_prop in Hk as [Hf Hm].
    split; assumption.
  - intros a res t Hres Ht. apply Forall_forall. intros r Hr.
    destruct (ExtractFacts.sex_row E a res t r Hres Ht Hr) as (c & Hk & ->).
    unfold GetObjectsSextractor.keep in Hk.
    apply andb_prop in Hk as [Hk Hf]. apply andb_prop in Hk as [_ Hm].
    split; assumption.
Qed.

(** The recorded runs return the recorded tables. *)
Lemma demo_sep_run :
  GetObjectsSep.get_objects_sep Demo.env Demo.sep_args = Ok Demo.sep_table.
Proof. vm_compute. reflexivity. Qed.

Lemma demo_sex_run :
  GetObjectsSextractor.get_objects_sextractor Demo.env Demo.sex_args
  = Ok (SexObj (Some Demo.sex_table)).
Proof. vm_compute. reflexivity. Qed.

(** C1 on the recorded runs: both functions return three rows, all within
    the cut. *)
Lemma C1_quality_cut_witness :
  (GetObjectsSep.get_objects_sep Demo.env Demo.sep_args = Ok Demo.sep_table
   /\ length (Tbl.rows Demo.sep_table) = 3
   /\ Forall (Tbl.quality 10) (Tbl.rows Demo.sep_table))
  /\ (GetObjectsSextractor.get_objects_sextractor Demo.env Demo.sex_args
      = Ok (SexObj (Some Demo.sex_table))
      /\ length (Tbl.rows Demo.sex_table) = 3
      /\ Forall (Tbl.quality 3) (Tbl.rows Demo.sex_table)).
Proof.
  split.
  - split; [exact demo_sep_run|]. split; [reflexivity|].
    exact (proj1 (C1_quality_cut Demo.env) Demo.sep_args _ demo_sep_run).
  - split; [exact demo_sex_run|]. split; [reflexivity|].
    exact (proj2 (C1_quality_cut Demo.env) Demo.sex_args _ _ demo_sex_run eq_refl).
Defined.

(** C6. For every measurement returned by [get_objects_sep] the flux is
    above 0, [mag] is [-2.5*log10(flux)] and [magerr] is
    [2.5/log(10)*fluxerr/flux], as computed in binary64. *)
Theorem C6_flux_magnitude (E : Env) (a : SepArgs.t) (t : Tbl.t) (r : Tbl.row) :
  GetObjectsSep.get_objects_sep E a = Ok t -> In r (Tbl.rows t) ->
  (0 <? Tbl.flux r)%float = true
  /\ Tbl.mag r = (-2.5 * log10 (libm E) (Tbl.flux r))%float
  /\ Tbl.magerr r = (2.5 / log (libm E) 10 * Tbl.fluxerr r / Tbl.flux r)%float.
Proof.
  intros Ht Hr.
  destruct (ExtractFacts.sep_row E a t r Ht Hr) as (o & _ & Hk & ->).
  unfold GetObjectsSep.keep in Hk. apply andb_prop in Hk as [Hf _].
  cbn [GetObjectsSep.measurement Tbl.flux Tbl.mag Tbl.magerr Tbl.fluxerr].
  unfold GetObjectsSep.mag_of, GetObjectsSep.magerr_of. rewrite Hf.
  repeat split.
Qed.

(** C6 on the recorded run: it holds for the three rows returned. *)
Lemma C6_flux_magnitude_witness :
  GetObjectsSep.get_objects_sep Demo.env Demo.sep_args = Ok Demo.sep_table
  /\ map Tbl.flux (Tbl.rows Demo.sep_table) = [80; 60; 50]%float
  /\ Forall (fun r =>
               (0 <? Tbl.flux r)%float = true
               /\ Tbl.mag r = (-2.5 * log10 Demo.math (Tbl.flux r))%float
               /\ Tbl.magerr r
                  = (2.5 / log Demo.math 10 * Tbl.fluxerr r / Tbl.flux r)%float)
            (Tbl.rows Demo.sep_table).
Proof.
  split; [exact demo_sep_run|]. split; [reflexivity|].
  apply Forall_forall. intros r Hr.
  exact (C6_flux_magnitude Demo.env Demo.sep_args _ r demo_sep_run Hr).
Defined.

(** C7. The table returned by [get_objects_sep] or by
    [get_objects_sextractor] is sorted: from each row to the next the flux
    does not increase. *)
Theorem C7_sorted_by_flux (E : Env) :
  (forall (a : SepArgs.t) (t : Tbl.t),
      GetObjectsSep.get_objects_sep E a = Ok t -> Sorted Tbl.desc (Tbl.rows t))
  /\ (forall (a : SexArgs.t) (res : sex_result) (t : Tbl.t),
         GetObjectsSextractor.get_objects_sextractor E a = Ok res ->
         sex_table res = Some t -> Sorted Tbl.desc (Tbl.rows t)).
Proof.
  split.
  - intros a t Ht.
    destruct (ExtractFacts.sep_rows_positive E a t Ht) as (l & -> & Hl).
    now apply TblFacts.sort_flux_reverse_sorted.
  - intros a res t Hres Ht.
    destruct (ExtractFacts.sex_rows_positive E a res t Hres Ht) as (l & -> & Hl).
    now apply TblFacts.sort_flux_reverse_sorted.
Qed.

(** C7 on the recorded runs: the fluxes come out as 80, 60, 50. *)
Lemma C7_sorted_by_flux_witness :
  (GetObjectsSep.get_objects_sep Demo.env Demo.sep_args = Ok Demo.sep_table
   /\ map Tbl.flux (Tbl.rows Demo.sep_table) = [80; 60; 50]%float
   /\ Sorted Tbl.desc (Tbl.rows Demo.sep_table))
  /\ (GetObjectsSextractor.get_objects_sextractor Demo.env Demo.sex_args
      = Ok (SexObj (Some Demo.sex_table))
      /\ map Tbl.flux (Tbl.rows Demo.sex_table) = [80; 60; 50]%float
      /\ Sorted Tbl.desc (Tbl.rows Demo.sex_table)).
Proof.
  split.
  - split; [exact demo_sep_run|]. split; [reflexivity|].
    exact (proj1 (C7_sorted_by_flux Demo.env) Demo.sep_args _ demo_sep_run).
  - split; [exact demo_sex_run|]. split; [reflexivity|].
    exact (proj2 (C7_sorted_by_flux Demo.env) Demo.sex_args _ _ demo_sex_run eq_refl).
Defined.

(** *** Masked pixels under an aperture *)

Module FlagFacts.

Lemma overlaps_iff (m : barray2) (cx cy r : float) :
  aperture_overlaps m cx cy r = true
  <-> exists i j, i < length m /\ j < length (hd [] m)
        /\ nth j (nth i m []) false = true
        /\ ((Z2F (Z.of_nat j) - cx) * (Z2F (Z.of_nat j) - cx)
            + (Z2F (Z.of_nat i) - cy) * (Z2F (Z.of_nat i) - cy) <? r * r)%float
           = true.
Proof.
  unfold aperture_overlaps. rewrite existsb_exists. split.
  - intros (i & Hi & H). apply existsb_exists in H as (j & Hj & H).
    apply in_seq in Hi, Hj. apply andb_prop in H as [H1 H2].
    exists i, j. repeat split; try lia; assumption.
  - intros (i & j & Hi & Hj & H1 & H2). exists i. split; [apply in_seq; lia|].
    apply existsb_exists. exists j. split; [apply in_seq; lia|].
    rewrite H1. exact H2.
Qed.

Lemma shape_nth {A : Type} (m m' : list (list A)) (i : nat) :
  shape_of m = shape_of m' -> length (nth i m []) = length (nth i m' []).
Proof.
  intros H. unfold shape_of in H.
  rewrite <- (map_nth (@length A) m [] i), <- (map_nth (@length A) m' [] i).
  now rewrite H.
Qed.

Lemma shape_length {A : Type} (m m' : list (list A)) :
  shape_of m = shape_of m' -> length m = length m'.
Proof.
  intros H. apply (f_equal (@length nat)) in H. unfold shape_of in H.
  now rewrite !length_map in H.
Qed.

Lemma orb_row_nth (x y : list bool) : forall j,
  length x = length y ->
  nth j (map2 orb x y) false = nth j x false || nth j y false.
Proof.
  revert y. induction x as [|b x IH]; intros [|c y] j H; try discriminate.
  - now destruct j.
  - destruct j as [|j]; cbn; [reflexivity|]. apply IH. now injection H.
Qed.

Lemma mask_or_nth (u v : barray2) : forall i j,
  shape_of u = shape_of v ->
  nth j (nth i (mask_or u v) []) false
  = nth j (nth i u []) false || nth j (nth i v []) false.
Proof.
  unfold mask_or, shape_of.
  revert v. induction u as [|x u IH]; intros [|y v] i j H; try discriminate.
  - now destruct i, j.
  - injection H as Hxy H. destruct i as [|i]; cbn.
    + now apply orb_row_nth.
    + now apply IH.
Qed.

Lemma mask_or_shape (u v : barray2) :
  shape_of u = shape_of v -> shape_of (mask_or u v) = shape_of v.
Proof.
  unfold mask_or, shape_of.
  revert v. induction u as [|x u IH]; intros [|y v] H; try discriminate.
  - reflexivity.
  - injection H as Hxy H. cbn. f_equal; [|now apply IH].
    rewrite <- Hxy. clear - Hxy. revert y Hxy.
    induction x as [|b x IHx]; intros [|c y] H; try discriminate;
      [reflexivity|]. cbn. f_equal. apply IHx. now injection H.
Qed.

(** [m | np.zeros_like(m)] is [m]. *)
Lemma mask_or_false (m : barray2) : mask_or m (map (map (fun _ => false)) m) = m.
Proof.
  unfold mask_or. induction m as [|row m IH]; cbn; [reflexivity|].
  f_equal; [|exact IH].
  clear. induction row as [|b row IH]; cbn; [reflexivity|].
  rewrite orb_false_r. now f_equal.
Qed.

(** An aperture that covers a set pixel of [v] covers one of [u | v]. *)
Lemma overlaps_mask_or (u v : barray2) (cx cy r : float) :
  shape_of u = shape_of v ->
  aperture_overlaps v cx cy r = true ->
  aperture_overlaps (mask_or u v) cx cy r = true.
Proof.
  intros Hs H. apply overlaps_iff in H as (i & j & Hi & Hj & Hset & Hin).
  apply overlaps_iff. exists i, j.
  assert (Hs' := mask_or_shape u v Hs).
  split; [now rewrite (shape_length _ _ Hs')|]. split.
  - assert (Hhd : forall m : barray2, hd [] m = nth 0 m [])
      by (intros [|x m]; reflexivity).
    rewrite Hhd, (shape_nth _ _ 0 Hs'), <- Hhd. exact Hj.
  - split; [|exact Hin].
    rewrite (mask_or_nth u v i j Hs), Hset. apply orb_true_r.
Qed.

(** With the dilated mask of the shape of the mask, an aperture that covers
    a set pixel of the dilated mask covers one of [mask|mask_bg|mask_segm]. *)
Lemma overlaps_mask_all (E : Env) (a : SepArgs.t) (cx cy r : float) :
  shape_of (GetObjectsSep.mask_segm E a) = shape_of (GetObjectsSep.mask1 a) ->
  aperture_overlaps (GetObjectsSep.mask_segm E a) cx cy r = true ->
  aperture_overlaps (GetObjectsSep.mask_all E a) cx cy r = true.
Proof.
  intros Hs H. unfold GetObjectsSep.mask_all, GetObjectsSep.mask_bg.
  rewrite mask_or_false. apply overlaps_mask_or; [now symmetry|exact H].
Qed.

End FlagFacts.

(** C8.  Let the aperture photometry of the engine flag masked pixels
    ([sep.sum_circle] sets the bit [APER_HASMASKED], 32, on an aperture that
    covers a set pixel of the mask it is given) and let the dilated mask
    have the shape of the mask.  Then every measurement that
    [get_objects_sep] returns and whose aperture covers a set pixel of
    [mask_segm] -- under [use_mask_large] the dilated mask of the large
    objects -- has that bit in its [flags]: it comes from the photometry
    of line 108, made under [mask|mask_bg|mask_segm], and is OR-ed at lines
    123 and 145 with the flag of the detection, every bit of which is in
    [flags] as well. *)
Theorem C8_contamination_flag (E : Env) (a : SepArgs.t) (t : Tbl.t) (r : Tbl.row) :
  aperture_contract (sep E) ->
  shape_of (GetObjectsSep.mask_segm E a) = shape_of (GetObjectsSep.mask1 a) ->
  GetObjectsSep.get_objects_sep E a = Ok t -> In r (Tbl.rows t) ->
  aperture_overlaps (GetObjectsSep.mask_segm E a) (Tbl.x r) (Tbl.y r)
    (Tbl.meta_aper t) = true ->
  Z.testbit (Tbl.flags r) 5 = true
  /\ exists o : SepObject,
       In o (GetObjectsSep.obj0 E a)
       /\ Tbl.x r = o_x o /\ Tbl.y r = o_y o
       /\ Tbl.flags r
          = Z.lor (o_flag o)
              (snd (sum_circle (sep E) (GetObjectsSep.image1 E a) (o_x o) (o_y o)
                      (GetObjectsSep.aper1 E a) (rms (GetObjectsSep.bg E a))
                      (SepArgs.gain a) (GetObjectsSep.mask_all E a)
                      (SepArgs.bkgann a)))
       /\ forall n : Z,
            Z.testbit (o_flag o) n = true -> Z.testbit (Tbl.flags r) n = true.
Proof.
  intros Hcontract Hshape Ht Hr Hover.
  assert (Haper : Tbl.meta_aper t = GetObjectsSep.aper1 E a).
  { revert Ht. unfold GetObjectsSep.get_objects_sep, bind.
    destruct (py_inv (SepArgs.sn a)); [|discriminate].
    intros [= <-]. reflexivity. }
  destruct (ExtractFacts.sep_row E a t r Ht Hr) as (o & Ho & _ & ->).
  rewrite Haper in Hover.
  cbn [GetObjectsSep.measurement Tbl.x Tbl.y Tbl.flags] in *.
  unfold GetObjectsSep.phot_of.
  set (f := snd (sum_circle _ _ _ _ _ _ _ _ _)).
  assert (Hbit : Z.testbit f 5 = true).
  { apply Hcontract. now apply FlagFacts.overlaps_mask_all. }
  assert (Hlor : Z.lor (o_flag o) (Z.lor f (o_flag o)) = Z.lor (o_flag o) f).
  { rewrite (Z.lor_comm f), Z.lor_assoc, Z.lor_diag. reflexivity. }
  rewrite Hlor. split; [rewrite Z.lor_spec, Hbit; apply orb_true_r|].
  exists o. split; [exact Ho|]. split; [reflexivity|]. split; [reflexivity|].
  split; [reflexivity|].
  intros n Hn. rewrite Z.lor_spec, Hn. reflexivity.
Qed.

(** The engine of the recorded run keeps the contract. *)
Lemma demo_aperture_contract : aperture_contract (sep Demo.env).
Proof.
  intros img px py r err gain m bkgann H.
  cbn [sep Demo.env Demo.engine sum_circle]. rewrite H.
  destruct (Demo.apertures px py) as [[f fe] fl]. cbn [snd].
  rewrite Z.lor_spec. apply orb_true_r.
Qed.

(** C8 on the recorded run, made with [use_mask_large]: the measurement at
    (7, 7) has an aperture of radius 3 that reaches pixel (5, 5) of the
    dilated mask, and its flags are 32; the other two measurements are clear
    of the mask and have flags 0. *)
Lemma C8_contamination_flag_witness :
  exists r,
    SepArgs.use_mask_large Demo.sep_args = true
    /\ nth_error (Tbl.rows Demo.sep_table) 1 = Some r
    /\ Tbl.x r = 7%float /\ Tbl.y r = 7%float
    /\ nth 5 (nth 5 (GetObjectsSep.mask_segm Demo.env Demo.sep_args) []) false = true
    /\ Tbl.flags r = 32%Z
    /\ map Tbl.flags (Tbl.rows Demo.sep_table) = [0; 32; 0]%Z
    /\ Z.testbit (Tbl.flags r) 5 = true.
Proof.
  eexists. split; [reflexivity|]. split; [reflexivity|].
  split; [reflexivity|]. split; [reflexivity|].
  split; [vm_compute; reflexivity|]. split; [reflexivity|].
  split; [reflexivity|].
  refine (proj1 (C8_contamination_flag Demo.env Demo.sep_args Demo.sep_table _
                   demo_aperture_contract _ demo_sep_run
                   (nth_error_In (Tbl.rows Demo.sep_table) 1 eq_refl) _)).
  - vm_compute. reflexivity.
  - vm_compute. reflexivity.
Defined.

(** ** Claims about get_background *)

(** C9 fails on the code: with [get_rms=True] the return statement reads the
    name [back_rms], which is bound nowhere (the local is [backrms]), so
    every such call raises [NameError] and returns no pair. *)
Theorem C9_get_rms_raises (E : Env) (image : farray2) (mask : option barray2)
    (method : string) (size : Z) (kw : kwargs) :
  GetBackground.get_background E image mask method size true kw
  = Raise (NameError "back_rms").
Proof.
  unfold GetBackground.get_background, GetBackground.locals.
  destruct (String.eqb method "sep"); reflexivity.
Qed.

(** Without [get_rms] the call returns the background map. *)
Lemma get_background_back (E : Env) (image : farray2) (mask : option barray2)
    (size : Z) (kw : kwargs) :
  GetBackground.get_background E image mask "sep" size false kw
  = Ok (BgOne (PyArray2 (back (Background (sep E) image mask size size kw)))).
Proof. reflexivity. Qed.

(** ** The robust-refinement loop of match *)

Module MatchFacts.

Lemma bind_Ok {A B : Type} (c : outcome A) (k : A -> outcome B) (b : B) :
  bind c k = Ok b -> exists v, c = Ok v /\ k v = Ok b.
Proof. destruct c as [v|e]; cbn; [eauto|discriminate]. Qed.

Lemma mask_assign_length {A : Type} m (l vals : list A) :
  length (mask_assign m l vals) = length l.
Proof.
  revert m vals. induction l as [|v l IH]; intros [|[] m] vals; cbn; try reflexivity.
  - destruct vals; cbn; [reflexivity|]. now rewrite IH.
  - now rewrite IH.
Qed.

(** Writing into a copy of [m] at the positions of [m] leaves a submask. *)
Lemma mask_assign_submask (m : list bool) : forall a vals,
  submask a m -> submask (mask_assign m a vals) m.
Proof.
  unfold submask.
  induction m as [|b m IH]; intros a vals Ha.
  - inversion Ha; subst. constructor.
  - inversion Ha as [|b' ? a' ? Hb Ha']; subst. cbn.
    destruct b.
    + destruct vals as [|v vals]; [exact Ha|].
      constructor; [reflexivity|]. now apply IH.
    + constructor; [exact Hb|]. now apply IH.
Qed.

Lemma submask_refl (m : list bool) : submask m m.
Proof. induction m; constructor; auto. Qed.

Lemma submask_count (m m0 : list bool) :
  submask m m0 -> count_true m <= count_true m0.
Proof.
  unfold count_true. induction 1 as [|b b0 m m0 Hb _ IH]; cbn; [lia|].
  destruct b; cbn.
  - rewrite (Hb eq_refl). cbn. lia.
  - destruct b0; cbn; lia.
Qed.

(** *** Shapes *)

Lemma map2_length {A B C : Type} (f : A -> B -> C) l l' :
  length (map2 f l l') = Nat.min (length l) (length l').
Proof.
  revert l'. induction l as [|v l IH]; intros [|w l']; cbn; try reflexivity.
  now rewrite IH.
Qed.

Lemma take_length {A : Type} (l : list A) idx r :
  take l idx = Ok r -> length r = length idx.
Proof.
  revert r. induction idx as [|i idx IH]; cbn; intros r.
  - now intros [= <-].
  - destruct (nth_error l i); [|discriminate].
    intros H. apply bind_Ok in H as (r' & Hr' & [= <-]). cbn. now rewrite (IH r').
Qed.

Lemma mapM_length {A B : Type} (f : A -> outcome B) l r :
  mapM f l = Ok r -> length r = length l.
Proof.
  revert r. induction l as [|v l IH]; cbn; intros r.
  - now intros [= <-].
  - intros H. apply bind_Ok in H as (b & _ & H).
    apply bind_Ok in H as (r' & Hr' & [= <-]). cbn. now rewrite (IH r').
Qed.

Lemma mapM_Forall {A B : Type} (f : A -> outcome B) (P : B -> Prop) l r :
  (forall v b, In v l -> f v = Ok b -> P b) -> mapM f l = Ok r -> Forall P r.
Proof.
  revert r. induction l as [|v l IH]; cbn; intros r Hf.
  - intros [= <-]. constructor.
  - intros H. apply bind_Ok in H as (b & Hb & H).
    apply bind_Ok in H as (r' & Hr' & [= <-]).
    constructor; [apply (Hf v); auto|].
    apply IH; [|exact Hr']. intros w c Hw. apply Hf. now right.
Qed.

Lemma mapM_ok {A B : Type} (f : A -> outcome B) l :
  (forall v, In v l -> exists b, f v = Ok b) -> exists r, mapM f l = Ok r.
Proof.
  induction l as [|v l IH]; cbn; intros Hf; [eauto|].
  destruct (Hf v (or_introl eq_refl)) as [b ->].
  destruct IH as [r ->]; [intros; apply Hf; now right|]. cbn. eauto.
Qed.

(** A one-entry operand against an array of any length. *)
Lemma broadcast2_scalar_l f u b :
  broadcast2 f [u] b = Ok (map (f u) b).
Proof.
  unfold broadcast2. destruct b as [|v [|w b]]; reflexivity.
Qed.

Lemma broadcast2_scalar_r f l v :
  broadcast2 f l [v] = Ok (map (fun u => f u v) l).
Proof.
  unfold broadcast2. destruct l as [|u [|w l]]; reflexivity.
Qed.

Lemma broadcast2_same f l l' :
  length l = length l' -> broadcast2 f l l' = Ok (map2 f l l').
Proof. intros H. unfold broadcast2. now rewrite H, Nat.eqb_refl. Qed.

Lemma series_term_ok L x y ij :
  length x = length y ->
  exists c,
    bind (broadcast2 PrimFloat.mul [1%float] (map (fun v => pow L v (fst ij - snd ij)) x))
         (fun t => broadcast2 PrimFloat.mul t (map (fun v => pow L v (snd ij)) y))
    = Ok c /\ length c = length x.
Proof.
  intros Hxy. rewrite broadcast2_scalar_l. cbn [bind].
  rewrite broadcast2_same by (rewrite !length_map; exact Hxy).
  eexists. split; [reflexivity|].
  rewrite map2_length, !length_map. lia.
Qed.

(** With a scalar [mul] and positions of one length, [make_series] returns
    its [1 + order*(order+3)/2] columns, each as long as the positions. *)
Lemma make_series_ok L x y order :
  length x = length y ->
  exists cols, make_series L [1%float] x y order true = Ok cols
               /\ length cols = spatial_width order
               /\ Forall (fun c => length c = length x) cols.
Proof.
  intros Hxy. unfold make_series.
  rewrite broadcast2_scalar_r. cbn [bind].
  destruct (mapM_ok
              (fun ij : Z * Z =>
                 bind (broadcast2 PrimFloat.mul [1%float]
                         (map (fun v => pow L v (fst ij - snd ij)) x))
                      (fun t => broadcast2 PrimFloat.mul t
                                  (map (fun v => pow L v (snd ij)) y)))
              (series_terms order)) as [terms Ht].
  { intros ij _. destruct (series_term_ok L x y ij Hxy) as (c & Hc & _). eauto. }
  rewrite Ht. cbn [bind]. eexists. split; [reflexivity|]. split.
  - cbn. unfold spatial_width. f_equal. now apply mapM_length in Ht.
  - constructor; [unfold ones_like; now rewrite !length_map|].
    revert Ht. apply mapM_Forall. intros ij c _ Hc.
    destruct (series_term_ok L x y ij Hxy) as (c' & Hc' & Hlen).
    rewrite Hc' in Hc. now injection Hc as <-.
Qed.

Lemma vstack_T_ok cols n :
  cols <> [] -> Forall (fun c => length c = n) cols ->
  exists X, vstack_T cols = Ok X /\ length X = n
            /\ Forall (fun row => length row = length cols) X.
Proof.
  intros Hne Hall. unfold vstack_T. destruct cols as [|c0 cols']; [contradiction|].
  set (cols := c0 :: cols') in *.
  assert (Hc0 : length c0 = n) by (now inversion Hall).
  assert (Hb : forallb (fun c => Nat.eqb (length c) (length c0)) cols = true).
  { apply forallb_forall. intros c Hc. rewrite Forall_forall in Hall.
    rewrite (Hall c Hc), Hc0. apply Nat.eqb_refl. }
  rewrite Hb. eexists. split; [reflexivity|]. split.
  - now rewrite length_map, length_seq.
  - apply Forall_forall. intros row Hrow. apply in_map_iff in Hrow as (i & <- & _).
    now rewrite length_map.
Qed.

Lemma vstack_T_shape cols X :
  vstack_T cols = Ok X ->
  length X = length (hd [] cols) /\ Forall (fun row => length row = length cols) X.
Proof.
  unfold vstack_T. destruct cols as [|c0 cols']; [discriminate|].
  destruct (forallb _ _); [|discriminate]. intros [= <-]. split.
  - now rewrite length_map, length_seq.
  - apply Forall_forall. intros row Hrow. apply in_map_iff in Hrow as (i & <- & _).
    cbn. now rewrite length_map.
Qed.

(** Rows as long as the coefficient vector: the product is defined. *)
Lemma rows_dot_ok X C :
  Forall (fun row => length row = length C) X ->
  exists zm, rows_dot X C = Ok zm /\ length zm = length X.
Proof.
  intros Hall. unfold rows_dot.
  destruct (mapM_ok
              (fun row => bind (broadcast2 PrimFloat.mul row C)
                               (fun t => Ok (np_sum t))) X) as [zm Hzm].
  { intros row Hrow. rewrite Forall_forall in Hall.
    rewrite broadcast2_same by now apply Hall. cbn. eauto. }
  exists zm. split; [exact Hzm|]. now apply mapM_length in Hzm.
Qed.

Section Loop.
Variable E : Env.
Variable a : MatchArgs.t.
Variable p : Prep.t.

Local Abbreviation iterate := (MatchFn.iterate E a p).
Local Abbreviation regress := (MatchFn.regress E a p).
Local Abbreviation next_idx := (MatchFn.next_idx a p).

Lemma next_idx_submask zm : submask (next_idx zm) (Prep.idx0 p).
Proof.
  unfold MatchFn.next_idx. cbv zeta.
  destruct (truthy (MatchArgs.threshold a)).
  - apply mask_assign_submask, submask_refl.
  - apply submask_refl.
Qed.

(** The four ways an iteration goes. *)
Lemma iterate_fail n idx :
  count_true idx < 3 -> iterate n idx = ([IterStart idx], Ok None).
Proof.
  intros H. apply Nat.ltb_lt in H. destruct n; cbn [MatchFn.iterate]; now rewrite H.
Qed.

Lemma iterate_raise n idx e :
  3 <= count_true idx -> rows_dot (Prep.X p) (regress idx) = Raise e ->
  iterate n idx = ([IterStart idx; Fit idx (regress idx)], Raise e).
Proof.
  intros H Hd. apply Nat.ltb_ge in H. destruct n; cbn [MatchFn.iterate]; now rewrite H, Hd.
Qed.

Lemma iterate_last n idx zm :
  3 <= count_true idx -> rows_dot (Prep.X p) (regress idx) = Ok zm ->
  truthy (MatchArgs.threshold a) = false \/ n = 0 ->
  iterate n idx
  = ([IterStart idx; Fit idx (regress idx)],
     Ok (Some {| fit_params := regress idx; fit_zero_model := zm;
                 fit_idx := next_idx zm |})).
Proof.
  intros H Hd Hn. apply Nat.ltb_ge in H.
  destruct n; cbn [MatchFn.iterate]; rewrite H, Hd.
  - destruct (truthy (MatchArgs.threshold a)); reflexivity.
  - destruct Hn as [->|]; [reflexivity|discriminate].
Qed.

Lemma iterate_next n idx zm :
  3 <= count_true idx -> rows_dot (Prep.X p) (regress idx) = Ok zm ->
  truthy (MatchArgs.threshold a) = true ->
  iterate (Datatypes.S n) idx
  = (IterStart idx :: Fit idx (regress idx) :: fst (iterate n (next_idx zm)),
     snd (iterate n (next_idx zm))).
Proof.
  intros H Hd Ht. apply Nat.ltb_ge in H. cbn [MatchFn.iterate]. now rewrite H, Hd, Ht.
Qed.

(** Case analysis on one iteration. *)
Lemma iterate_cases n idx :
  (count_true idx < 3 /\ iterate n idx = ([IterStart idx], Ok None))
  \/ (3 <= count_true idx /\ exists e,
        iterate n idx = ([IterStart idx; Fit idx (regress idx)], Raise e))
  \/ (3 <= count_true idx /\ exists zm,
        rows_dot (Prep.X p) (regress idx) = Ok zm
        /\ (truthy (MatchArgs.threshold a) = false \/ n = 0)
        /\ iterate n idx
           = ([IterStart idx; Fit idx (regress idx)],
              Ok (Some {| fit_params := regress idx; fit_zero_model := zm;
                          fit_idx := next_idx zm |})))
  \/ (3 <= count_true idx /\ exists zm n',
        rows_dot (Prep.X p) (regress idx) = Ok zm
        /\ truthy (MatchArgs.threshold a) = true /\ n = Datatypes.S n'
        /\ iterate n idx
           = (IterStart idx :: Fit idx (regress idx) :: fst (iterate n' (next_idx zm)),
              snd (iterate n' (next_idx zm)))).
Proof.
  destruct (Nat.lt_ge_cases (count_true idx) 3) as [H|H].
  - left. split; [exact H|]. now apply iterate_fail.
  - right. destruct (rows_dot (Prep.X p) (regress idx)) as [zm|e] eqn:Hd.
    + right. destruct (truthy (MatchArgs.threshold a)) eqn:Ht.
      * destruct n as [|n'].
        -- left. split; [exact H|]. exists zm. split; [reflexivity|].
           split; [now right|]. apply iterate_last; auto.
        -- right. split; [exact H|]. exists zm, n'. split; [reflexivity|].
           split; [reflexivity|]. split; [reflexivity|]. now apply iterate_next.
      * left. split; [exact H|]. exists zm. split; [reflexivity|].
        split; [now left|]. apply iterate_last; auto.
    + left. split; [exact H|]. exists e. now apply iterate_raise.
Qed.

(** The loop fails exactly when an iteration starts with fewer than three
    active points. *)
Lemma iterate_none_iff n : forall idx,
  snd (iterate n idx) = Ok None
  <-> exists m, In m (starts_of (fst (iterate n idx))) /\ count_true m < 3.
Proof.
  assert (Hfail : forall idx, count_true idx < 3 ->
            (@Ok (option fit_state) None = Ok None
             <-> exists m, In m (starts_of [IterStart idx]) /\ count_true m < 3)).
  { intros idx H. split; [|reflexivity]. intros _. exists idx.
    split; [now left|exact H]. }
  assert (Hstop : forall idx C (r : outcome (option fit_state)),
            3 <= count_true idx -> r <> Ok None ->
            (r = Ok None
             <-> exists m, In m (starts_of [IterStart idx; Fit idx C])
                           /\ count_true m < 3)).
  { intros idx C r H Hr. split; [intros Hn; contradiction|].
    intros (m & [<-|[]] & Hm). lia. }
  induction n as [|n IH]; intros idx.
  - destruct (iterate_cases 0 idx)
      as [[H Hi]|[[H [e Hi]]|[[H (zm & _ & _ & Hi)]|[H (zm & n' & _ & _ & Hn & _)]]]];
      try discriminate Hn; rewrite Hi; cbn [fst snd].
    + now apply Hfail.
    + apply Hstop; [exact H|discriminate].
    + apply Hstop; [exact H|discriminate].
  - destruct (iterate_cases (Datatypes.S n) idx)
      as [[H Hi]|[[H [e Hi]]|[[H (zm & _ & _ & Hi)]|[H (zm & n' & _ & _ & Hn & Hi)]]]];
      rewrite Hi; cbn [fst snd].
    + now apply Hfail.
    + apply Hstop; [exact H|discriminate].
    + apply Hstop; [exact H|discriminate].
    + injection Hn as <-. rewrite IH. cbn. split.
      * intros (m & Hin & Hm). exists m. split; [now right|exact Hm].
      * intros (m & [<-|Hin] & Hm); [lia|]. now exists m.
Qed.

(** Every iteration starts with a submask of the first mask or of [idx0]. *)
Lemma iterate_submask n : forall idx m,
  submask idx (Prep.idx0 p) ->
  In m (starts_of (fst (iterate n idx))) -> submask m (Prep.idx0 p).
Proof.
  induction n as [|n IH]; intros idx m Hidx.
  - destruct (iterate_cases 0 idx)
      as [[H Hi]|[[H [e Hi]]|[[H (zm & _ & _ & Hi)]|[H (zm & n' & _ & _ & Hn & _)]]]];
      try discriminate Hn; rewrite Hi; cbn; intros [<-|[]]; exact Hidx.
  - destruct (iterate_cases (Datatypes.S n) idx)
      as [[H Hi]|[[H [e Hi]]|[[H (zm & _ & _ & Hi)]|[H (zm & n' & _ & _ & Hn & Hi)]]]];
      rewrite Hi; cbn; try (intros [<-|[]]; exact Hidx).
    injection Hn as <-. intros [<-|Hin]; [exact Hidx|].
    apply (IH (next_idx zm)); [apply next_idx_submask|exact Hin].
Qed.

Lemma iterate_first n idx :
  hd_error (starts_of (fst (iterate n idx))) = Some idx.
Proof.
  destruct (iterate_cases n idx)
    as [[H ->]|[[H [e ->]]|[[H (zm & _ & _ & ->)]|[H (zm & n' & _ & _ & Hn & ->)]]]];
    reflexivity.
Qed.

End Loop.
(** *** What [prepare] builds *)

Ltac inv_bind H :=
  let v := fresh "v" in
  let Hv := fresh "Hv" in
  apply bind_Ok in H as (v & Hv & H).

Lemma base_mask_length a omag omag_err cmag cmag_err oflags ccolor :
  length (MatchFn.base_mask a omag omag_err cmag cmag_err oflags ccolor)
  <= length omag.
Proof.
  unfold MatchFn.base_mask. cbv zeta.
  destruct (MatchArgs.cat_color a); rewrite !map2_length, !length_map; lia.
Qed.

Lemma colour_column L ccolor x y cols :
  length ccolor = length x ->
  make_series L ccolor x y 0 true = Ok cols ->
  exists c, cols = [c] /\ length c = length x.
Proof.
  intros Hlen. unfold make_series. cbn [series_terms Zrange flat_map mapM bind].
  rewrite broadcast2_same by (unfold ones_like; now rewrite length_map).
  cbn. intros [= <-]. eexists. split; [reflexivity|].
  unfold ones_like. rewrite map2_length, length_map. lia.
Qed.

Section Prepare.
Variable E : Env.
Variable a : MatchArgs.t.

(** When [prepare] succeeds the design matrix has one row per matched pair,
    every row has [width] entries, and the base mask is no longer than the
    matrix. *)
Lemma prepare_shape p :
  MatchFn.prepare E a = Ok p ->
  Forall (fun row => length row = MatchFn.width a) (Prep.X p)
  /\ length (Prep.idx0 p) <= length (Prep.X p)
  /\ length (Prep.X p) = length (MatchFn.matches E a).
Proof.
  unfold MatchFn.prepare. intros H.
  assert (Ho : length (MatchFn.oidx E a) = length (MatchFn.matches E a))
    by (unfold MatchFn.oidx; apply length_map).
  assert (Hc : length (MatchFn.cidx E a) = length (MatchFn.matches E a))
    by (unfold MatchFn.cidx; apply length_map).
  set (n := length (MatchFn.matches E a)) in *.
  apply bind_Ok in H as (omag & Homag & H). apply take_length in Homag.
  apply bind_Ok in H as (omag_err & _ & H).
  apply bind_Ok in H as (oflags & _ & H).
  apply bind_Ok in H as (cmag_m & Hcmag & H). apply take_length in Hcmag.
  cbv zeta in H.
  apply bind_Ok in H as (cmag_err & _ & H).
  apply bind_Ok in H as (centred & Hcen & H).
  assert (Hxy : length (snd (fst centred)) = n /\ length (snd centred) = n).
  { destruct (MatchArgs.obj_x a) as [ox|], (MatchArgs.obj_y a) as [oy|];
      try (injection Hcen as <-; cbn; unfold zeros_like;
           rewrite !length_map; lia).
    apply bind_Ok in Hcen as (xs & Hxs & Hcen).
    apply bind_Ok in Hcen as (ys & Hys & Hcen).
    apply take_length in Hxs, Hys. cbv zeta in Hcen. injection Hcen as <-.
    cbn. rewrite !length_map. lia. }
  destruct Hxy as [Hx Hy].
  apply bind_Ok in H as (cols & Hcols & H).
  destruct (make_series_ok (libm E) (snd (fst centred)) (snd centred)
              (MatchArgs.spatial_order a)) as (cols' & Hcols' & Hw & Hall);
    [lia|].
  rewrite Hcols' in Hcols. injection Hcols as <-.
  apply bind_Ok in H as (coloured & Hcol & H).
  assert (Hsnd : length (snd coloured) = MatchFn.width a
                 /\ Forall (fun c => length c = n) (snd coloured)).
  { unfold MatchFn.width. rewrite Hx in Hall.
    destruct (MatchArgs.cat_color a) as [c|].
    - apply bind_Ok in Hcol as (m & Hm & Hcol). apply take_length in Hm.
      cbv zeta in Hcol.
      apply bind_Ok in Hcol as (Xc & HXc & Hcol). injection Hcol as <-.
      apply colour_column in HXc as (col & -> & Hlen);
        [|unfold filled_nan; rewrite length_map; lia].
      cbn [snd]. split; [rewrite length_app, Hw; reflexivity|].
      apply Forall_app. split; [exact Hall|]. constructor; [lia|constructor].
    - injection Hcol as <-. cbn [snd]. split; [lia|exact Hall]. }
  destruct Hsnd as [Hwidth Hcolumns].
  cbv zeta in H.
  apply bind_Ok in H as (X & HX & H).
  apply vstack_T_shape in HX as [HlenX HrowsX].
  injection H as <-. cbn [Prep.X Prep.idx0].
  assert (Hn : length X = n).
  { rewrite HlenX. destruct (snd coloured) as [|c0 rest].
    - unfold MatchFn.width, spatial_width in Hwidth. cbn in Hwidth. lia.
    - cbn. now inversion Hcolumns. }
  split; [now rewrite <- Hwidth|]. split; [|exact Hn].
  rewrite Hn, <- Ho, <- Homag. apply base_mask_length.
Qed.

Lemma colour_column_empty L : make_series L [] [] [] 0 true = Ok [[]].
Proof. reflexivity. Qed.

(** With no matched pair [prepare] succeeds and the base mask is empty. *)
Lemma prepare_no_match :
  MatchFn.matches E a = [] ->
  exists p, MatchFn.prepare E a = Ok p /\ Prep.idx0 p = [].
Proof.
  intros Hm. unfold MatchFn.prepare, MatchFn.oidx, MatchFn.cidx.
  rewrite Hm.
  destruct (make_series_ok (libm E) [] [] (MatchArgs.spatial_order a) eq_refl)
    as (cols & Hcols & Hw & Hall).
  assert (Hne : cols <> []) by (destruct cols; discriminate).
  assert (Hne' : cols ++ [[]] <> []) by (destruct cols; discriminate).
  assert (Hall' : Forall (fun c : list float => length c = 0) (cols ++ [[]])).
  { apply Forall_app. split; [exact Hall|repeat constructor]. }
  destruct (vstack_T_ok cols 0 Hne Hall) as (X & HX & _ & _).
  destruct (vstack_T_ok (cols ++ [[]]) 0 Hne' Hall') as (X' & HX' & _ & _).
  unfold MatchFn.base_mask.
  destruct (MatchArgs.cat_magerr a), (MatchArgs.obj_x a), (MatchArgs.obj_y a),
    (MatchArgs.cat_color a);
    cbn [map take bind fst snd filled_nan zeros_like];
    rewrite Hcols; cbn [bind fst snd];
    rewrite ?colour_column_empty; cbn [bind fst snd];
    rewrite ?HX, ?HX'; cbn [bind];
    (eexists; split; [reflexivity|reflexivity]).
Qed.

End Prepare.

(** *** The loop and the export do not raise on well-shaped data *)

Lemma mask_select_hd {A : Type} (idx : list bool) : forall (l : list A),
  0 < count_true idx -> length idx <= length l ->
  exists v r, mask_select idx l = v :: r /\ In v l.
Proof.
  unfold count_true.
  induction idx as [|b idx IH]; intros l Hc Hl; cbn in Hc; [lia|].
  destruct l as [|w l]; [cbn in Hl; lia|]. cbn in Hl.
  destruct b; cbn.
  - exists w, (mask_select idx l). split; [reflexivity|now left].
  - destruct (IH l) as (v & r & -> & Hin); [exact Hc|lia|].
    exists v, r. split; [reflexivity|now right].
Qed.

Lemma skipn_nonempty {A : Type} (k : nat) (l : list A) :
  k < length l -> exists v r, skipn k l = v :: r.
Proof.
  revert l. induction k as [|k IH]; intros [|v l] H; cbn in *; try lia; eauto.
  apply IH. lia.
Qed.

Section Shaped.
Variable E : Env.
Variable a : MatchArgs.t.
Variable p : Prep.t.
Hypothesis Hsolver : solver_contract (sm E).
Hypothesis Hrows : Forall (fun row => length row = MatchFn.width a) (Prep.X p).
Hypothesis Hlen : length (Prep.idx0 p) <= length (Prep.X p).

Lemma regress_length idx :
  3 <= count_true idx -> length idx = length (Prep.idx0 p) ->
  length (MatchFn.regress E a p idx) = MatchFn.width a.
Proof.
  intros Hc Hl.
  destruct (mask_select_hd idx (Prep.X p)) as (row & rest & Hsel & Hin); [lia|lia|].
  assert (Hne : mask_select idx (Prep.X p) <> []) by (rewrite Hsel; discriminate).
  assert (Hw : length (hd [] (mask_select idx (Prep.X p))) = MatchFn.width a).
  { rewrite Hsel. cbn. rewrite Forall_forall in Hrows. now apply Hrows. }
  unfold MatchFn.regress.
  destruct (MatchArgs.robust a).
  - rewrite (proj1 (Hsolver _ _ [] Hne)). exact Hw.
  - rewrite (proj2 (Hsolver _ _ _ Hne)). exact Hw.
Qed.

Lemma next_idx_length zm :
  length (MatchFn.next_idx a p zm) = length (Prep.idx0 p).
Proof.
  unfold MatchFn.next_idx. cbv zeta.
  destruct (truthy (MatchArgs.threshold a)); [apply mask_assign_length|reflexivity].
Qed.

(** The loop returns: [None], or a state whose coefficients are [width] long. *)
Lemma iterate_ok n : forall idx,
  length idx = length (Prep.idx0 p) ->
  exists r, snd (MatchFn.iterate E a p n idx) = Ok r
            /\ forall st, r = Some st -> length (fit_params st) = MatchFn.width a.
Proof.
  induction n as [|n IH]; intros idx Hl;
    (destruct (Nat.lt_ge_cases (count_true idx) 3) as [Hc|Hc];
     [rewrite (iterate_fail E a p _ idx Hc); exists None; split;
      [reflexivity|discriminate]|]);
    pose proof (regress_length idx Hc Hl) as Hreg;
    (destruct (rows_dot_ok (Prep.X p) (MatchFn.regress E a p idx)) as (zm & Hzm & _);
     [now rewrite Hreg|]).
  - rewrite (iterate_last E a p 0 idx zm Hc Hzm (or_intror eq_refl)).
    eexists. split; [reflexivity|]. now intros st [= <-].
  - destruct (truthy (MatchArgs.threshold a)) eqn:Ht.
    + rewrite (iterate_next E a p n idx zm Hc Hzm Ht). cbn [snd].
      apply IH, next_idx_length.
    + rewrite (iterate_last E a p _ idx zm Hc Hzm (or_introl Ht)).
      eexists. split; [reflexivity|]. now intros st [= <-].
Qed.

End Shaped.

Section Exported.
Variable E : Env.
Variable a : MatchArgs.t.
Variable p : Prep.t.

(** The exported surface is defined wherever the two position arrays have
    one length, and gives one value per position. *)
Lemma zero_fn_ok C (xs ys : list float) :
  spatial_width (MatchArgs.spatial_order a) <= length C ->
  length xs = length ys ->
  exists z, MatchFn.zero_fn E a p C (Some xs) (Some ys) = Ok z
            /\ length z = length xs.
Proof.
  intros HC Hxy. unfold MatchFn.zero_fn. cbv zeta. cbn [fst snd].
  destruct (make_series_ok (libm E)
              (map (fun v => v - Prep.x0 p)%float xs)
              (map (fun v => v - Prep.y0 p)%float ys)
              (MatchArgs.spatial_order a)) as (cols & Hcols & Hw & Hall).
  { now rewrite !length_map. }
  rewrite Hcols. cbn [bind].
  destruct (vstack_T_ok cols _ ltac:(destruct cols; [discriminate|discriminate]) Hall)
    as (X & HX & HlenX & HrowsX).
  rewrite HX. cbn [bind].
  destruct (rows_dot_ok X (firstn (length cols) C)) as (z & Hz & Hlz).
  { rewrite length_firstn, Nat.min_l by lia. exact HrowsX. }
  exists z. split; [exact Hz|]. rewrite Hlz, HlenX. apply length_map.
Qed.

Lemma zero_fn_default_ok C xx yy :
  spatial_width (MatchArgs.spatial_order a) <= length C ->
  match xx, yy with Some xs, Some ys => length xs = length ys | _, _ => True end ->
  exists z, MatchFn.zero_fn E a p C xx yy = Ok z.
Proof.
  intros HC Hal.
  assert (Hz : exists z,
            (cols <- make_series (libm E) [1%float] (zeros_like (Prep.omag p))
                       (zeros_like (Prep.omag p)) (MatchArgs.spatial_order a) true ;;
             X <- vstack_T cols ;;
             rows_dot X (firstn (length cols) C))%py = Ok z).
  { destruct (make_series_ok (libm E) (zeros_like (Prep.omag p))
                (zeros_like (Prep.omag p)) (MatchArgs.spatial_order a) eq_refl)
      as (cols & Hcols & Hw & Hall).
    rewrite Hcols. cbn [bind].
    destruct (vstack_T_ok cols _ ltac:(destruct cols; [discriminate|discriminate]) Hall)
      as (X & HX & HlenX & HrowsX).
    rewrite HX. cbn [bind].
    destruct (rows_dot_ok X (firstn (length cols) C)) as (z & Hz & _).
    { rewrite length_firstn, Nat.min_l by lia. exact HrowsX. }
    eauto. }
  destruct xx as [xs|], yy as [ys|]; try exact Hz.
  destruct (zero_fn_ok C xs ys HC Hal) as (z & Hzz & _). eauto.
Qed.

(** The export of a state whose coefficients are [width] long succeeds. *)
Lemma export_ok st :
  length (fit_params st) = MatchFn.width a ->
  MatchFn.positions_aligned a ->
  exists b, MatchFn.export E a p st = Ok b
            /\ C_params b = fit_params st /\ b_idx b = fit_idx st
            /\ b_idx0 b = Prep.idx0 p /\ b_zero_model b = fit_zero_model st.
Proof.
  intros HC Hal. unfold MatchFn.export.
  assert (Hct : exists ct, MatchFn.color_term E a (fit_params st) = Ok ct).
  { unfold MatchFn.color_term. unfold MatchFn.width in HC.
    destruct (MatchArgs.cat_color a); [|eauto].
    destruct (make_series_ok (libm E) [1%float] [1%float]
                (MatchArgs.spatial_order a) eq_refl) as (X & -> & Hw & _).
    cbn [bind]. rewrite Hw.
    destruct (skipn_nonempty (spatial_width (MatchArgs.spatial_order a))
                (fit_params st)) as (v & r & ->); [lia|]. eauto. }
  destruct Hct as [ct ->]. cbn [bind].
  destruct (zero_fn_default_ok (fit_params st) (MatchArgs.obj_x a) (MatchArgs.obj_y a))
    as [z ->].
  { unfold MatchFn.width in HC. lia. }
  { unfold MatchFn.positions_aligned in Hal.
    destruct (MatchArgs.obj_x a), (MatchArgs.obj_y a); auto. }
  cbn [bind]. eexists. split; [reflexivity|]. repeat split.
Qed.

End Exported.
End MatchFacts.

(** ** Claims about match *)

Module MatchRun.
Section Run.
Variable E : Env.
Variable a : MatchArgs.t.

Lemma run_prepared p :
  MatchFn.prepare E a = Ok p -> MatchFn.run E a = MatchFn.fit E a p.
Proof. intros H. unfold MatchFn.run. now rewrite H. Qed.

Lemma masks_prepared p :
  MatchFn.prepare E a = Ok p ->
  MatchFn.iteration_masks E a
  = starts_of (fst (MatchFn.iterate E a p 4 (Prep.idx0 p))).
Proof.
  intros H. unfold MatchFn.iteration_masks. now rewrite (run_prepared p H).
Qed.

Lemma match_prepared p :
  MatchFn.prepare E a = Ok p ->
  MatchFn.match_ E a
  = bind (snd (MatchFn.iterate E a p 4 (Prep.idx0 p)))
         (fun r => match r with
                   | None => Ok None
                   | Some st => bind (MatchFn.export E a p st) (fun b => Ok (Some b))
                   end).
Proof.
  intros H. unfold MatchFn.match_. now rewrite (run_prepared p H).
Qed.

Lemma match_none_iff :
  MatchFn.match_ E a = Ok None
  <-> exists m, In m (MatchFn.iteration_masks E a) /\ count_true m < 3.
Proof.
  destruct (MatchFn.prepare E a) as [p|e] eqn:Hp.
  - rewrite (match_prepared p Hp), (masks_prepared p Hp).
    rewrite <- MatchFacts.iterate_none_iff.
    destruct (snd (MatchFn.iterate E a p 4 (Prep.idx0 p))) as [[st|]|e];
      cbn; try tauto.
    + destruct (MatchFn.export E a p st); cbn; split; discriminate.
    + split; discriminate.
  - unfold MatchFn.match_, MatchFn.iteration_masks, MatchFn.run. rewrite Hp. cbn.
    split; [discriminate|]. intros (m & [] & _).
Qed.

Lemma match_some p :
  MatchFn.prepare E a = Ok p ->
  solver_contract (sm E) -> MatchFn.positions_aligned a ->
  (forall m, In m (MatchFn.iteration_masks E a) -> 3 <= count_true m) ->
  exists b st, MatchFn.match_ E a = Ok (Some b)
    /\ snd (MatchFn.iterate E a p 4 (Prep.idx0 p)) = Ok (Some st)
    /\ C_params b = fit_params st /\ b_idx b = fit_idx st
    /\ b_idx0 b = Prep.idx0 p /\ b_zero_model b = fit_zero_model st.
Proof.
  intros Hp Hs Hal Hm.
  destruct (MatchFacts.prepare_shape E a p Hp) as (Hrows & Hlen & _).
  destruct (MatchFacts.iterate_ok E a p Hs Hrows Hlen 4 (Prep.idx0 p) eq_refl)
    as (r & Hr & Hw).
  destruct r as [st|].
  - destruct (MatchFacts.export_ok E a p st (Hw st eq_refl) Hal)
      as (b & Hb & H1 & H2 & H3 & H4).
    exists b, st. rewrite (match_prepared p Hp), Hr. cbn. rewrite Hb. cbn.
    repeat split; assumption.
  - exfalso. apply (proj1 (MatchFacts.iterate_none_iff E a p 4 (Prep.idx0 p))) in Hr.
    destruct Hr as (m & Hin & Hlt). rewrite <- (masks_prepared p Hp) in Hin.
    specialize (Hm m Hin). lia.
Qed.

End Run.
End MatchRun.

(** C2. [match] returns the failure result [None] exactly when an iteration
    of the refinement loop starts with fewer than 3 active points; it does
    so whenever the cross-match is empty; and when no iteration starts with
    fewer than 3 (the arrays having been built, the solver returning one
    coefficient per column, [obj_x] and [obj_y] of one length) it returns a
    bundle. *)
Theorem C2_too_few_points (E : Env) (a : MatchArgs.t) :
  (MatchFn.match_ E a = Ok None
   <-> exists m, In m (MatchFn.iteration_masks E a) /\ count_true m < 3)
  /\ (MatchFn.matches E a = [] -> MatchFn.match_ E a = Ok None)
  /\ (forall p, MatchFn.prepare E a = Ok p ->
        solver_contract (sm E) -> MatchFn.positions_aligned a ->
        (forall m, In m (MatchFn.iteration_masks E a) -> 3 <= count_true m) ->
        exists b, MatchFn.match_ E a = Ok (Some b)).
Proof.
  split; [apply MatchRun.match_none_iff|]. split.
  - intros Hm. destruct (MatchFacts.prepare_no_match E a Hm) as (p & Hp & Hidx).
    apply MatchRun.match_none_iff. rewrite (MatchRun.masks_prepared E a p Hp).
    exists (Prep.idx0 p). split.
    + rewrite (MatchFacts.iterate_fail E a p 4 (Prep.idx0 p)); [now left|].
      rewrite Hidx. cbn. lia.
    + rewrite Hidx. cbn. lia.
  - intros p Hp Hs Hal Hm.
    destruct (MatchRun.match_some E a p Hp Hs Hal Hm) as (b & st & Hb & _). eauto.
Qed.

(** The recorded solver returns one coefficient per column. *)
Lemma demo_solver_contract : solver_contract (sm Demo.env).
Proof.
  intros ys X w _. cbn. unfold Demo.wls_constant, zeros_like.
  destruct (hd [] X) as [|c others]; cbn; now rewrite ?length_map.
Qed.

Lemma demo_prepare : exists p, MatchFn.prepare Demo.env Demo.match_args = Ok p.
Proof. vm_compute. eexists. reflexivity. Qed.

Lemma demo_prepare_once :
  exists p, MatchFn.prepare Demo.env Demo.match_args_once = Ok p
            /\ 3 <= count_true (Prep.idx0 p).
Proof. vm_compute. eexists. split; [reflexivity|]. cbn. repeat constructor. Qed.

Lemma demo_masks :
  map count_true (MatchFn.iteration_masks Demo.env Demo.match_args) = [8; 6; 7; 7; 7].
Proof. vm_compute. reflexivity. Qed.

(** C2 on the recorded fit: every iteration starts with at least 6 active
    points and a bundle is returned. *)
Lemma C2_too_few_points_witness :
  map count_true (MatchFn.iteration_masks Demo.env Demo.match_args) = [8; 6; 7; 7; 7]
  /\ exists b, MatchFn.match_ Demo.env Demo.match_args = Ok (Some b).
Proof.
  split; [exact demo_masks|].
  destruct demo_prepare as [p Hp].
  apply (proj2 (proj2 (C2_too_few_points Demo.env Demo.match_args)) p Hp
           demo_solver_contract I).
  intros m Hm.
  assert (Hc : In (count_true m)
                  (map count_true (MatchFn.iteration_masks Demo.env Demo.match_args)))
    by now apply in_map.
  rewrite demo_masks in Hc. cbn in Hc. lia.
Defined.

(** C3, as the code has it.  The first iteration starts with the base mask
    [idx0], and every iteration starts with a mask that selects only points
    of [idx0]; so the number of active points never exceeds that of [idx0]
    (it may go up from one later iteration to the next). *)
Theorem C3_active_mask_within_base (E : Env) (a : MatchArgs.t) (p : Prep.t) :
  MatchFn.prepare E a = Ok p ->
  hd_error (MatchFn.iteration_masks E a) = Some (Prep.idx0 p)
  /\ forall m, In m (MatchFn.iteration_masks E a) ->
       submask m (Prep.idx0 p) /\ count_true m <= count_true (Prep.idx0 p).
Proof.
  intros Hp. rewrite (MatchRun.masks_prepared E a p Hp). split.
  - apply MatchFacts.iterate_first.
  - intros m Hm.
    assert (Hs : submask m (Prep.idx0 p)).
    { apply (MatchFacts.iterate_submask E a p 4 (Prep.idx0 p));
        [apply MatchFacts.submask_refl|exact Hm]. }
    split; [exact Hs|now apply MatchFacts.submask_count].
Qed.

(** C3 on the recorded fit: five iterations, none with more active points
    than the 8 of [idx0]. *)
Lemma C3_active_mask_within_base_witness :
  exists p, MatchFn.prepare Demo.env Demo.match_args = Ok p
    /\ count_true (Prep.idx0 p) = 8
    /\ length (MatchFn.iteration_masks Demo.env Demo.match_args) = 5
    /\ Forall (fun m => count_true m <= count_true (Prep.idx0 p))
              (MatchFn.iteration_masks Demo.env Demo.match_args).
Proof.
  destruct demo_prepare as [p Hp]. exists p. split; [exact Hp|].
  pose proof (C3_active_mask_within_base Demo.env Demo.match_args p Hp) as [Hhd Hall].
  split; [|split].
  - assert (Hc : map count_true (MatchFn.iteration_masks Demo.env Demo.match_args)
                 = [8; 6; 7; 7; 7]) by exact demo_masks.
    destruct (MatchFn.iteration_masks Demo.env Demo.match_args) as [|m0 ms];
      [discriminate|].
    cbn in Hhd, Hc. injection Hhd as <-. now injection Hc.
  - rewrite <- (length_map count_true), demo_masks. reflexivity.
  - apply Forall_forall. intros m Hm. exact (proj2 (Hall m Hm)).
Defined.

(** C3 as stated fails: the number of active points is not non-increasing.
    In the recorded weighted fit ([threshold = 5 > 0]) the second iteration
    starts with 6 active points and the third with 7: the point at -4 is
    rejected around the first fit (2) and taken back around the second (0),
    the mask being recomputed from [idx0] each time. *)
Lemma C3_counterexample :
  (0 <? MatchArgs.threshold Demo.match_args)%float = true
  /\ exists m1 m2,
       nth_error (MatchFn.iteration_masks Demo.env Demo.match_args) 1 = Some m1
       /\ nth_error (MatchFn.iteration_masks Demo.env Demo.match_args) 2 = Some m2
       /\ count_true m1 = 6 /\ count_true m2 = 7
       /\ count_true m1 < count_true m2.
Proof.
  split; [reflexivity|]. vm_compute. eexists. eexists.
  split; [reflexivity|]. split; [reflexivity|]. split; [reflexivity|].
  split; [reflexivity|]. lia.
Qed.

(** C4. With a falsy [threshold] (0.0), once the arrays are built and
    [idx0] has at least 3 points, [match] runs exactly one iteration and one
    regression, on [idx0]; the coefficients of the returned bundle are
    those of the direct solve over [idx0], and the returned mask [idx] is
    [idx0]. *)
Theorem C4_single_pass (E : Env) (a : MatchArgs.t) (p : Prep.t) :
  truthy (MatchArgs.threshold a) = false ->
  MatchFn.prepare E a = Ok p ->
  3 <= count_true (Prep.idx0 p) ->
  solver_contract (sm E) -> MatchFn.positions_aligned a ->
  MatchFn.iteration_masks E a = [Prep.idx0 p]
  /\ MatchFn.regressions E a = [(Prep.idx0 p, MatchFn.direct_solve E a p)]
  /\ exists b, MatchFn.match_ E a = Ok (Some b)
               /\ C_params b = MatchFn.direct_solve E a p
               /\ b_idx b = Prep.idx0 p /\ b_idx0 b = Prep.idx0 p.
Proof.
  intros Ht Hp Hc Hs Hal.
  destruct (MatchFacts.prepare_shape E a p Hp) as (Hrows & Hlen & _).
  pose proof (MatchFacts.regress_length E a p Hs Hrows Hlen (Prep.idx0 p) Hc eq_refl)
    as Hreg.
  destruct (MatchFacts.rows_dot_ok (Prep.X p) (MatchFn.regress E a p (Prep.idx0 p)))
    as (zm & Hzm & _); [now rewrite Hreg|].
  pose proof (MatchFacts.iterate_last E a p 4 (Prep.idx0 p) zm Hc Hzm (or_introl Ht))
    as Hit.
  assert (Hmasks : MatchFn.iteration_masks E a = [Prep.idx0 p]).
  { rewrite (MatchRun.masks_prepared E a p Hp), Hit. reflexivity. }
  split; [exact Hmasks|]. split.
  - unfold MatchFn.regressions. rewrite (MatchRun.run_prepared E a p Hp).
    unfold MatchFn.fit. cbv zeta. cbn [fst]. rewrite Hit. reflexivity.
  - destruct (MatchRun.match_some E a p Hp Hs Hal) as (b & st & Hb & Hst & H1 & H2 & H3 & _).
    { intros m Hm. rewrite Hmasks in Hm. destruct Hm as [<-|[]]. exact Hc. }
    rewrite Hit in Hst. cbn [snd] in Hst. injection Hst as <-.
    exists b. split; [exact Hb|]. split; [exact H1|]. split; [|exact H3].
    rewrite H2. cbn [fit_idx]. unfold MatchFn.next_idx. cbv zeta. now rewrite Ht.
Qed.

(** C4 on the recorded fit with [threshold=0]: one regression, the weighted
    mean 2 of the eight points. *)
Lemma C4_single_pass_witness :
  exists p b,
    MatchFn.prepare Demo.env Demo.match_args_once = Ok p
    /\ MatchFn.regressions Demo.env Demo.match_args_once = [(Prep.idx0 p, [2%float])]
    /\ MatchFn.match_ Demo.env Demo.match_args_once = Ok (Some b)
    /\ C_params b = [2%float] /\ b_idx b = Prep.idx0 p.
Proof.
  destruct demo_prepare_once as (p & Hp & Hc). exists p.
  destruct (C4_single_pass Demo.env Demo.match_args_once p eq_refl Hp Hc
              demo_solver_contract I) as (_ & Hreg & b & Hb & HC & Hidx & _).
  exists b. split; [exact Hp|].
  assert (Hd : MatchFn.direct_solve Demo.env Demo.match_args_once p = [2%float]).
  { assert (Hr : map snd (MatchFn.regressions Demo.env Demo.match_args_once)
                 = [[2%float]]) by (vm_compute; reflexivity).
    rewrite Hreg in Hr. cbn in Hr. now injection Hr. }
  rewrite Hd in Hreg, HC. repeat split; assumption.
Defined.

(** ** The exported surface *)

Module ZeroFn.

Lemma make_series_length L mul x y order cols :
  make_series L mul x y order true = Ok cols ->
  length cols = spatial_width order.
Proof.
  unfold make_series. intros H.
  apply MatchFacts.bind_Ok in H as (res & Hres & H).
  apply MatchFacts.bind_Ok in Hres as (c & _ & [= <-]).
  apply MatchFacts.bind_Ok in H as (terms & Ht & [= <-]).
  apply MatchFacts.mapM_length in Ht. cbn. unfold spatial_width. now rewrite Ht.
Qed.

Lemma mapM_pure {A B : Type} (f : A -> outcome B) (g : A -> B) l :
  (forall v, In v l -> f v = Ok (g v)) -> mapM f l = Ok (map g l).
Proof.
  induction l as [|v l IH]; cbn; intros Hf; [reflexivity|].
  rewrite (Hf v (or_introl eq_refl)). cbn.
  rewrite IH by (intros; apply Hf; now right). reflexivity.
Qed.

(** The design matrix of order 0: one row [[1]] per position. *)
Lemma constant_matrix L (x y : list float) :
  bind (make_series L [1%float] x y 0 true) vstack_T
  = Ok (map (fun _ => [1%float]) x).
Proof.
  unfold make_series. rewrite MatchFacts.broadcast2_scalar_r.
  change (series_terms 0) with (@nil (Z * Z)).
  cbn [mapM bind app].
  unfold vstack_T. cbn [forallb]. rewrite Nat.eqb_refl. cbn [andb].
  f_equal. unfold ones_like. rewrite !length_map, map_map.
  apply ArrayFacts.map_seq_ext. intros i d Hi. cbn [map].
  rewrite (ArrayFacts.nth_map_in _ x i nan d Hi). reflexivity.
Qed.

Section Surface.
Variable E : Env.
Variable a : MatchArgs.t.
Variable p : Prep.t.

(** [zero_fn] reads the coefficients only through their first
    [spatial_width] entries. *)
Lemma zero_fn_slice C C' xx yy :
  firstn (spatial_width (MatchArgs.spatial_order a)) C
  = firstn (spatial_width (MatchArgs.spatial_order a)) C' ->
  MatchFn.zero_fn E a p C xx yy = MatchFn.zero_fn E a p C' xx yy.
Proof.
  intros H. unfold MatchFn.zero_fn. cbv zeta.
  destruct (make_series _ _ _ _ _ _) as [cols|e] eqn:Hcols; [|reflexivity].
  cbn [bind]. apply make_series_length in Hcols. now rewrite Hcols, H.
Qed.

(** Of order 0 the surface is the constant term, at every position. *)
Lemma zero_fn_constant c rest (x y : list float) :
  MatchArgs.spatial_order a = 0%Z ->
  (cols <- make_series (libm E) [1%float] x y (MatchArgs.spatial_order a) true ;;
   X <- vstack_T cols ;;
   rows_dot X (firstn (length cols) (c :: rest)))%py
  = Ok (map (fun _ => c) x).
Proof.
  intros ->.
  pose proof (constant_matrix (libm E) x y) as HX.
  destruct (make_series (libm E) [1%float] x y 0 true) as [cols|e] eqn:Hcols;
    [|discriminate].
  cbn [bind] in *. rewrite HX. cbn [bind].
  apply make_series_length in Hcols. rewrite Hcols. cbn [spatial_width firstn].
  change (length (series_terms 0)) with 0. cbn [firstn].
  unfold rows_dot. rewrite (mapM_pure _ (fun _ => c)).
  - now rewrite map_map.
  - intros row Hrow. apply in_map_iff in Hrow as (v & <- & _).
    rewrite MatchFacts.broadcast2_same by reflexivity.
    cbn. now rewrite FloatFacts.mul_one_l.
Qed.

(** The colour coefficient, when there is one, is the entry right after
    the spatial ones. *)
Lemma color_term_index C v :
  MatchFn.color_term E a C = Ok (Some v) ->
  nth_error C (spatial_width (MatchArgs.spatial_order a)) = Some v.
Proof.
  unfold MatchFn.color_term. destruct (MatchArgs.cat_color a); [|discriminate].
  intros H. apply MatchFacts.bind_Ok in H as (X & HX & H).
  apply make_series_length in HX. rewrite HX in H.
  destruct (skipn _ C) as [|w r] eqn:Hs; [discriminate|]. injection H as ->.
  rewrite <- (firstn_skipn (spatial_width (MatchArgs.spatial_order a)) C), Hs.
  rewrite nth_error_app2; rewrite length_firstn.
  - assert (Hl : spatial_width (MatchArgs.spatial_order a) <= length C).
    { destruct (Nat.le_gt_cases (spatial_width (MatchArgs.spatial_order a)) (length C))
        as [Hle|Hgt]; [exact Hle|].
      rewrite skipn_all2 in Hs by lia. discriminate. }
    rewrite Nat.min_l by exact Hl. now rewrite Nat.sub_diag.
  - apply Nat.le_min_l.
Qed.

End Surface.
End ZeroFn.

(** C5. The exported [zero_fn] uses the coefficients only through the
    spatial ones (the first [spatial_width]); the colour coefficient, the
    entry after them, has no part in it.  With [spatial_order == 0] it
    returns the fitted constant term at every position [(x, y)], whatever
    the position -- in particular at the centroid -- and also when it is
    called without positions. *)
Theorem C5_zero_fn_positional (E : Env) (a : MatchArgs.t) (p : Prep.t) :
  (forall C C' xx yy,
      firstn (spatial_width (MatchArgs.spatial_order a)) C
      = firstn (spatial_width (MatchArgs.spatial_order a)) C' ->
      MatchFn.zero_fn E a p C xx yy = MatchFn.zero_fn E a p C' xx yy)
  /\ (forall C v, MatchFn.color_term E a C = Ok (Some v) ->
        nth_error C (spatial_width (MatchArgs.spatial_order a)) = Some v
        /\ forall v' xx yy,
             MatchFn.zero_fn E a p
               (firstn (spatial_width (MatchArgs.spatial_order a)) C ++ [v']) xx yy
             = MatchFn.zero_fn E a p C xx yy)
  /\ (MatchArgs.spatial_order a = 0%Z ->
      forall c rest,
        (forall xs ys, MatchFn.zero_fn E a p (c :: rest) (Some xs) (Some ys)
                       = Ok (map (fun _ => c) xs))
        /\ MatchFn.zero_fn E a p (c :: rest) (Some [Prep.x0 p]) (Some [Prep.y0 p])
           = Ok [c]
        /\ MatchFn.zero_fn E a p (c :: rest) None None
           = Ok (map (fun _ => c) (Prep.omag p))).
Proof.
  split; [apply ZeroFn.zero_fn_slice|]. split.
  - intros C v Hv. pose proof (ZeroFn.color_term_index E a C v Hv) as Hn.
    split; [exact Hn|]. intros v' xx yy. apply ZeroFn.zero_fn_slice.
    assert (Hl : spatial_width (MatchArgs.spatial_order a) < length C).
    { apply nth_error_Some. rewrite Hn. discriminate. }
    rewrite firstn_app, firstn_firstn, Nat.min_id, length_firstn, Nat.min_l by lia.
    rewrite Nat.sub_diag. cbn. now rewrite app_nil_r.
  - intros Ho c rest.
    assert (Hxy : forall xs ys, MatchFn.zero_fn E a p (c :: rest) (Some xs) (Some ys)
                                = Ok (map (fun _ => c) xs)).
    { intros xs ys. unfold MatchFn.zero_fn. cbv zeta. cbn [fst snd].
      rewrite (ZeroFn.zero_fn_constant E a c rest _ _ Ho). now rewrite map_map. }
    split; [exact Hxy|]. split; [apply Hxy|].
    unfold MatchFn.zero_fn. cbv zeta. cbn [fst snd].
    rewrite (ZeroFn.zero_fn_constant E a c rest _ _ Ho).
    unfold zeros_like. now rewrite map_map.
Qed.

(** C5 on the recorded fit with [threshold=0]: the returned [zero_fn] gives
    the constant 2 at the three positions asked for. *)
Lemma C5_zero_fn_positional_witness :
  exists b, MatchFn.match_ Demo.env Demo.match_args_once = Ok (Some b)
    /\ C_params b = [2%float]
    /\ b_zero_fn b (Some [0; 5; 11]%float) (Some [3; 7; 1]%float)
       = Ok [2; 2; 2]%float.
Proof.
  destruct demo_prepare_once as (p & Hp & Hc).
  assert (Hb : exists b, MatchFn.match_ Demo.env Demo.match_args_once = Ok (Some b)
                 /\ C_params b = [2%float]
                 /\ b_zero_fn b = MatchFn.zero_fn Demo.env Demo.match_args_once p
                                    (C_params b)).
  { unfold MatchFn.match_. rewrite (MatchRun.run_prepared _ _ p Hp).
    revert Hp. vm_compute. intros [= <-].
    eexists. split; [reflexivity|]. split; reflexivity. }
  destruct Hb as (b & Hb & HC & Hfn). exists b.
  split; [exact Hb|]. split; [exact HC|].
  rewrite Hfn, HC.
  exact (proj1 (proj2 (proj2 (C5_zero_fn_positional Demo.env Demo.match_args_once p))
                 eq_refl 2%float []) [0; 5; 11]%float [3; 7; 1]%float).
Defined.

(** ** get_objects_sep in the store *)

Module StoreFacts.

Ltac decide_eqb :=
  repeat match goal with
    | |- context [Nat.eqb ?u ?u] => rewrite (Nat.eqb_refl u)
    | |- context [Nat.eqb ?u ?v] =>
        rewrite (proj2 (Nat.eqb_neq u v)) by lia
    end.

Section Measure.
Variable E : Env.

(** The part after the extraction returns what the value reading returns,
    writes only to the four arrays it allocates, and leaves the pixel stack
    alone. *)
Lemma measure_run (args : SepArgs.t) (w : world) :
  fst (GetObjectsSepStore.measure E args w) = GetObjectsSep.get_objects_sep E args
  /\ pixstack (snd (GetObjectsSepStore.measure E args w)) = pixstack w
  /\ extends (next w) w (snd (GetObjectsSepStore.measure E args w)).
Proof.
  unfold GetObjectsSepStore.measure, GetObjectsSep.get_objects_sep.
  destruct (negb (Z.eqb (SepArgs.minnthresh args) 0)) eqn:Hmin;
    destruct (py_inv (SepArgs.sn args)) as [lim|e] eqn:Hlim;
    repeat (progress
              (cbv beta iota zeta
                   delta [bindS alloc iand ior setitem load_B1 load_F1 load_I1 load
                          store ret lift heap next pixstack];
               decide_eqb));
    cbn [fst snd bind];
    (split; [|split; [reflexivity|split; [cbn; lia|intros l Hl; cbn; decide_eqb; reflexivity]]]).
  all: try reflexivity.
  all: unfold GetObjectsSep.table_rows, GetObjectsSep.fidx, GetObjectsSep.magerr,
         GetObjectsSep.mag, GetObjectsSep.flag, GetObjectsSep.flag0,
         GetObjectsSep.fwhm, GetObjectsSep.bgnorm, GetObjectsSep.bgflux,
         GetObjectsSep.radec, GetObjectsSep.positive, GetObjectsSep.flux,
         GetObjectsSep.fluxerr, GetObjectsSep.phot, GetObjectsSep.positions,
         GetObjectsSep.sel, GetObjectsSep.idx;
       rewrite Hmin; reflexivity.
Qed.

End Measure.
Lemma load_F2_run l w :
  load_F2 l w
  = (match heap w l with Some (NdF2 a) => Ok a | _ => Raise TypeError end, w).
Proof.
  unfold load_F2, bindS, load, ret, lift.
  destruct (heap w l) as [[a|a|a|a|a]|]; reflexivity.
Qed.

Lemma load_B2_run l w :
  load_B2 l w
  = (match heap w l with Some (NdB2 a) => Ok a | _ => Raise TypeError end, w).
Proof.
  unfold load_B2, bindS, load, ret, lift.
  destruct (heap w l) as [[a|a|a|a|a]|]; reflexivity.
Qed.

Section Call.
Variable E : Env.
Variable kw : SepArgs.t.
Variable image_ref : nat.
Variable mask_ref : option nat.

Local Abbreviation call := (GetObjectsSepStore.get_objects_sep E kw image_ref mask_ref).

Local Abbreviation body := (GetObjectsSepStore.body E kw).

Lemma body_run image mask w :
  fst (body image mask w)
  = GetObjectsSep.get_objects_sep E (GetObjectsSepStore.with_arrays kw image mask)
  /\ pixstack (snd (body image mask w))
     = (Z.of_nat (length image) * Z.of_nat (length (hd [] image)))%Z
  /\ extends (next w) w (snd (body image mask w)).
Proof.
  unfold GetObjectsSepStore.body, bindS, set_extract_pixstack. cbv zeta.
  destruct (measure_run E (GetObjectsSepStore.with_arrays kw image mask)
              {| pixstack := GetObjectsSep.pixstack_arg
                               (GetObjectsSepStore.with_arrays kw image mask);
                 next := next w; heap := heap w |}) as (Hres & Hpix & Hext).
  split; [exact Hres|]. split; [rewrite Hpix; reflexivity|exact Hext].
Qed.

Lemma call_body (w : world) (image : farray2) (mask : option barray2) :
  heap w image_ref = Some (NdF2 image) -> mask_at w mask_ref mask ->
  call w = body image mask w.
Proof.
  intros Himg Hmask.
  unfold GetObjectsSepStore.get_objects_sep. unfold bindS at 1.
  rewrite load_F2_run, Himg.
  unfold mask_at in Hmask. destruct mask_ref as [l|].
  - destruct Hmask as (m & Hm & ->).
    unfold bindS at 1. unfold bindS at 1. rewrite load_B2_run, Hm. reflexivity.
  - subst mask. reflexivity.
Qed.

(** The call is: read the image, read the mask if there is one, then the
    body; a failed read leaves the store as it was. *)
Lemma call_cases (w : world) :
  (exists e, call w = (Raise e, w))
  \/ (exists image mask,
        heap w image_ref = Some (NdF2 image) /\ mask_at w mask_ref mask
        /\ call w = body image mask w).
Proof.
  destruct (heap w image_ref) as [[image|a|a|a|a]|] eqn:Himg.
  2-6: left; unfold GetObjectsSepStore.get_objects_sep; unfold bindS at 1;
       rewrite load_F2_run, Himg; eexists; reflexivity.
  destruct mask_ref as [l|] eqn:Hm.
  - destruct (heap w l) as [[a|m|a|a|a]|] eqn:Hl.
    2: { right. exists image, (Some m).
         assert (Hat : mask_at w mask_ref (Some m)).
         { unfold mask_at. rewrite Hm. exists m. split; [exact Hl|reflexivity]. }
         split; [reflexivity|]. split; [rewrite <- Hm; exact Hat|].
         rewrite <- Hm. now apply call_body. }
    all: left; unfold GetObjectsSepStore.get_objects_sep; unfold bindS at 1;
         rewrite load_F2_run, Himg; unfold bindS at 1; unfold bindS at 1;
         rewrite load_B2_run, Hl; eexists; reflexivity.
  - right. exists image, None.
    assert (Hat : mask_at w mask_ref None) by (unfold mask_at; now rewrite Hm).
    split; [reflexivity|]. split; [rewrite <- Hm; exact Hat|].
    rewrite <- Hm. now apply call_body.
Qed.

(** Whatever the store holds, the call writes to no object allocated
    before it. *)
Lemma call_extends (w : world) : extends (next w) w (snd (call w)).
Proof.
  destruct (call_cases w) as [[e ->]|(image & mask & _ & _ & ->)].
  - split; [cbn; lia|reflexivity].
  - apply body_run.
Qed.

(** With the image (and the mask, if any) in the store, the call returns
    what the value reading returns and leaves the pixel stack at the number
    of pixels of the image. *)
Lemma call_run (w : world) (image : farray2) (mask : option barray2) :
  heap w image_ref = Some (NdF2 image) -> mask_at w mask_ref mask ->
  fst (call w)
  = GetObjectsSep.get_objects_sep E (GetObjectsSepStore.with_arrays kw image mask)
  /\ pixstack (snd (call w))
     = (Z.of_nat (length image) * Z.of_nat (length (hd [] image)))%Z.
Proof.
  intros Himg Hmask. rewrite (call_body w image mask Himg Hmask).
  split; apply body_run.
Qed.

End Call.
End StoreFacts.

(** C10 (as the code has it).  A call of [get_objects_sep] on a store in
    which the image and the mask are objects allocated before the call:
    the image and the mask hold after the call what they held before it, and
    so does every other object allocated before the call (the subtraction of
    the background and all writes in place go to arrays that the call
    itself creates); the result is the one of the value reading; and the one
    global that the call does write, the pixel stack of the extraction
    engine, is left at the number of pixels of the image. *)
Theorem C10_inputs_kept_pixstack_set (E : Env) (kw : SepArgs.t)
    (image_ref : nat) (mask_ref : option nat) (w : world)
    (image : farray2) (mask : option barray2) :
  heap w image_ref = Some (NdF2 image) ->
  mask_at w mask_ref mask ->
  image_ref < next w ->
  (forall l, mask_ref = Some l -> l < next w) ->
  let r := GetObjectsSepStore.get_objects_sep E kw image_ref mask_ref w in
  heap (snd r) image_ref = Some (NdF2 image)
  /\ mask_at (snd r) mask_ref mask
  /\ (forall l, l < next w -> heap (snd r) l = heap w l)
  /\ fst r = GetObjectsSep.get_objects_sep E
               (GetObjectsSepStore.with_arrays kw image mask)
  /\ pixstack (snd r)
     = (Z.of_nat (length image) * Z.of_nat (length (hd [] image)))%Z.
Proof.
  intros Himg Hmask Hi Hm r.
  destruct (StoreFacts.call_extends E kw image_ref mask_ref w) as [_ Hkeep].
  destruct (StoreFacts.call_run E kw image_ref mask_ref w image mask Himg Hmask)
    as [Hres Hpix].
  fold r in Hkeep, Hres, Hpix.
  split; [rewrite (Hkeep _ Hi); exact Himg|].
  split.
  { unfold mask_at in *. destruct mask_ref as [l|]; [|exact Hmask].
    destruct Hmask as (m & Hl & ->). exists m.
    split; [rewrite (Hkeep _ (Hm l eq_refl)); exact Hl|reflexivity]. }
  split; [exact Hkeep|]. split; [exact Hres|exact Hpix].
Qed.

(** The call on the 12 by 12 frame at address 0 of [Demo.world0]. *)
Lemma C10_inputs_kept_pixstack_set_witness :
  let r := GetObjectsSepStore.get_objects_sep Demo.env Demo.sep_args 0 None
             Demo.world0 in
  heap (snd r) 0 = Some (NdF2 Demo.frame)
  /\ mask_at (snd r) None None
  /\ (forall l, l < 1 -> heap (snd r) l = heap Demo.world0 l)
  /\ fst r = GetObjectsSep.get_objects_sep Demo.env
               (GetObjectsSepStore.with_arrays Demo.sep_args Demo.frame None)
  /\ pixstack (snd r) = (12 * 12)%Z.
Proof.
  exact (C10_inputs_kept_pixstack_set Demo.env Demo.sep_args 0 None
           Demo.world0 Demo.frame None eq_refl eq_refl (le_n 1)
           (fun l (H : None = Some l) =>
              match H in _ = o return match o with Some _ => l < 1 | None => True end
              with eq_refl => I end)).
Defined.

(** C10 as worded fails on its second half: the engine's pixel stack is
    state shared between invocations, and a call on a 12 by 12 frame
    leaves it at 144 where it was 300000 before. *)
Lemma C10_counterexample :
  pixstack Demo.world0 = 300000%Z
  /\ pixstack (snd (GetObjectsSepStore.get_objects_sep Demo.env Demo.sep_args 0
                      None Demo.world0)) = 144%Z
  /\ ~ (pixstack (snd (GetObjectsSepStore.get_objects_sep Demo.env Demo.sep_args 0
                         None Demo.world0)) = pixstack Demo.world0).
Proof.
  assert (H : pixstack (snd (GetObjectsSepStore.get_objects_sep Demo.env
                               Demo.sep_args 0 None Demo.world0)) = 144%Z).
  { destruct (StoreFacts.call_run Demo.env Demo.sep_args 0 None Demo.world0
                Demo.frame None eq_refl eq_refl) as [_ Hpix].
    exact Hpix. }
  split; [reflexivity|]. split; [exact H|].
  rewrite H. cbn. discriminate.
Qed.
(** * Further properties of the code *)

(** ** The rows of the extraction tables *)

Module RowFacts.

Lemma insert_asc_perm r l : Permutation (Tbl.insert_asc r l) (r :: l).
Proof.
  induction l as [|h l IH]; cbn; [reflexivity|].
  destruct (_ <=? _)%float; [reflexivity|].
  rewrite IH. apply perm_swap.
Qed.

Lemma argsort_asc_perm l : Permutation (Tbl.argsort_asc l) l.
Proof.
  induction l as [|h l IH]; cbn; [constructor|].
  rewrite insert_asc_perm. now constructor.
Qed.

Lemma sort_flux_reverse_perm l : Permutation (Tbl.sort_flux_reverse l) l.
Proof.
  unfold Tbl.sort_flux_reverse. rewrite <- Permutation_rev.
  apply argsort_asc_perm.
Qed.

Lemma ltb_irrefl (u : float) : (u <? u)%float = false.
Proof.
  rewrite ltb_spec. unfold SFltb, SFcompare.
  destruct (Prim2SF u) as [s|s| |s m e];
    try (destruct s; reflexivity); try reflexivity.
  destruct s; rewrite Z.compare_refl.
  - change (Pos.compare_cont Eq m m) with (Pos.compare m m).
    rewrite Pos.compare_refl. reflexivity.
  - rewrite Pos.compare_refl. reflexivity.
Qed.

(** [m | np.zeros_like(m)] is [m]. *)
Lemma mask_or_zeros (m : barray2) : mask_or m (map (map (fun _ => false)) m) = m.
Proof.
  unfold mask_or. induction m as [|row m IH]; cbn; [reflexivity|].
  f_equal; [|exact IH].
  clear. induction row as [|b row IH]; cbn; [reflexivity|].
  rewrite orb_false_r. now f_equal.
Qed.

Lemma nth_zeros {A : Type} (img : list (list A)) i j :
  nth j (nth i (map (map (fun _ => false)) img) []) false = false.
Proof.
  revert i j. induction img as [|row img IH]; intros [|i] j; cbn;
    try (destruct j; reflexivity); [|apply IH].
  revert j. induction row as [|v row IHr]; intros [|j]; cbn; try reflexivity.
  apply IHr.
Qed.

Section Sep.
Variable E : Env.
Variable a : SepArgs.t.

Local Abbreviation obj0 := (GetObjectsSep.obj0 E a).

Lemma idx_selected :
  GetObjectsSep.idx E a = map (SepFilter.selected E a) obj0.
Proof.
  unfold GetObjectsSep.idx, GetObjectsSep.idx_edge, GetObjectsSep.xwin,
    GetObjectsSep.ywin, SepFilter.selected.
  rewrite ArrayFacts.map2_map.
  destruct (negb (SepArgs.minnthresh a =? 0)%Z).
  - rewrite ArrayFacts.map2_map. reflexivity.
  - reflexivity.
Qed.

Lemma sel_filter :
  GetObjectsSep.sel E a obj0 = filter (SepFilter.selected E a) obj0.
Proof.
  unfold GetObjectsSep.sel. rewrite idx_selected.
  apply ArrayFacts.mask_select_filter.
Qed.

(** The table, object by object: the objects of the final extraction that
    pass the filters of lines 100-103 and the quality cut, measured, then
    sorted. *)
Lemma sep_table t :
  GetObjectsSep.get_objects_sep E a = Ok t ->
  Tbl.rows t
  = Tbl.sort_flux_reverse
      (map (GetObjectsSep.measurement E a)
           (filter (GetObjectsSep.keep E a (1 / SepArgs.sn a)%float)
                   (filter (SepFilter.selected E a) obj0)))
  /\ Tbl.meta_aper t = GetObjectsSep.aper1 E a
  /\ Tbl.meta_bkgann t = SepArgs.bkgann a
  /\ Tbl.extra_columns t = [].
Proof.
  unfold GetObjectsSep.get_objects_sep, bind.
  destruct (py_inv (SepArgs.sn a)) as [lim|e] eqn:Hlim; [|discriminate].
  apply ExtractFacts.py_inv_Ok in Hlim. subst lim.
  intros [= <-]. cbn [Tbl.rows Tbl.meta_aper Tbl.meta_bkgann Tbl.extra_columns].
  rewrite SepFacts.table_rows_by_object, sel_filter. repeat split.
Qed.

End Sep.

Section Sex.
Variable E : Env.
Variable a : SexArgs.t.

(** The table of a result, catalogue row by catalogue row. *)
Lemma sex_table_rows res t :
  GetObjectsSextractor.get_objects_sextractor E a = Ok res ->
  sex_table res = Some t ->
  exists bin,
    GetObjectsSextractor.binname E = Some bin
    /\ os_system (os E) (GetObjectsSextractor.run E a bin) = 0%Z
    /\ let kept :=
         filter (GetObjectsSextractor.keep a (1 / SexArgs.sn a)%float)
                (getdata_catalog (os E) (GetObjectsSextractor.run E a bin)) in
       Tbl.rows t
       = Tbl.sort_flux_reverse (map (GetObjectsSextractor.measurement E a) kept)
       /\ Tbl.extra_columns t
          = map (fun p => (p, map (fun row => EXTRA row p) kept))
                (SexArgs.extra_params a)
       /\ Tbl.meta_aper t = SexArgs.aper a.
Proof.
  unfold GetObjectsSextractor.get_objects_sextractor.
  destruct (GetObjectsSextractor.binname E) as [bin|];
    [|intros [= <-]; discriminate].
  cbv zeta. unfold bind.
  destruct (Z.eqb _ 0) eqn:Hres0.
  - unfold GetObjectsSextractor.read_catalog, bind. cbv zeta.
    destruct (py_inv (SexArgs.sn a)) as [lim|e] eqn:Hlim; [|discriminate].
    apply ExtractFacts.py_inv_Ok in Hlim. subst lim.
    intros Hres Ht. exists bin. split; [reflexivity|].
    split; [now apply Z.eqb_eq|].
    assert (Ht' : Some t = Some
              {| Tbl.rows := Tbl.sort_flux_reverse
                   (GetObjectsSextractor.table_rows E a
                      (mask_select
                         (GetObjectsSextractor.idx a
                            (getdata_catalog (os E) (GetObjectsSextractor.run E a bin))
                            (1 / SexArgs.sn a)%float)
                         (getdata_catalog (os E) (GetObjectsSextractor.run E a bin))));
                 Tbl.meta_aper := SexArgs.aper a;
                 Tbl.meta_bkgann := None;
                 Tbl.extra_columns :=
                   map (fun p => (p, map (fun row => EXTRA row p)
                      (mask_select
                         (GetObjectsSextractor.idx a
                            (getdata_catalog (os E) (GetObjectsSextractor.run E a bin))
                            (1 / SexArgs.sn a)%float)
                         (getdata_catalog (os E) (GetObjectsSextractor.run E a bin)))))
                       (SexArgs.extra_params a) |}).
    { destruct (SexArgs.checkimages a); injection Hres as <-;
        cbn in Ht; rewrite <- Ht; reflexivity. }
    injection Ht' as ->.
    cbn [Tbl.rows Tbl.extra_columns Tbl.meta_aper].
    rewrite SexFacts.table_rows_by_row, SexFacts.idx_eq,
      ArrayFacts.mask_select_filter.
    repeat split.
  - intros Hres Ht. destruct (SexArgs.checkimages a); injection Hres as <-;
      discriminate.
Qed.

Lemma sex_row_in res t r :
  GetObjectsSextractor.get_objects_sextractor E a = Ok res ->
  sex_table res = Some t -> In r (Tbl.rows t) ->
  exists bin c,
    GetObjectsSextractor.binname E = Some bin
    /\ In c (getdata_catalog (os E) (GetObjectsSextractor.run E a bin))
    /\ GetObjectsSextractor.keep a (1 / SexArgs.sn a)%float c = true
    /\ r = GetObjectsSextractor.measurement E a c.
Proof.
  intros Hres Ht Hr.
  destruct (sex_table_rows res t Hres Ht) as (bin & Hbin & _ & Hrows & _).
  rewrite Hrows in Hr. apply -> TblFacts.sort_flux_reverse_In in Hr.
  apply in_map_iff in Hr as (c & <- & Hc). apply filter_In in Hc as [Hc Hk].
  now exists bin, c.
Qed.

End Sex.

End RowFacts.

(** The rows of the table of [get_objects_sep] are, in some order, the
    measurements of the objects of the final extraction that pass the edge
    and [tnpix] filters (lines 100-103) and the quality cut: the sort
    neither drops nor repeats a measurement, and the table never has more
    rows than the extraction has objects. *)
Theorem sep_rows_permutation (E : Env) (a : SepArgs.t) (t : Tbl.t) :
  GetObjectsSep.get_objects_sep E a = Ok t ->
  Permutation (Tbl.rows t)
    (map (GetObjectsSep.measurement E a)
         (filter (GetObjectsSep.keep E a (1 / SepArgs.sn a)%float)
                 (filter (SepFilter.selected E a) (GetObjectsSep.obj0 E a))))
  /\ length (Tbl.rows t) <= length (GetObjectsSep.obj0 E a).
Proof.
  intros Ht. destruct (RowFacts.sep_table E a t Ht) as (Hrows & _).
  assert (Hp := RowFacts.sort_flux_reverse_perm
                  (map (GetObjectsSep.measurement E a)
                     (filter (GetObjectsSep.keep E a (1 / SepArgs.sn a)%float)
                        (filter (SepFilter.selected E a) (GetObjectsSep.obj0 E a))))).
  rewrite <- Hrows in Hp. split; [exact Hp|].
  rewrite (Permutation_length Hp), length_map.
  etransitivity; [apply filter_length_le|apply filter_length_le].
Qed.

(** On the recorded run: three rows out of the five objects of the final
    extraction. *)
Lemma sep_rows_permutation_witness :
  Permutation (Tbl.rows Demo.sep_table)
    (map (GetObjectsSep.measurement Demo.env Demo.sep_args)
         (filter (GetObjectsSep.keep Demo.env Demo.sep_args
                    (1 / SepArgs.sn Demo.sep_args)%float)
                 (filter (SepFilter.selected Demo.env Demo.sep_args)
                         (GetObjectsSep.obj0 Demo.env Demo.sep_args))))
  /\ length (Tbl.rows Demo.sep_table)
     <= length (GetObjectsSep.obj0 Demo.env Demo.sep_args).
Proof.
  exact (sep_rows_permutation Demo.env Demo.sep_args Demo.sep_table demo_sep_run).
Defined.

(** With [edge] and the sides of the image small enough to be floats
    exactly, every row that [get_objects_sep] returns lies inside the frame,
    more than [edge] away from its borders after rounding (line 100), and
    comes from an object with at least [minnthresh] pixels above the
    threshold when [minnthresh] is not 0 (lines 102-103). *)
Theorem sep_rows_inside_frame (E : Env) (a : SepArgs.t) (t : Tbl.t) (r : Tbl.row) :
  exact_in 53 (SepArgs.edge a) ->
  exact_in 53 (Z.of_nat (length (hd [] (SepArgs.image a))) - SepArgs.edge a) ->
  exact_in 53 (Z.of_nat (length (SepArgs.image a)) - SepArgs.edge a) ->
  GetObjectsSep.get_objects_sep E a = Ok t -> In r (Tbl.rows t) ->
  ((Z2F (SepArgs.edge a) <? round (libm E) (Tbl.x r))%float = true
   /\ (Z2F (SepArgs.edge a) <? round (libm E) (Tbl.y r))%float = true
   /\ (round (libm E) (Tbl.x r)
       <? Z2F (Z.of_nat (length (hd [] (SepArgs.image a))) - SepArgs.edge a))%float = true
   /\ (round (libm E) (Tbl.y r)
       <? Z2F (Z.of_nat (length (SepArgs.image a)) - SepArgs.edge a))%float = true)
  /\ exists o, In o (GetObjectsSep.obj0 E a)
       /\ Tbl.x r = o_x o /\ Tbl.y r = o_y o
       /\ (SepArgs.minnthresh a <> 0%Z -> (SepArgs.minnthresh a <= o_tnpix o)%Z).
Proof.
  intros _ _ _ Ht Hr. destruct (RowFacts.sep_table E a t Ht) as (Hrows & _).
  rewrite Hrows in Hr. apply -> TblFacts.sort_flux_reverse_In in Hr.
  apply in_map_iff in Hr as (o & <- & Ho).
  apply filter_In in Ho as [Ho _]. apply filter_In in Ho as [Ho Hsel].
  cbn [GetObjectsSep.measurement Tbl.x Tbl.y].
  assert (Hin : SepFilter.inside E a (o_x o) (o_y o) = true
                /\ (SepArgs.minnthresh a <> 0%Z
                    -> (SepArgs.minnthresh a <= o_tnpix o)%Z)).
  { unfold SepFilter.selected in Hsel.
    destruct (Z.eqb_spec (SepArgs.minnthresh a) 0) as [Hz|Hz]; cbn [negb] in Hsel.
    - split; [exact Hsel|]. intros Hne. now destruct Hne.
    - apply andb_prop in Hsel as [Hi Hn]. split; [exact Hi|].
      intros _. now apply Z.leb_le. }
  destruct Hin as [Hin Hn]. unfold SepFilter.inside in Hin.
  apply andb_prop in Hin as [Hin H4]. apply andb_prop in Hin as [Hin H3].
  apply andb_prop in Hin as [H1 H2].
  split; [repeat split; assumption|].
  exists o. repeat split; assumption.
Qed.

(** On the recorded run, [edge=0] on a 12 by 12 frame. *)
Lemma sep_rows_inside_frame_witness :
  Forall (fun r =>
            (0 <? Tbl.x r)%float = true /\ (0 <? Tbl.y r)%float = true
            /\ (Tbl.x r <? 12)%float = true /\ (Tbl.y r <? 12)%float = true)
         (Tbl.rows Demo.sep_table).
Proof.
  assert (H0 : exact_in 53 0) by (vm_compute; discriminate).
  assert (H12 : exact_in 53 12) by (vm_compute; discriminate).
  apply Forall_forall. intros r Hr.
  exact (proj1 (sep_rows_inside_frame Demo.env Demo.sep_args Demo.sep_table r
                  H0 H12 H12 demo_sep_run Hr)).
Defined.

(** The aperture that [get_objects_sep] uses and reports in [meta['aper']]
    is never below the one asked for: it is [aper] itself without
    [use_fwhm], and [max(1.5*fwhm, aper)] with it. *)
Theorem sep_aperture_not_reduced (E : Env) (a : SepArgs.t) :
  (GetObjectsSep.aper1 E a <? SepArgs.aper a)%float = false
  /\ (SepArgs.use_fwhm a = false -> GetObjectsSep.aper1 E a = SepArgs.aper a)
  /\ (forall t, GetObjectsSep.get_objects_sep E a = Ok t ->
        Tbl.meta_aper t = GetObjectsSep.aper1 E a
        /\ (Tbl.meta_aper t <? SepArgs.aper a)%float = false).
Proof.
  assert (H1 : (GetObjectsSep.aper1 E a <? SepArgs.aper a)%float = false).
  { unfold GetObjectsSep.aper1. destruct (SepArgs.use_fwhm a).
    - cbv zeta. unfold py_max.
      match goal with |- ((if ?c then _ else _) <? _)%float = _ =>
        destruct c eqn:Hc end.
      + apply RowFacts.ltb_irrefl.
      + exact Hc.
    - apply RowFacts.ltb_irrefl. }
  split; [exact H1|]. split.
  - intros Hf. unfold GetObjectsSep.aper1. now rewrite Hf.
  - intros t Ht. destruct (RowFacts.sep_table E a t Ht) as (_ & Ha & _).
    rewrite Ha. split; [reflexivity|exact H1].
Qed.

(** The sky position of every row of [get_objects_sep] is the image of
    the row's own pixel position, with origin 0, under the [wcs] given, or
    else under the WCS built from the [header] given; with neither, [ra]
    and [dec] are 0. *)
Theorem sep_world_coordinates (E : Env) (a : SepArgs.t) (t : Tbl.t) (r : Tbl.row) :
  GetObjectsSep.get_objects_sep E a = Ok t -> In r (Tbl.rows t) ->
  (Tbl.ra r, Tbl.dec r)
  = match SepArgs.wcs a, SepArgs.header a with
    | Some w, _ => w (Tbl.x r) (Tbl.y r) 0%Z
    | None, Some h => WCS (astropy E) h (Tbl.x r) (Tbl.y r) 0%Z
    | None, None => (0, 0)%float
    end.
Proof.
  intros Ht Hr. destruct (RowFacts.sep_table E a t Ht) as (Hrows & _).
  rewrite Hrows in Hr. apply -> TblFacts.sort_flux_reverse_In in Hr.
  apply in_map_iff in Hr as (o & <- & _).
  cbn [GetObjectsSep.measurement Tbl.x Tbl.y Tbl.ra Tbl.dec].
  unfold GetObjectsSep.radec_of, GetObjectsSep.wcs1.
  destruct (SepArgs.wcs a) as [w|], (SepArgs.header a) as [h|];
    try reflexivity; symmetry; apply surjective_pairing.
Qed.

(** On the recorded run, made without [wcs] and without [header]. *)
Lemma sep_world_coordinates_witness :
  Forall (fun r => (Tbl.ra r, Tbl.dec r) = (0, 0)%float) (Tbl.rows Demo.sep_table).
Proof.
  apply Forall_forall. intros r Hr.
  exact (sep_world_coordinates Demo.env Demo.sep_args Demo.sep_table r
           demo_sep_run Hr).
Defined.

(** Without [use_mask_large] the mask of the final extraction and of the
    aperture photometry is the caller's mask, and an all-false mask when
    the caller gave none. *)
Theorem sep_mask_without_large (E : Env) (a : SepArgs.t) :
  SepArgs.use_mask_large a = false ->
  GetObjectsSep.mask_all E a = GetObjectsSep.mask1 a
  /\ (forall m, SepArgs.mask a = Some m -> GetObjectsSep.mask_all E a = m)
  /\ (SepArgs.mask a = None ->
      length (GetObjectsSep.mask_all E a) = length (SepArgs.image a)
      /\ forall i j, nth j (nth i (GetObjectsSep.mask_all E a) []) false = false).
Proof.
  intros Hl.
  assert (H : GetObjectsSep.mask_all E a = GetObjectsSep.mask1 a).
  { unfold GetObjectsSep.mask_all, GetObjectsSep.mask_segm. rewrite Hl.
    unfold GetObjectsSep.mask_segm0, GetObjectsSep.mask_bg.
    rewrite !RowFacts.mask_or_zeros. reflexivity. }
  split; [exact H|]. rewrite H. unfold GetObjectsSep.mask1. split.
  - intros m ->. reflexivity.
  - intros ->. split; [apply length_map|]. intros i j. apply RowFacts.nth_zeros.
Qed.

(** A call with the default arguments on the 12 by 12 frame. *)
Lemma sep_mask_without_large_witness :
  GetObjectsSep.mask_all Demo.env (SepArgs.defaults Demo.frame)
  = GetObjectsSep.mask1 (SepArgs.defaults Demo.frame)
  /\ length (GetObjectsSep.mask_all Demo.env (SepArgs.defaults Demo.frame)) = 12.
Proof.
  destruct (sep_mask_without_large Demo.env (SepArgs.defaults Demo.frame) eq_refl)
    as (H & _ & Hn).
  split; [exact H|]. exact (proj1 (Hn eq_refl)).
Defined.

(** ** The SExtractor front end *)

Module SearchFacts.
Section Probe.
Variable E : Env.

Local Abbreviation probe := (GetObjectsSextractor.probe E).
Local Abbreviation join := GetObjectsSextractor.join.

(** The inner loop keeps the name it came with unless it finds a file. *)
Lemma probe_acc path exes b :
  probe path exes b
  = match probe path exes None with Some x => Some x | None => b end.
Proof.
  induction exes as [|e exes IH]; cbn; [reflexivity|].
  destruct (isfile (os E) _); [reflexivity|exact IH].
Qed.

Lemma probe_None path exes :
  probe path exes None = None
  <-> forall e, In e exes -> isfile (os E) (join path e) = false.
Proof.
  induction exes as [|e exes IH]; cbn.
  - split; [intros _ e []|reflexivity].
  - destruct (isfile (os E) (join path e)) eqn:He.
    + split; [discriminate|]. intros H. specialize (H e (or_introl eq_refl)).
      congruence.
    + rewrite IH. split.
      * intros H e' [<-|He']; [exact He|now apply H].
      * intros H e' He'. apply H. now right.
Qed.

Lemma probe_Some path exes b :
  probe path exes None = Some b ->
  isfile (os E) b = true /\ exists e, In e exes /\ b = join path e.
Proof.
  induction exes as [|e exes IH]; cbn; [discriminate|].
  destruct (isfile (os E) (join path e)) eqn:He.
  - intros [= <-]. split; [exact He|]. exists e. split; [now left|reflexivity].
  - intros H. destruct (IH H) as (Hb & e' & He' & ->).
    split; [exact Hb|]. exists e'. split; [now right|reflexivity].
Qed.

End Probe.
End SearchFacts.

(** The search for the SExtractor binary (lines 160-165).  The [break]
    leaves only the loop over the executable names, so the loop over the
    directories runs to its end and a later directory overrides an earlier
    one: the binary is the first name found in the last directory that has
    one.  The search fails exactly when none of the twelve paths is a file,
    and the call then returns [None], whatever else was asked for. *)
Theorem sextractor_binary_search (E : Env) :
  let found := fun d => GetObjectsSextractor.probe E d sex_exes None in
  GetObjectsSextractor.binname E
  = match found "/opt/local/bin"%string with
    | Some b => Some b
    | None =>
        match found "/usr/local/bin"%string with
        | Some b => Some b
        | None =>
            match found "/usr/bin"%string with
            | Some b => Some b
            | None => found "."%string
            end
        end
    end
  /\ (GetObjectsSextractor.binname E = None
      <-> forall d e, In d sex_dirs -> In e sex_exes ->
            isfile (os E) (GetObjectsSextractor.join d e) = false)
  /\ (forall b, GetObjectsSextractor.binname E = Some b ->
        isfile (os E) b = true
        /\ exists d e, In d sex_dirs /\ In e sex_exes
                       /\ b = GetObjectsSextractor.join d e)
  /\ (forall a, GetObjectsSextractor.binname E = None ->
        GetObjectsSextractor.get_objects_sextractor E a = Ok (SexObj None)).
Proof.
  cbv zeta.
  assert (Hb : GetObjectsSextractor.binname E
    = match GetObjectsSextractor.probe E "/opt/local/bin" sex_exes None with
      | Some b => Some b
      | None =>
          match GetObjectsSextractor.probe E "/usr/local/bin" sex_exes None with
          | Some b => Some b
          | None =>
              match GetObjectsSextractor.probe E "/usr/bin" sex_exes None with
              | Some b => Some b
              | None => GetObjectsSextractor.probe E "." sex_exes None
              end
          end
      end).
  { unfold GetObjectsSextractor.binname, sex_exes. cbn [fold_left].
    rewrite (SearchFacts.probe_acc E "/opt/local/bin").
    rewrite (SearchFacts.probe_acc E "/usr/local/bin").
    rewrite (SearchFacts.probe_acc E "/usr/bin").
    reflexivity. }
  split; [exact Hb|]. split; [|split].
  - rewrite Hb. split.
    + intros H d e Hd He.
      destruct (GetObjectsSextractor.probe E "/opt/local/bin" sex_exes None) eqn:H4;
        [discriminate|].
      destruct (GetObjectsSextractor.probe E "/usr/local/bin" sex_exes None) eqn:H3;
        [discriminate|].
      destruct (GetObjectsSextractor.probe E "/usr/bin" sex_exes None) eqn:H2;
        [discriminate|].
      unfold sex_dirs in Hd. cbn [In] in Hd.
      destruct Hd as [<-|[<-|[<-|[<-|[]]]]];
        eapply SearchFacts.probe_None; eassumption.
    + intros H.
      assert (Hd : forall d, In d sex_dirs ->
                GetObjectsSextractor.probe E d sex_exes None = None).
      { intros d Hd. apply SearchFacts.probe_None. intros e He. now apply H. }
      rewrite !Hd by (unfold sex_dirs; cbn; tauto). reflexivity.
  - intros b. rewrite Hb. intros H.
    assert (Hd : exists d, In d sex_dirs
                /\ GetObjectsSextractor.probe E d sex_exes None = Some b).
    { destruct (GetObjectsSextractor.probe E "/opt/local/bin" sex_exes None) eqn:H4;
        [exists "/opt/local/bin"%string; split;
           [unfold sex_dirs; cbn; tauto|congruence]|].
      destruct (GetObjectsSextractor.probe E "/usr/local/bin" sex_exes None) eqn:H3;
        [exists "/usr/local/bin"%string; split;
           [unfold sex_dirs; cbn; tauto|congruence]|].
      destruct (GetObjectsSextractor.probe E "/usr/bin" sex_exes None) eqn:H2;
        [exists "/usr/bin"%string; split;
           [unfold sex_dirs; cbn; tauto|congruence]|].
      exists "."%string. split; [unfold sex_dirs; cbn; tauto|exact H]. }
    destruct Hd as (d & Hd & Hp).
    destruct (SearchFacts.probe_Some E d sex_exes b Hp) as (Hf & e & He & ->).
    split; [exact Hf|]. now exists d, e.
  - intros a H. unfold GetObjectsSextractor.get_objects_sextractor.
    now rewrite H.
Qed.

(** With [edge] and the sides of the image small enough to be floats
    exactly, in single as in double precision, every row of the table of
    [get_objects_sextractor] comes from a row [c] of the catalogue that lies
    more than [edge] inside the frame in the one-based pixel coordinates of
    SExtractor; the row has the zero-based position [X_IMAGE - 1],
    [Y_IMAGE - 1], and its sky position is the image of the one-based
    position under the [wcs] given, or else under the WCS of the [header],
    with origin 1 (0 and 0 with neither). *)
Theorem sextractor_rows_inside_frame (E : Env) (a : SexArgs.t) (res : sex_result)
    (t : Tbl.t) (r : Tbl.row) :
  exact_in 24 (SexArgs.edge a) ->
  exact_in 24 (Z.of_nat (length (hd [] (SexArgs.image a))) - SexArgs.edge a) ->
  exact_in 24 (Z.of_nat (length (SexArgs.image a)) - SexArgs.edge a) ->
  GetObjectsSextractor.get_objects_sextractor E a = Ok res ->
  sex_table res = Some t -> In r (Tbl.rows t) ->
  exists bin c,
    GetObjectsSextractor.binname E = Some bin
    /\ In c (getdata_catalog (os E) (GetObjectsSextractor.run E a bin))
    /\ Tbl.x r = (X_IMAGE c - 1)%float /\ Tbl.y r = (Y_IMAGE c - 1)%float
    /\ (Z2F (SexArgs.edge a) <? X_IMAGE c)%float = true
    /\ (X_IMAGE c
        <? Z2F (Z.of_nat (length (hd [] (SexArgs.image a))) - SexArgs.edge a))%float
       = true
    /\ (Z2F (SexArgs.edge a) <? Y_IMAGE c)%float = true
    /\ (Y_IMAGE c
        <? Z2F (Z.of_nat (length (SexArgs.image a)) - SexArgs.edge a))%float = true
    /\ (Tbl.ra r, Tbl.dec r)
       = match SexArgs.wcs a, SexArgs.header a with
         | Some w, _ => w (X_IMAGE c) (Y_IMAGE c) 1%Z
         | None, Some h => WCS (astropy E) h (X_IMAGE c) (Y_IMAGE c) 1%Z
         | None, None => (0, 0)%float
         end.
Proof.
  intros _ _ _ Hres Ht Hr.
  destruct (RowFacts.sex_row_in E a res t r Hres Ht Hr)
    as (bin & c & Hbin & Hc & Hk & ->).
  exists bin, c. split; [exact Hbin|]. split; [exact Hc|].
  unfold GetObjectsSextractor.keep in Hk.
  apply andb_prop in Hk as [Hk _]. apply andb_prop in Hk as [Hk _].
  apply andb_prop in Hk as [Hx Hy].
  apply andb_prop in Hx as [Hx1 Hx2]. apply andb_prop in Hy as [Hy1 Hy2].
  cbn [GetObjectsSextractor.measurement Tbl.x Tbl.y Tbl.ra Tbl.dec].
  repeat (split; [first [reflexivity|assumption]|]).
  unfold GetObjectsSextractor.radec_of, GetObjectsSextractor.wcs1.
  destruct (SexArgs.wcs a) as [w|], (SexArgs.header a) as [h|];
    try reflexivity; symmetry; apply surjective_pairing.
Qed.

(** On the recorded run every row is some catalogue row moved by one pixel. *)
Lemma sextractor_rows_inside_frame_witness :
  Forall (fun r =>
            exists c, In c Demo.catalog
              /\ Tbl.x r = (X_IMAGE c - 1)%float /\ Tbl.y r = (Y_IMAGE c - 1)%float
              /\ (0 <? X_IMAGE c)%float = true /\ (X_IMAGE c <? 12)%float = true)
         (Tbl.rows Demo.sex_table).
Proof.
  assert (H0 : exact_in 24 0) by (vm_compute; discriminate).
  assert (H12 : exact_in 24 12) by (vm_compute; discriminate).
  apply Forall_forall. intros r Hr.
  destruct (sextractor_rows_inside_frame Demo.env Demo.sex_args _ Demo.sex_table r
              H0 H12 H12 demo_sex_run eq_refl Hr)
    as (bin & c & _ & Hc & Hx & Hy & Hx1 & Hx2 & _).
  exists c. split; [exact Hc|]. split; [exact Hx|]. split; [exact Hy|].
  split; [exact Hx1|exact Hx2].
Defined.

(** The flags of every row of [get_objects_sextractor] are the catalogue's
    [FLAGS] with bit 8 (the value 256) set in addition when the flag image
    is non-zero under the object ([IMAFLAGS_ISO > 0]); no other bit is
    changed. *)
Theorem sextractor_flag_image_bit (E : Env) (a : SexArgs.t) (res : sex_result)
    (t : Tbl.t) (r : Tbl.row) :
  GetObjectsSextractor.get_objects_sextractor E a = Ok res ->
  sex_table res = Some t -> In r (Tbl.rows t) ->
  exists bin c,
    GetObjectsSextractor.binname E = Some bin
    /\ In c (getdata_catalog (os E) (GetObjectsSextractor.run E a bin))
    /\ Tbl.x r = (X_IMAGE c - 1)%float /\ Tbl.y r = (Y_IMAGE c - 1)%float
    /\ Tbl.flux r = FLUX_APER c
    /\ forall n : Z,
         Z.testbit (Tbl.flags r) n
         = Z.testbit (FLAGS c) n || ((n =? 8)%Z && (0 <? IMAFLAGS_ISO c)%Z).
Proof.
  intros Hres Ht Hr.
  destruct (RowFacts.sex_row_in E a res t r Hres Ht Hr)
    as (bin & c & Hbin & Hc & _ & ->).
  exists bin, c. split; [exact Hbin|]. split; [exact Hc|].
  cbn [GetObjectsSextractor.measurement Tbl.x Tbl.y Tbl.flux Tbl.flags].
  split; [reflexivity|]. split; [reflexivity|]. split; [reflexivity|].
  intros n. destruct (0 <? IMAFLAGS_ISO c)%Z.
  - rewrite Z.lor_spec, andb_true_r. f_equal.
    change 256%Z with (2 ^ 8)%Z. rewrite Z.pow2_bits_eqb by lia.
    apply Z.eqb_sym.
  - rewrite andb_false_r, orb_false_r. reflexivity.
Qed.

(** On the recorded run the row at (9, 3) comes from the one catalogue
    row with a non-zero flag image, and its flags are 256. *)
Lemma sextractor_flag_image_bit_witness :
  exists r, nth_error (Tbl.rows Demo.sex_table) 2 = Some r
    /\ Tbl.flags r = 256%Z
    /\ exists c, In c Demo.catalog
         /\ Tbl.flux r = FLUX_APER c
         /\ forall n : Z,
              Z.testbit (Tbl.flags r) n
              = Z.testbit (FLAGS c) n || ((n =? 8)%Z && (0 <? IMAFLAGS_ISO c)%Z).
Proof.
  eexists. split; [reflexivity|]. split; [reflexivity|].
  destruct (sextractor_flag_image_bit Demo.env Demo.sex_args _ Demo.sex_table _
              demo_sex_run eq_refl
              (nth_error_In (Tbl.rows Demo.sex_table) 2 eq_refl))
    as (bin & c & _ & Hc & _ & _ & Hf & Hbits).
  exists c. split; [exact Hc|]. split; [exact Hf|exact Hbits].
Defined.



(** ** The large-object mask and make_series *)

Module SeriesFacts.

(** The number of terms of the double loop, for [order = n]. *)
Lemma series_terms_count (n : nat) :
  2 * length (series_terms (Z.of_nat n)) = n * (n + 3).
Proof.
  unfold series_terms, Zrange.
  replace (Z.to_nat (Z.of_nat n + 1 - 1)) with n by lia.
  induction n as [|n IH]; [reflexivity|].
  rewrite seq_S, map_app, flat_map_app, length_app. cbn [map flat_map plus].
  rewrite app_nil_r, !length_map, length_seq. lia.
Qed.

Lemma series_terms_none (order : Z) : (order <= 0)%Z -> series_terms order = [].
Proof.
  intros H. unfold series_terms, Zrange.
  replace (Z.to_nat (order + 1 - 1)) with 0 by lia. reflexivity.
Qed.

Lemma make_series_split L mul x y order zero cols :
  make_series L mul x y order zero = Ok cols ->
  length cols = (if zero then 1 else 0) + length (series_terms order).
Proof.
  unfold make_series. intros H.
  apply MatchFacts.bind_Ok in H as (res & Hres & H).
  apply MatchFacts.bind_Ok in H as (terms & Hterms & [= <-]).
  rewrite length_app, (MatchFacts.mapM_length _ _ _ Hterms).
  f_equal. destruct zero.
  - apply MatchFacts.bind_Ok in Hres as (c & _ & [= <-]). reflexivity.
  - injection Hres as <-. reflexivity.
Qed.

Lemma large_labels_In (n : Z) (npixs : list Z) : forall (k l : Z),
  In l (large_labels n k npixs)
  <-> exists i v, nth_error npixs i = Some v /\ (n < v)%Z
                  /\ l = (k + Z.of_nat i + 1)%Z.
Proof.
  induction npixs as [|v npixs IH]; intros k l; cbn [large_labels].
  - split; [intros []|]. intros ([|i] & v & H & _); discriminate.
  - assert (Hrest : In l (large_labels n (k + 1) npixs)
               <-> exists i v', nth_error (v :: npixs) (Datatypes.S i) = Some v'
                     /\ (n < v')%Z /\ l = (k + Z.of_nat (Datatypes.S i) + 1)%Z).
    { rewrite IH. split; intros (i & v' & Hi & Hv & ->); exists i, v';
        (split; [exact Hi|split; [exact Hv|lia]]). }
    destruct (Z.ltb_spec n v) as [Hlt|Hge].
    + cbn [In]. rewrite Hrest. split.
      * intros [<-|(i & v' & H)].
        -- exists 0, v. cbn. repeat split; [exact Hlt|lia].
        -- now exists (Datatypes.S i), v'.
      * intros ([|i] & v' & Hi & Hv & ->).
        -- left. lia.
        -- right. now exists i, v'.
    + rewrite Hrest. split.
      * intros (i & v' & H). now exists (Datatypes.S i), v'.
      * intros ([|i] & v' & Hi & Hv & ->).
        -- cbn in Hi. injection Hi as <-. lia.
        -- now exists i, v'.
Qed.

Lemma isin_nth (segm : iarray2) (labels : list Z) i j :
  nth j (nth i (isin segm labels) []) false = true
  <-> exists row s, nth_error segm i = Some row /\ nth_error row j = Some s
                    /\ In s labels.
Proof.
  unfold isin. split.
  - intros H.
    destruct (nth_error segm i) as [row|] eqn:Hrow.
    + destruct (nth_error row j) as [s|] eqn:Hs.
      * exists row, s. split; [reflexivity|]. split; [exact Hs|].
        rewrite (nth_error_nth (map _ segm) i []
                   (map_nth_error _ _ _ Hrow)) in H.
        rewrite (nth_error_nth (map _ row) j false
                   (map_nth_error _ _ _ Hs)) in H.
        apply existsb_exists in H as (s' & Hs' & Heq).
        apply Z.eqb_eq in Heq. now subst s'.
      * rewrite (nth_error_nth (map _ segm) i []
                   (map_nth_error _ _ _ Hrow)) in H.
        apply nth_error_None in Hs.
        rewrite nth_overflow in H by now rewrite length_map.
        discriminate.
    + apply nth_error_None in Hrow.
      rewrite (nth_overflow (map _ segm)) in H by now rewrite length_map.
      destruct j; discriminate.
  - intros (row & s & Hrow & Hs & Hin).
    rewrite (nth_error_nth (map _ segm) i [] (map_nth_error _ _ _ Hrow)).
    rewrite (nth_error_nth (map _ row) j false (map_nth_error _ _ _ Hs)).
    apply existsb_exists. exists s. split; [exact Hin|apply Z.eqb_refl].
Qed.

End SeriesFacts.

(** Under [use_mask_large] the mask [mask_segm] of [get_objects_sep] is
    the dilation, by a 10 by 10 box of ones, of the mask that marks the
    large objects of the first pass (lines 70-76): a pixel of that mask is
    set exactly when its label in the segmentation map of the first pass is
    the one-based index of an object of the first pass with more than
    [npix_large] pixels ([npix], not [tnpix]).  Without [use_mask_large],
    [mask_segm] has no set pixel. *)
Theorem large_object_mask (E : Env) (a : SepArgs.t) :
  (SepArgs.use_mask_large a = true ->
   exists large : barray2,
     GetObjectsSep.mask_segm E a = dilate (morph E) large ones_10_10
     /\ shape_of large = shape_of (snd (GetObjectsSep.first_pass E a))
     /\ forall i j,
          nth j (nth i large []) false = true
          <-> exists row s k o,
                nth_error (snd (GetObjectsSep.first_pass E a)) i = Some row
                /\ nth_error row j = Some s
                /\ nth_error (fst (GetObjectsSep.first_pass E a)) k = Some o
                /\ (SepArgs.npix_large a < o_npix o)%Z
                /\ s = (Z.of_nat k + 1)%Z)
  /\ (SepArgs.use_mask_large a = false ->
      forall i j, nth j (nth i (GetObjectsSep.mask_segm E a) []) false = false).
Proof.
  split; intros Hl; unfold GetObjectsSep.mask_segm; rewrite Hl.
  - eexists. split; [reflexivity|]. split.
    + unfold isin, shape_of. rewrite map_map. apply map_ext.
      intros row. apply length_map.
    + intros i j. rewrite SeriesFacts.isin_nth. split.
      * intros (row & s & Hrow & Hs & Hin).
        apply SeriesFacts.large_labels_In in Hin as (k & v & Hk & Hv & ->).
        rewrite nth_error_map in Hk.
        destruct (nth_error (fst (GetObjectsSep.first_pass E a)) k) as [o|] eqn:Ho;
          [|discriminate].
        cbn in Hk. injection Hk as <-.
        exists row, (0 + Z.of_nat k + 1)%Z, k, o.
        repeat split; assumption || lia.
      * intros (row & s & k & o & Hrow & Hs & Ho & Hv & ->).
        exists row, (Z.of_nat k + 1)%Z. split; [exact Hrow|]. split; [exact Hs|].
        apply SeriesFacts.large_labels_In. exists k, (o_npix o).
        split; [now rewrite nth_error_map, Ho|]. split; [exact Hv|lia].
  - intros i j. unfold GetObjectsSep.mask_segm0. apply RowFacts.nth_zeros.
Qed.

(** On the recorded run: the first pass finds the object of 200 pixels at
    (0, 0), with label 1, and the mask handed to the dilation has that one
    pixel. *)
Lemma large_object_mask_witness :
  exists large : barray2,
    GetObjectsSep.mask_segm Demo.env Demo.sep_args
    = dilate (morph Demo.env) large ones_10_10
    /\ nth 0 (nth 0 large []) false = true
    /\ nth 1 (nth 1 large []) false = false.
Proof.
  destruct (proj1 (large_object_mask Demo.env Demo.sep_args) eq_refl)
    as (large & Hmask & _ & Hpix).
  exists large. split; [exact Hmask|]. split.
  - apply Hpix.
    exists (nth 0 Demo.segmentation []), 1%Z, 0, (Demo.source 0 0 200).
    repeat split.
  - destruct (nth 1 (nth 1 large []) false) eqn:H; [|reflexivity].
    apply Hpix in H as (row & s & k & o & Hrow & Hs & _ & _ & Hk).
    vm_compute in Hrow. injection Hrow as <-.
    vm_compute in Hs. injection Hs as <-. lia.
Defined.

(** [make_series] returns one array per term of the polynomial: with
    [order >= 0] there are [(order+1)*(order+2)/2] of them with the
    constant term ([zero=True]) and [order*(order+3)/2] without it; with
    [order <= 0] only the constant term is left, if asked for. *)
Theorem make_series_term_count (L : Libm) (mul x y : list float) (order : Z)
    (zero : bool) (cols : list (list float)) :
  make_series L mul x y order zero = Ok cols ->
  ((0 <= order)%Z ->
   (2 * Z.of_nat (length cols)
    = if zero then (order + 1) * (order + 2) else order * (order + 3))%Z)
  /\ ((order <= 0)%Z -> length cols = if zero then 1 else 0).
Proof.
  intros H. apply SeriesFacts.make_series_split in H. split; intros Ho.
  - assert (Hc := SeriesFacts.series_terms_count (Z.to_nat order)).
    rewrite Z2Nat.id in Hc by exact Ho. destruct zero; nia.
  - rewrite H, (SeriesFacts.series_terms_none order Ho). now destruct zero.
Qed.

(** A series of order 2 on two points: six arrays. *)
Lemma make_series_term_count_witness :
  exists cols,
    make_series Demo.math [1%float] [1; 2]%float [3; 4]%float 2 true = Ok cols
    /\ (2 * Z.of_nat (length cols) = (2 + 1) * (2 + 2))%Z.
Proof.
  eexists. split; [vm_compute; reflexivity|].
  refine (proj1 (make_series_term_count Demo.math [1%float] [1; 2]%float
                   [3; 4]%float 2 true _ _) _).
  - vm_compute. reflexivity.
  - discriminate.
Defined.

(** ** The fit *)

Module FitFacts.

Lemma submask_nth (m m0 : list bool) (i : nat) :
  submask m m0 -> nth i m false = true -> nth i m0 false = true.
Proof.
  intros H. revert i. induction H as [|b b0 m m0 Hb _ IH]; intros [|i]; cbn;
    try discriminate; [exact Hb|apply IH].
Qed.

Lemma map2_andb_nth (u v : list bool) : forall i,
  nth i (map2 andb u v) false = true ->
  nth i u false = true /\ nth i v false = true.
Proof.
  revert v. induction u as [|x u IH]; intros [|y v] [|i]; cbn;
    try discriminate.
  - intros H. now apply andb_prop in H.
  - apply IH.
Qed.

Lemma map_nth_true {A : Type} (f : A -> bool) (l : list A) : forall i,
  nth i (map f l) false = true -> exists v, nth_error l i = Some v /\ f v = true.
Proof.
  induction l as [|x l IH]; intros [|i]; cbn; try discriminate.
  - intros H. now exists x.
  - apply IH.
Qed.

Lemma take_nth {A : Type} (l : list A) : forall idx r i v,
  take l idx = Ok r -> nth_error r i = Some v ->
  exists k, nth_error idx i = Some k /\ nth_error l k = Some v.
Proof.
  induction idx as [|k idx IH]; intros r i v H Hv; cbn in H.
  - injection H as <-. destruct i; discriminate.
  - destruct (nth_error l k) as [x|] eqn:Hx; [|discriminate].
    apply MatchFacts.bind_Ok in H as (r' & Hr' & [= <-]).
    destruct i as [|i]; cbn in Hv |- *.
    + injection Hv as <-. now exists k.
    + now apply (IH r').
Qed.

Lemma fits_of_round idx C rest :
  fits_of (IterStart idx :: Fit idx C :: rest) = (idx, C) :: fits_of rest.
Proof. reflexivity. Qed.

Lemma starts_of_round idx C rest :
  starts_of (IterStart idx :: Fit idx C :: rest) = idx :: starts_of rest.
Proof. reflexivity. Qed.

Section Loop.
Variable E : Env.
Variable a : MatchArgs.t.
Variable p : Prep.t.

Local Abbreviation iterate := (MatchFn.iterate E a p).
Local Abbreviation regress := (MatchFn.regress E a p).
Local Abbreviation next_idx := (MatchFn.next_idx a p).

(** The state that the loop leaves is that of its last regression. *)
Lemma iterate_result n : forall idx st,
  snd (iterate n idx) = Ok (Some st) ->
  exists earlier m,
    fits_of (fst (iterate n idx)) = earlier ++ [(m, fit_params st)]
    /\ fit_params st = regress m
    /\ rows_dot (Prep.X p) (fit_params st) = Ok (fit_zero_model st)
    /\ fit_idx st = next_idx (fit_zero_model st)
    /\ length (fits_of (fst (iterate n idx)))
       = if truthy (MatchArgs.threshold a) then Datatypes.S n else 1.
Proof.
  induction n as [|n IH]; intros idx st H.
  - destruct (MatchFacts.iterate_cases E a p 0 idx)
      as [(Hc & Heq)|[(Hc & e & Heq)|[(Hc & zm & Hzm & Hlast & Heq)
                                     |(Hc & zm & n' & Hzm & Ht & Hn & Heq)]]];
      rewrite Heq in H |- *; cbn [fst snd] in H |- *; try discriminate.
    injection H as <-. exists [], idx. cbn.
    repeat split; try assumption. now destruct (truthy _).
  - destruct (MatchFacts.iterate_cases E a p (Datatypes.S n) idx)
      as [(Hc & Heq)|[(Hc & e & Heq)|[(Hc & zm & Hzm & Hlast & Heq)
                                     |(Hc & zm & n' & Hzm & Ht & Hn & Heq)]]];
      rewrite Heq in H |- *; cbn [fst snd] in H |- *; try discriminate.
    + injection H as <-. exists [], idx. cbn.
      repeat split; try assumption.
      destruct Hlast as [->|Hn]; [reflexivity|discriminate].
    + injection Hn as <-.
      destruct (IH _ _ H) as (earlier & m & Hfits & Hreg & Hdot & Hidx & Hlen).
      exists ((idx, regress idx) :: earlier), m.
      rewrite fits_of_round. split; [now rewrite Hfits|].
      repeat split; try assumption.
      cbn [length]. rewrite Hlen, Ht. reflexivity.
Qed.

(** At most [n + 1] iterations start; every one but a failing one runs
    one regression. *)
Lemma iterate_bound n : forall idx,
  length (starts_of (fst (iterate n idx))) <= Datatypes.S n
  /\ match snd (iterate n idx) with
     | Ok None =>
         length (starts_of (fst (iterate n idx)))
         = Datatypes.S (length (fits_of (fst (iterate n idx))))
     | _ =>
         length (fits_of (fst (iterate n idx)))
         = length (starts_of (fst (iterate n idx)))
     end.
Proof.
  induction n as [|n IH]; intros idx.
  - destruct (MatchFacts.iterate_cases E a p 0 idx)
      as [(Hc & Heq)|[(Hc & e & Heq)|[(Hc & zm & Hzm & Hlast & Heq)
                                     |(Hc & zm & n' & Hzm & Ht & Hn & Heq)]]];
      try discriminate; rewrite Heq; cbn; split; lia.
  - destruct (MatchFacts.iterate_cases E a p (Datatypes.S n) idx)
      as [(Hc & Heq)|[(Hc & e & Heq)|[(Hc & zm & Hzm & Hlast & Heq)
                                     |(Hc & zm & n' & Hzm & Ht & Hn & Heq)]]];
      rewrite Heq; try (cbn; split; lia).
    injection Hn as <-. destruct (IH (next_idx zm)) as [Hb Hm].
    cbn [fst snd]. rewrite fits_of_round, starts_of_round. cbn [length].
    split; [lia|].
    destruct (snd (iterate n (next_idx zm))) as [[st|]|e]; lia.
Qed.

(** [zero_fn] returns one value per position it is given, and one per
    matched pair when it is given none. *)
Lemma zero_fn_length C xx yy z :
  MatchFn.zero_fn E a p C xx yy = Ok z ->
  length z = match xx, yy with
             | Some xs, Some _ => length xs
             | _, _ => length (Prep.omag p)
             end.
Proof.
  unfold MatchFn.zero_fn. cbv zeta. intros H.
  apply MatchFacts.bind_Ok in H as (cols & Hcols & H).
  apply MatchFacts.bind_Ok in H as (X & HX & H).
  apply MatchFacts.mapM_length in H. rewrite H.
  apply MatchFacts.vstack_T_shape in HX as [-> _].
  unfold make_series in Hcols.
  rewrite MatchFacts.broadcast2_scalar_r in Hcols. cbn [bind] in Hcols.
  apply MatchFacts.bind_Ok in Hcols as (terms & _ & [= <-]).
  cbn [app hd]. unfold ones_like. rewrite !length_map.
  destruct xx as [xs|], yy as [ys|]; cbn [fst]; unfold zeros_like;
    now rewrite ?length_map.
Qed.

(** The bundle is built from the state of the loop. *)
Lemma export_fields st b :
  MatchFn.export E a p st = Ok b ->
  C_params b = fit_params st /\ b_idx b = fit_idx st
  /\ b_idx0 b = Prep.idx0 p /\ b_zero_model b = fit_zero_model st
  /\ b_oidx b = Prep.oidx p /\ b_omag b = Prep.omag p
  /\ b_omag_err b = Prep.omag_err p /\ b_cmag b = Prep.cmag p
  /\ b_cmag_err b = Prep.cmag_err p /\ b_color b = Prep.ccolor p
  /\ MatchFn.zero_fn E a p (fit_params st) (MatchArgs.obj_x a) (MatchArgs.obj_y a)
     = Ok (b_obj_zero b).
Proof.
  unfold MatchFn.export. intros H.
  apply MatchFacts.bind_Ok in H as (ct & _ & H).
  apply MatchFacts.bind_Ok in H as (oz & Hoz & [= <-]).
  cbn. repeat split. exact Hoz.
Qed.

End Loop.

Section Run.
Variable E : Env.
Variable a : MatchArgs.t.

Lemma regressions_prepared p :
  MatchFn.prepare E a = Ok p ->
  MatchFn.regressions E a
  = fits_of (fst (MatchFn.iterate E a p 4 (Prep.idx0 p))).
Proof.
  intros Hp. unfold MatchFn.regressions.
  rewrite (MatchRun.run_prepared E a p Hp). reflexivity.
Qed.

(** A returned bundle comes from a successful preparation, a final state
    of the loop and its export. *)
Lemma match_some_inv b :
  MatchFn.match_ E a = Ok (Some b) ->
  exists p st,
    MatchFn.prepare E a = Ok p
    /\ snd (MatchFn.iterate E a p 4 (Prep.idx0 p)) = Ok (Some st)
    /\ MatchFn.export E a p st = Ok b.
Proof.
  intros H.
  destruct (MatchFn.prepare E a) as [p|e] eqn:Hp.
  - rewrite (MatchRun.match_prepared E a p Hp) in H.
    apply MatchFacts.bind_Ok in H as ([st|] & Hst & H); [|discriminate].
    apply MatchFacts.bind_Ok in H as (b' & Hb & [= <-]).
    now exists p, st.
  - unfold MatchFn.match_, MatchFn.run in H. rewrite Hp in H. discriminate.
Qed.

(** What [prepare] puts in the arrays that the base mask is built from. *)
Lemma prepare_fields p :
  MatchFn.prepare E a = Ok p ->
  take (MatchArgs.obj_mag a) (MatchFn.oidx E a) = Ok (Prep.omag p)
  /\ take (MatchArgs.obj_flags a) (MatchFn.oidx E a) = Ok (Prep.oflags p)
  /\ Prep.oidx p = MatchFn.oidx E a
  /\ Prep.idx0 p
     = MatchFn.base_mask a (Prep.omag p) (Prep.omag_err p) (Prep.cmag p)
         (Prep.cmag_err p) (Prep.oflags p) (Prep.ccolor p).
Proof.
  unfold MatchFn.prepare. intros H.
  apply MatchFacts.bind_Ok in H as (omag & Homag & H).
  apply MatchFacts.bind_Ok in H as (omag_err & _ & H).
  apply MatchFacts.bind_Ok in H as (oflags & Hoflags & H).
  apply MatchFacts.bind_Ok in H as (cmag_m & _ & H).
  cbv zeta in H.
  apply MatchFacts.bind_Ok in H as (cmag_err & _ & H).
  apply MatchFacts.bind_Ok in H as (centred & _ & H).
  apply MatchFacts.bind_Ok in H as (cols & _ & H).
  apply MatchFacts.bind_Ok in H as (coloured & _ & H).
  cbv zeta in H.
  apply MatchFacts.bind_Ok in H as (X & _ & H).
  injection H as <-. cbn. repeat split; assumption.
Qed.

End Run.
End FitFacts.

(** The two recorded fits return a bundle. *)
Lemma demo_match_run :
  exists b, MatchFn.match_ Demo.env Demo.match_args = Ok (Some b).
Proof.
  destruct demo_prepare as (p & Hp).
  destruct (MatchRun.match_some Demo.env Demo.match_args p Hp
              demo_solver_contract I) as (b & _ & Hb & _).
  - intros m Hm.
    assert (Hc : In (count_true m)
                   (map count_true
                        (MatchFn.iteration_masks Demo.env Demo.match_args)))
      by now apply in_map.
    rewrite demo_masks in Hc. cbn in Hc. lia.
  - now exists b.
Qed.

Lemma demo_match_once_run :
  exists b, MatchFn.match_ Demo.env Demo.match_args_once = Ok (Some b)
            /\ nth 0 (b_idx0 b) false = true.
Proof.
  destruct demo_prepare_once as (p & Hp & _).
  unfold MatchFn.match_. rewrite (MatchRun.run_prepared _ _ p Hp).
  revert Hp. vm_compute. intros [= <-].
  eexists. split; reflexivity.
Qed.

(** The loop of [match] starts at most 5 iterations and runs at most one
    regression in each: a call that returns [None] has run one regression
    fewer than it started iterations, any other call as many, and a call
    with an empty cross-match runs none at all. *)
Theorem match_loop_bound (E : Env) (a : MatchArgs.t) :
  length (MatchFn.iteration_masks E a) <= 5
  /\ length (MatchFn.regressions E a) <= length (MatchFn.iteration_masks E a)
  /\ (MatchFn.match_ E a = Ok None ->
      length (MatchFn.iteration_masks E a)
      = Datatypes.S (length (MatchFn.regressions E a)))
  /\ (MatchFn.matches E a = [] -> MatchFn.regressions E a = []).
Proof.
  destruct (MatchFn.prepare E a) as [p|e] eqn:Hp.
  - rewrite (MatchRun.masks_prepared E a p Hp),
      (FitFacts.regressions_prepared E a p Hp),
      (MatchRun.match_prepared E a p Hp).
    destruct (FitFacts.iterate_bound E a p 4 (Prep.idx0 p)) as [Hb Hm].
    split; [exact Hb|]. split; [|split].
    + destruct (snd (MatchFn.iterate E a p 4 (Prep.idx0 p))) as [[st|]|e]; lia.
    + intros H.
      destruct (snd (MatchFn.iterate E a p 4 (Prep.idx0 p))) as [[st|]|e];
        cbn [bind] in H.
      * apply MatchFacts.bind_Ok in H as (b & _ & H). discriminate.
      * exact Hm.
      * discriminate.
    + intros Hno.
      destruct (MatchFacts.prepare_no_match E a Hno) as (p' & Hp' & Hidx).
      rewrite Hp in Hp'. injection Hp' as <-. rewrite Hidx.
      rewrite MatchFacts.iterate_fail by (cbn; lia). reflexivity.
  - unfold MatchFn.iteration_masks, MatchFn.regressions, MatchFn.match_,
      MatchFn.run.
    rewrite Hp. cbn. split; [lia|]. split; [lia|]. split; [discriminate|].
    reflexivity.
Qed.

(** A returned bundle reports the last regression of the call: its
    coefficients are those of the last fit, [zero_model] is the design
    matrix times these coefficients, and the mask [idx] is the base mask
    cut around that model (so it selects only points of [idx0]).  With a
    truthy [threshold] the call has then run exactly 5 regressions, with a
    falsy one exactly 1. *)
Theorem match_reports_last_fit (E : Env) (a : MatchArgs.t) (b : Bundle) :
  MatchFn.match_ E a = Ok (Some b) ->
  exists p earlier m,
    MatchFn.prepare E a = Ok p
    /\ MatchFn.regressions E a = earlier ++ [(m, C_params b)]
    /\ C_params b = MatchFn.regress E a p m
    /\ rows_dot (Prep.X p) (C_params b) = Ok (b_zero_model b)
    /\ b_idx b = MatchFn.next_idx a p (b_zero_model b)
    /\ submask (b_idx b) (b_idx0 b)
    /\ length (MatchFn.regressions E a)
       = if truthy (MatchArgs.threshold a) then 5 else 1.
Proof.
  intros H. destruct (FitFacts.match_some_inv E a b H) as (p & st & Hp & Hst & Hb).
  destruct (FitFacts.export_fields E a p st b Hb)
    as (HC & Hidx & Hidx0 & Hzm & _).
  destruct (FitFacts.iterate_result E a p 4 _ st Hst)
    as (earlier & m & Hfits & Hreg & Hdot & Hnext & Hlen).
  exists p, earlier, m. rewrite (FitFacts.regressions_prepared E a p Hp).
  rewrite HC, Hidx, Hidx0, Hzm. repeat split; try assumption.
  rewrite Hnext. apply MatchFacts.next_idx_submask.
Qed.

(** On the recorded fit with [threshold=5]: five regressions, the last
    one giving the coefficient 0 of the bundle. *)
Lemma match_reports_last_fit_witness :
  exists b earlier m,
    MatchFn.match_ Demo.env Demo.match_args = Ok (Some b)
    /\ MatchFn.regressions Demo.env Demo.match_args = earlier ++ [(m, C_params b)]
    /\ length (MatchFn.regressions Demo.env Demo.match_args) = 5
    /\ submask (b_idx b) (b_idx0 b).
Proof.
  destruct demo_match_run as (b & Hb).
  destruct (match_reports_last_fit Demo.env Demo.match_args b Hb)
    as (p & earlier & m & _ & Hfits & _ & _ & _ & Hsub & Hlen).
  exists b, earlier, m. split; [exact Hb|]. split; [exact Hfits|].
  split; [exact Hlen|exact Hsub].
Defined.

(** Every point of the base mask [idx0] of a returned bundle, and so every
    point of its inlier mask [idx], is a match of an object whose flags are
    0 with finite instrumental and catalogue magnitudes and errors, and
    with a finite colour when colours were given. *)
Theorem match_mask_unflagged_finite (E : Env) (a : MatchArgs.t) (b : Bundle)
    (i : nat) :
  MatchFn.match_ E a = Ok (Some b) ->
  (nth i (b_idx b) false = true -> nth i (b_idx0 b) false = true)
  /\ (nth i (b_idx0 b) false = true ->
      exists k om oe cm ce,
        nth_error (b_oidx b) i = Some k
        /\ nth_error (MatchArgs.obj_flags a) k = Some 0%Z
        /\ nth_error (b_omag b) i = Some om /\ is_finite om = true
        /\ nth_error (b_omag_err b) i = Some oe /\ is_finite oe = true
        /\ nth_error (b_cmag b) i = Some cm /\ is_finite cm = true
        /\ nth_error (b_cmag_err b) i = Some ce /\ is_finite ce = true
        /\ (MatchArgs.cat_color a <> None ->
            exists cc, nth_error (b_color b) i = Some cc /\ is_finite cc = true)).
Proof.
  intros H. destruct (FitFacts.match_some_inv E a b H) as (p & st & Hp & Hst & Hb).
  destruct (FitFacts.export_fields E a p st b Hb)
    as (_ & Hidx & Hidx0 & _ & Hoidx & Homag & Homag_err & Hcmag & Hcmag_err
        & Hcolor & _).
  destruct (FitFacts.iterate_result E a p 4 _ st Hst)
    as (_ & _ & _ & _ & _ & Hnext & _).
  destruct (FitFacts.prepare_fields E a p Hp) as (_ & Hflags & Hpo & Hmask).
  rewrite Hidx, Hidx0, Hoidx, Homag, Homag_err, Hcmag, Hcmag_err, Hcolor.
  split.
  - rewrite Hnext. apply FitFacts.submask_nth, MatchFacts.next_idx_submask.
  - rewrite Hmask. unfold MatchFn.base_mask. cbv zeta. intros Hi.
    assert (Hcore :
      nth i (map2 andb
               (map2 andb
                  (map2 andb
                     (map2 andb (map is_finite (Prep.omag p))
                                (map is_finite (Prep.omag_err p)))
                     (map is_finite (Prep.cmag p)))
                  (map is_finite (Prep.cmag_err p)))
               (map (fun f => Z.eqb f 0) (Prep.oflags p))) false = true
      /\ (MatchArgs.cat_color a <> None ->
          nth i (map is_finite (Prep.ccolor p)) false = true)).
    { destruct (MatchArgs.cat_color a) as [c|].
      - apply FitFacts.map2_andb_nth in Hi as [Hi Hc]. split; [exact Hi|now intros _].
      - split; [exact Hi|]. intros Hne. now destruct Hne. }
    destruct Hcore as [Hcore Hcol].
    apply FitFacts.map2_andb_nth in Hcore as [Hcore Hfl].
    apply FitFacts.map2_andb_nth in Hcore as [Hcore Hce].
    apply FitFacts.map2_andb_nth in Hcore as [Hcore Hcm].
    apply FitFacts.map2_andb_nth in Hcore as [Hom Hoe].
    apply FitFacts.map_nth_true in Hfl as (fl & Hfl & Hz).
    apply Z.eqb_eq in Hz. subst fl.
    apply FitFacts.map_nth_true in Hom as (om & Hom & Hfom).
    apply FitFacts.map_nth_true in Hoe as (oe & Hoe & Hfoe).
    apply FitFacts.map_nth_true in Hcm as (cm & Hcm & Hfcm).
    apply FitFacts.map_nth_true in Hce as (ce & Hce & Hfce).
    destruct (FitFacts.take_nth _ _ _ i 0%Z Hflags Hfl) as (k & Hk & Hflag).
    exists k, om, oe, cm, ce. rewrite Hpo.
    repeat (split; [assumption|]).
    intros Hne. now apply FitFacts.map_nth_true, Hcol.
Qed.

(** On the recorded fit: the first match is in the base mask, of object 0,
    unflagged, with magnitudes 0 and 0. *)
Lemma match_mask_unflagged_finite_witness :
  exists b k om cm,
    MatchFn.match_ Demo.env Demo.match_args_once = Ok (Some b)
    /\ nth 0 (b_idx0 b) false = true
    /\ nth_error (b_oidx b) 0 = Some k
    /\ nth_error (MatchArgs.obj_flags Demo.match_args_once) k = Some 0%Z
    /\ nth_error (b_omag b) 0 = Some om /\ is_finite om = true
    /\ nth_error (b_cmag b) 0 = Some cm /\ is_finite cm = true.
Proof.
  destruct demo_match_once_run as (b & Hb & Hi).
  destruct (proj2 (match_mask_unflagged_finite Demo.env Demo.match_args_once b 0 Hb) Hi)
    as (k & om & oe & cm & ce & Hk & Hfl & Hom & Hfom & _ & _ & Hcm & Hfcm & _).
  exists b, k, om, cm. repeat (split; [assumption|]). exact Hfcm.
Defined.

(** The array [obj_zero] of a returned bundle has one entry per object
    position when [obj_x] and [obj_y] are given, and one per matched pair
    when they are not; [zero_model] has one entry per matched pair, and the
    masks [idx] and [idx0] have one length. *)
Theorem match_bundle_lengths (E : Env) (a : MatchArgs.t) (b : Bundle) :
  MatchFn.match_ E a = Ok (Some b) ->
  length (b_obj_zero b)
  = match MatchArgs.obj_x a, MatchArgs.obj_y a with
    | Some xs, Some _ => length xs
    | _, _ => length (MatchFn.matches E a)
    end
  /\ length (b_zero_model b) = length (MatchFn.matches E a)
  /\ length (b_idx b) = length (b_idx0 b).
Proof.
  intros H. destruct (FitFacts.match_some_inv E a b H) as (p & st & Hp & Hst & Hb).
  destruct (FitFacts.export_fields E a p st b Hb)
    as (_ & Hidx & Hidx0 & Hzm & _ & _ & _ & _ & _ & _ & Hoz).
  destruct (FitFacts.iterate_result E a p 4 _ st Hst)
    as (_ & _ & _ & _ & Hdot & Hnext & _).
  destruct (FitFacts.prepare_fields E a p Hp) as (Homag & _).
  destruct (MatchFacts.prepare_shape E a p Hp) as (_ & _ & HX).
  split; [|split].
  - rewrite (FitFacts.zero_fn_length E a p _ _ _ _ Hoz).
    apply MatchFacts.take_length in Homag.
    unfold MatchFn.oidx in Homag. rewrite length_map in Homag.
    destruct (MatchArgs.obj_x a), (MatchArgs.obj_y a); congruence.
  - rewrite Hzm. apply MatchFacts.mapM_length in Hdot. congruence.
  - rewrite Hidx, Hidx0, Hnext. apply MatchFacts.next_idx_length.
Qed.

(** On the recorded fit, made without positions: eight matches, eight
    entries of [obj_zero]. *)
Lemma match_bundle_lengths_witness :
  exists b,
    MatchFn.match_ Demo.env Demo.match_args = Ok (Some b)
    /\ length (b_obj_zero b) = 8 /\ length (b_zero_model b) = 8.
Proof.
  destruct demo_match_run as (b & Hb).
  destruct (match_bundle_lengths Demo.env Demo.match_args b Hb) as (Hoz & Hzm & _).
  exists b. split; [exact Hb|]. split; [exact Hoz|exact Hzm].
Defined.

(** ** The design matrix of the fit *)

Module DesignFacts.

Lemma map2_nth {A B C : Type} (f : A -> B -> C) (u : list A) (v : list B)
    (da : A) (db : B) (dc : C) : forall i,
  i < length u -> i < length v ->
  nth i (map2 f u v) dc = f (nth i u da) (nth i v db).
Proof.
  revert v. induction u as [|x u IH]; intros [|y v] [|i]; cbn; try lia.
  - reflexivity.
  - intros Hu Hv. apply IH; lia.
Qed.

Lemma vstack_T_row cols X i row :
  vstack_T cols = Ok X -> nth_error X i = Some row ->
  i < length (hd [] cols) /\ row = map (fun c => nth i c nan) cols.
Proof.
  unfold vstack_T. destruct cols as [|c0 cols]; [discriminate|].
  destruct (forallb _ _); [|discriminate]. intros [= <-] Hrow.
  rewrite nth_error_map, nth_error_seq in Hrow. cbn [hd].
  destruct (Nat.ltb_spec i (length c0)); [|discriminate].
  cbn in Hrow. injection Hrow as <-. split; [assumption|reflexivity].
Qed.

Section Prepare.
Variable E : Env.
Variable a : MatchArgs.t.

Lemma prepare_rows p i row :
  MatchFn.prepare E a = Ok p -> nth_error (Prep.X p) i = Some row ->
  hd_error row = Some 1%float
  /\ (MatchArgs.cat_color a <> None ->
      exists cc, nth_error (Prep.ccolor p) i = Some cc /\ last row nan = cc).
Proof.
  unfold MatchFn.prepare. intros H.
  assert (Ho : length (MatchFn.oidx E a) = length (MatchFn.matches E a))
    by (unfold MatchFn.oidx; apply length_map).
  assert (Hc : length (MatchFn.cidx E a) = length (MatchFn.matches E a))
    by (unfold MatchFn.cidx; apply length_map).
  set (n := length (MatchFn.matches E a)) in *.
  apply MatchFacts.bind_Ok in H as (omag & Homag & H).
  apply MatchFacts.take_length in Homag.
  apply MatchFacts.bind_Ok in H as (omag_err & _ & H).
  apply MatchFacts.bind_Ok in H as (oflags & _ & H).
  apply MatchFacts.bind_Ok in H as (cmag_m & _ & H).
  cbv zeta in H.
  apply MatchFacts.bind_Ok in H as (cmag_err & _ & H).
  apply MatchFacts.bind_Ok in H as (centred & Hcen & H).
  assert (Hx : length (snd (fst centred)) = n).
  { destruct (MatchArgs.obj_x a) as [ox|], (MatchArgs.obj_y a) as [oy|];
      try (injection Hcen as <-; cbn; unfold zeros_like;
           rewrite !length_map; lia).
    apply MatchFacts.bind_Ok in Hcen as (xs & Hxs & Hcen).
    apply MatchFacts.bind_Ok in Hcen as (ys & Hys & Hcen).
    apply MatchFacts.take_length in Hxs. cbv zeta in Hcen. injection Hcen as <-.
    cbn. rewrite !length_map. lia. }
  set (x := snd (fst centred)) in *. set (y := snd centred) in *.
  apply MatchFacts.bind_Ok in H as (cols & Hcols & H).
  unfold make_series in Hcols.
  rewrite MatchFacts.broadcast2_scalar_r in Hcols. cbn [bind] in Hcols.
  apply MatchFacts.bind_Ok in Hcols as (terms & _ & [= <-]).
  apply MatchFacts.bind_Ok in H as (coloured & Hcol & H).
  cbv zeta in H.
  apply MatchFacts.bind_Ok in H as (X & HX & H).
  injection H as <-. cbn [Prep.X Prep.ccolor]. intros Hrow.
  destruct (vstack_T_row _ _ _ _ HX Hrow) as [Hi ->].
  destruct (MatchArgs.cat_color a) as [c|].
  - apply MatchFacts.bind_Ok in Hcol as (m & Hm & Hcol).
    apply MatchFacts.take_length in Hm. cbv zeta in Hcol.
    apply MatchFacts.bind_Ok in Hcol as (Xc & HXc & Hcol). injection Hcol as <-.
    cbn [fst snd] in *.
    assert (Hlen : length (ones_like x) = length (filled_nan m)).
    { unfold ones_like, filled_nan. rewrite !length_map. lia. }
    unfold make_series in HXc.
    change (series_terms 0) with (@nil (Z * Z)) in HXc.
    rewrite (MatchFacts.broadcast2_same _ _ _ Hlen) in HXc.
    cbn [bind mapM app] in HXc. injection HXc as <-.
    cbn [app hd map hd_error] in *.
    unfold ones_like in Hi. rewrite !length_map in Hi.
    split.
    + f_equal.
      rewrite (ArrayFacts.nth_map_in _ _ i nan 0%float)
        by (unfold ones_like; now rewrite length_map).
      unfold ones_like.
      rewrite (ArrayFacts.nth_map_in _ _ i 0%float 0%float) by exact Hi.
      reflexivity.
    + intros _. exists (nth i (filled_nan m) nan). split.
      * apply nth_error_nth'. unfold filled_nan. rewrite length_map. lia.
      * rewrite map_app. cbn [map].
        rewrite app_comm_cons, last_last.
        rewrite (map2_nth _ _ _ 0%float nan nan)
          by (unfold ones_like, filled_nan; rewrite length_map; lia).
        unfold ones_like.
        rewrite (ArrayFacts.nth_map_in _ _ i 0%float 0%float) by exact Hi.
        apply FloatFacts.mul_one_l.
  - injection Hcol as <-. cbn [fst snd app hd map hd_error] in *.
    unfold ones_like in Hi. rewrite !length_map in Hi.
    split; [|intros Hne; now destruct Hne].
    f_equal.
    rewrite (ArrayFacts.nth_map_in _ _ i nan 0%float)
      by (unfold ones_like; now rewrite length_map).
    unfold ones_like.
    rewrite (ArrayFacts.nth_map_in _ _ i 0%float 0%float) by exact Hi.
    reflexivity.
Qed.

End Prepare.
End DesignFacts.

(** The design matrix that [match] builds has one row per matched pair,
    of [width] entries: the first is the constant 1 and, when colours are
    given, the last is the colour of the matched catalogue star, exactly
    ([np.ones_like(x)*ccolor] is [ccolor] in binary64, NaN included). *)
Theorem match_design_matrix (E : Env) (a : MatchArgs.t) (p : Prep.t) (i : nat)
    (row : list float) :
  MatchFn.prepare E a = Ok p -> nth_error (Prep.X p) i = Some row ->
  length row = MatchFn.width a
  /\ hd_error row = Some 1%float
  /\ (MatchArgs.cat_color a <> None ->
      exists cc, nth_error (Prep.ccolor p) i = Some cc /\ last row nan = cc).
Proof.
  intros Hp Hrow.
  destruct (MatchFacts.prepare_shape E a p Hp) as (Hall & _).
  split.
  - rewrite Forall_forall in Hall. apply Hall.
    now apply nth_error_In with i.
  - now apply (DesignFacts.prepare_rows E a p i row).
Qed.

(** On the recorded fit, of a constant: every row is the single entry 1. *)
Lemma match_design_matrix_witness :
  exists p, MatchFn.prepare Demo.env Demo.match_args = Ok p
    /\ forall i row, nth_error (Prep.X p) i = Some row ->
         length row = 1 /\ hd_error row = Some 1%float.
Proof.
  destruct demo_prepare as (p & Hp). exists p. split; [exact Hp|].
  intros i row Hrow.
  destruct (match_design_matrix Demo.env Demo.match_args p i row Hp Hrow)
    as (Hlen & Hhd & _).
  split; [exact Hlen|exact Hhd].
Defined.
